(** * Chunked upload: session bookkeeping, completion and aggregation

    A shallow embedding of [api/upload-chunked.js] (and of the sibling
    endpoint [api/upload-chunk.js]) together with the properties that the
    design document states about them.

    Conventions of the embedding.
    - The upload directory is a finite map from normalised absolute paths
      to typed file contents, plus the set of existing directories;
      [fs.writeFileSync] throws where the parent directory is missing.
    - [path.join] is modelled with its normalisation of [.], [..] and
      empty segments.
    - Numbers. The confidence arithmetic of [aggregateChunkResults] is
      IEEE 754 double precision ([SpecFloat] at precision 53, rounding to
      nearest even). A number stored in a file or carried by a chunk
      result is the decimal that [JSON.stringify] wrote, a rational; read
      back it is the double nearest to it ([lit]). A number of the
      aggregate is given by the exact value of its double, [None] where
      the double is [NaN] or an infinity ([null] in the JSON response).
      [processChunk] works on integers and on decimals of three and four
      places, over [Q]. Integer fields of a request are the integers
      [parseInt] returned; a field that does not parse (NaN) is outside
      the model.
    - [createHash('md5')] is RFC 1321, implemented below and checked on
      the RFC's test vectors.
    - [Date.now()] reads the clock of the world; [Math.random()] is the
      argument [rnd] of the handler.
    - [formidable] writes an uploaded file to a temporary file under a
      random name and removes it again where the parse fails. The world
      keeps these files ([temps], in the order they were written) apart
      from the files whose paths the program computes: that a random name
      equals such a path is not modelled. The handlers read and unlink
      their temporary file as the source does.
    - A stored file holds the value that [JSON.stringify] wrote;
      [JSON.parse] on a file of another kind throws.
    - The field [analyzed] of the world is not program state: it records
      the calls of [processChunk], to state how often the analysis runs.
    - A request runs in two atomic segments separated by
      [await processChunk(...)]; the sequential handler runs one after the
      other, the scheduler ([step], [run]) lets the segments of different
      requests alternate. *)

From Stdlib Require Import ZArith List Strings.String Strings.Ascii Strings.Byte.
From Stdlib Require Import QArith Qround Qabs Lqa Lia Sorting.Sorted.
From Stdlib Require Import Floats.SpecFloat.
From Stdlib Require OrderedTypeEx.
From stdpp Require Import gmap strings list fin_maps pretty.
Import ListNotations.
Local Open Scope Z_scope.

(** ** MD5 (RFC 1321), as computed by [createHash('md5')] *)

Module MD5.

Definition mask32 (x : Z) : Z := Z.land x 0xffffffff.
Definition add32 (x y : Z) : Z := mask32 (x + y).
Definition rotl32 (x : Z) (c : Z) : Z :=
  mask32 (Z.lor (Z.shiftl x c) (Z.shiftr x (32 - c))).

Definition shifts : list Z :=
  [7; 12; 17; 22; 7; 12; 17; 22; 7; 12; 17; 22; 7; 12; 17; 22;
   5; 9; 14; 20; 5; 9; 14; 20; 5; 9; 14; 20; 5; 9; 14; 20;
   4; 11; 16; 23; 4; 11; 16; 23; 4; 11; 16; 23; 4; 11; 16; 23;
   6; 10; 15; 21; 6; 10; 15; 21; 6; 10; 15; 21; 6; 10; 15; 21].

Definition sines : list Z :=
  [0xd76aa478; 0xe8c7b756; 0x242070db; 0xc1bdceee; 0xf57c0faf; 0x4787c62a; 0xa8304613; 0xfd469501;
   0x698098d8; 0x8b44f7af; 0xffff5bb1; 0x895cd7be; 0x6b901122; 0xfd987193; 0xa679438e; 0x49b40821;
   0xf61e2562; 0xc040b340; 0x265e5a51; 0xe9b6c7aa; 0xd62f105d; 0x02441453; 0xd8a1e681; 0xe7d3fbc8;
   0x21e1cde6; 0xc33707d6; 0xf4d50d87; 0x455a14ed; 0xa9e3e905; 0xfcefa3f8; 0x676f02d9; 0x8d2a4c8a;
   0xfffa3942; 0x8771f681; 0x6d9d6122; 0xfde5380c; 0xa4beea44; 0x4bdecfa9; 0xf6bb4b60; 0xbebfbc70;
   0x289b7ec6; 0xeaa127fa; 0xd4ef3085; 0x04881d05; 0xd9d4d039; 0xe6db99e5; 0x1fa27cf8; 0xc4ac5665;
   0xf4292244; 0x432aff97; 0xab9423a7; 0xfc93a039; 0x655b59c3; 0x8f0ccc92; 0xffeff47d; 0x85845dd1;
   0x6fa87e4f; 0xfe2ce6e0; 0xa3014314; 0x4e0811a1; 0xf7537e82; 0xbd3af235; 0x2ad7d2bb; 0xeb86d391].

Definition byteZ (b : byte) : Z := Z.of_N (Byte.to_N b).
Definition Zbyte (z : Z) : byte :=
  match Byte.of_N (Z.to_N (Z.land z 0xff)) with Some b => b | None => x00 end.

(** Little-endian encoding of a word on [n] bytes, and its decoding. *)
Fixpoint le_bytes (n : nat) (z : Z) : list byte :=
  match n with
  | O => []
  | S n' => Zbyte z :: le_bytes n' (Z.shiftr z 8)
  end.

Fixpoint le_word (bs : list byte) : Z :=
  match bs with
  | [] => 0
  | b :: bs' => byteZ b + Z.shiftl (le_word bs') 8
  end.

(** Big-endian decoding: the number that a run of hex digits denotes. *)
Definition be_word (bs : list byte) : Z :=
  fold_left (fun acc b => 256 * acc + byteZ b) bs 0.

Definition pad (msg : list byte) : list byte :=
  let len := Z.of_nat (List.length msg) in
  let zeros := Z.to_nat ((55 - len) mod 64) in
  msg ++ [x80] ++ List.repeat x00 zeros
      ++ le_bytes 8 (Z.land (8 * len) 0xffffffffffffffff).

Fixpoint words (n : nat) (bs : list byte) : list Z :=
  match n with
  | O => []
  | S n' => le_word (firstn 4 bs) :: words n' (skipn 4 bs)
  end.

Record regs := Regs { rA : Z; rB : Z; rC : Z; rD : Z }.

Definition round_step (M : list Z) (i : Z) (r : regs) : regs :=
  let '(Regs a b c d) := r in
  let '(f, g) :=
    if i <? 16 then
      (Z.lor (Z.land b c) (Z.land (Z.lxor b 0xffffffff) d), i)
    else if i <? 32 then
      (Z.lor (Z.land d b) (Z.land (Z.lxor d 0xffffffff) c), (5 * i + 1) mod 16)
    else if i <? 48 then
      (Z.lxor (Z.lxor b c) d, (3 * i + 5) mod 16)
    else
      (Z.lxor c (Z.lor b (Z.lxor d 0xffffffff)), (7 * i) mod 16) in
  let f' := add32 (add32 (add32 f a) (nth (Z.to_nat i) sines 0))
                  (nth (Z.to_nat g) M 0) in
  Regs d (add32 b (rotl32 f' (nth (Z.to_nat i) shifts 0))) b c.

Definition block (r : regs) (bs : list byte) : regs :=
  let M := words 16 bs in
  let r' := fold_left (fun acc i => round_step M (Z.of_nat i) acc) (seq 0 64) r in
  Regs (add32 (rA r) (rA r')) (add32 (rB r) (rB r'))
       (add32 (rC r) (rC r')) (add32 (rD r) (rD r')).

Fixpoint blocks (n : nat) (r : regs) (bs : list byte) : regs :=
  match n with
  | O => r
  | S n' => blocks n' (block r (firstn 64 bs)) (skipn 64 bs)
  end.

Definition digest (msg : list byte) : list byte :=
  let p := pad msg in
  let r := blocks (List.length p / 64)
                  (Regs 0x67452301 0xefcdab89 0x98badcfe 0x10325476) p in
  le_bytes 4 (rA r) ++ le_bytes 4 (rB r) ++ le_bytes 4 (rC r) ++ le_bytes 4 (rD r).

Definition hexdigit (z : Z) : ascii :=
  nth (Z.to_nat z) (list_ascii_of_string "0123456789abcdef") "0"%char.

Fixpoint hex (bs : list byte) : string :=
  match bs with
  | [] => EmptyString
  | b :: bs' =>
      String (hexdigit (Z.shiftr (byteZ b) 4))
             (String (hexdigit (Z.land (byteZ b) 15)) (hex bs'))
  end.

End MD5.

(** [createHash('md5').update(data).digest('hex')] *)
Definition md5_hex (data : list byte) : string := MD5.hex (MD5.digest data).


(** ** Strings and POSIX paths *)

Module Path.

Definition slash : ascii := "/"%char.

Fixpoint no_slash (s : string) : bool :=
  match s with
  | EmptyString => true
  | String c s' => negb (Ascii.eqb c slash) && no_slash s'
  end.

(** The segments between the separators: [segments "/a//b" = ["";"a";"";"b"]]. *)
Fixpoint segments (s : string) : list string :=
  match s with
  | EmptyString => [EmptyString]
  | String c s' =>
      if Ascii.eqb c slash then EmptyString :: segments s'
      else match segments s' with
           | seg :: rest => String c seg :: rest
           | [] => [String c EmptyString]
           end
  end.

(** [normalizeString] for an absolute path: empty segments and [.] are
    skipped, [..] drops the segment before it (nothing, at the root).
    [stack] holds the segments kept so far, last one first. *)
Fixpoint resolve (stack : list string) (segs : list string) : list string :=
  match segs with
  | [] => rev stack
  | seg :: rest =>
      if bool_decide (seg = "" ∨ seg = ".") then resolve stack rest
      else if bool_decide (seg = "..") then resolve (tail stack) rest
      else resolve (seg :: stack) rest
  end.

Definition trailing (p : string) : bool :=
  match rev (segments p) with
  | EmptyString :: _ :: _ => true
  | _ => false
  end.

Definition render (segs : list string) : string :=
  String slash (String.concat "/" segs).

(** [path.normalize] on an absolute path. *)
Definition normalize (p : string) : string :=
  let segs := resolve [] (segments p) in
  match segs with
  | [] => "/"
  | _ => if trailing p then render segs +:+ "/" else render segs
  end.

(** [path.join(dir, name)] for an absolute [dir] and a non-empty [name]. *)
Definition join (dir name : string) : string :=
  normalize (dir +:+ "/" +:+ name).

(** The path without its trailing separator: what the file system sees. *)
Definition canon (p : string) : string := render (resolve [] (segments p)).

(** The directory a path lives in. *)
Definition parent (p : string) : string :=
  render (removelast (resolve [] (segments p))).

(** The ancestors of a path, the path itself included, the root excluded. *)
Definition ancestors (p : string) : list string :=
  let segs := resolve [] (segments p) in
  map (fun n => render (firstn n segs)) (seq 1 (List.length segs)).

End Path.

(** [String(n)] for an integer and [s.padStart(4, '0')]. *)
Definition String_of (n : Z) : string := pretty n.

Definition padStart4 (s : string) : string :=
  string_of_list_ascii
    (List.repeat "0"%char (4 - String.length s) ++ list_ascii_of_string s).

(** ** Numbers *)

Definition Q_of (z : Z) : Q := inject_Z z.

(** [Math.round]: the nearest integer, halves upwards. *)
Definition Math_round (x : Q) : Z := Qfloor (x + (1 # 2))%Q.

(** [Math.max(lo, Math.min(hi, x))] *)
Definition clamp (lo hi x : Q) : Q :=
  let m := if Qle_bool hi x then hi else x in      (* Math.min(hi, x) *)
  if Qle_bool m lo then lo else m.                  (* Math.max(lo, m) *)

(** [a > b] on numbers *)
Definition Qgtb (a b : Q) : bool := negb (Qle_bool a b).

(** The quotient of two integers, [None] where it is not a number. *)
Definition jdiv (a b : option Q) : option Q :=
  match a, b with
  | Some x, Some y => if Qeq_bool y 0 then None else Some (x / y)%Q
  | _, _ => None
  end.

(** *** Double precision

    The arithmetic of [aggregateChunkResults] is IEEE 754 binary64 with
    rounding to nearest, ties to even: [SpecFloat] of the Standard
    Library at precision 53. *)

Definition double : Set := spec_float.
Definition prec : Z := 53.
Definition emax : Z := 1024.

Definition fadd : double -> double -> double := SFadd prec emax.
Definition fmul : double -> double -> double := SFmul prec emax.
Definition fdiv : double -> double -> double := SFdiv prec emax.

(** [a > b] *)
Definition fgt (a b : double) : bool := SFltb b a.

Definition zero : double := S754_zero false.

(** The double that holds the integer [z]: [z] itself up to 2^53, the
    nearest double beyond. *)
Definition Number (z : Z) : double := binary_normalize prec emax z 0 false.

(** The double that a decimal numeral denotes, in a source text or in a
    JSON file: the double nearest to the rational. *)
Definition unrounded (z : Z) : double :=
  match z with
  | 0 => S754_zero false
  | Zpos p => S754_finite false p 0
  | Zneg p => S754_finite true p 0
  end.

Definition lit (q : Q) : double :=
  fdiv (unrounded (Qnum q)) (unrounded (Zpos (Qden q))).

(** What [JSON.stringify] writes for a number: the number, given here by
    its exact value, or [null] for [NaN] and the infinities. *)
Definition JSON_number (x : double) : option Q :=
  match x with
  | S754_zero _ => Some 0%Q
  | S754_finite s m e =>
      let n := if s then Zneg m else Zpos m in
      Some (match e with
            | 0 => n # 1
            | Zpos k => (n * Z.pow_pos 2 k) # 1
            | Zneg k => n # (Pos.pow 2 k)
            end)
  | _ => None
  end.

(** [Math.round] on a double: exact, halves upwards; [NaN] and the
    infinities are returned as they are. *)
Definition Math_round_d (x : double) : double :=
  match x, JSON_number x with
  | S754_finite s _ _, Some v => binary_normalize prec emax (Math_round v) 0 s
  | _, _ => x
  end.

(** [x.toFixed(2)] *)
Definition toFixed2 (x : Q) : string :=
  let neg := negb (Qle_bool 0 x) in
  let a := if neg then (- x)%Q else x in
  let n := Math_round (a * 100)%Q in
  let frac := n mod 100 in
  (if neg then "-" else "") +:+ String_of (n / 100) +:+ "."
    +:+ String_of (frac / 10) +:+ String_of (frac mod 10).

(** ** Data *)

Inductive verdict := fake | real.

#[global] Instance verdict_eq_dec : EqDecision verdict.
Proof. solve_decision. Defined.

(** The object [processChunk] returns, stored as [<session>-result-<i>.json]. *)
Record chunkResult := ChunkResult {
  r_chunkIndex : Z;
  r_sessionId : string;
  r_prediction : verdict;
  r_confidence : Q;
  r_modelsUsed : list string;
  r_chunkSize : Z;
  r_estimatedFrames : Z;
  r_processingTime : Q;
  r_hash : string;
  r_timestamp : Z
}.

(** One entry of [<session>-metadata.json]. *)
Record chunkMeta := ChunkMeta {
  m_size : Z;
  m_hash : string;
  m_timestamp : Z
}.

(** [metadata.json] of [api/upload-chunk.js]. *)
Record uploadMeta := UploadMeta {
  u_fileName : option string;
  u_fileSize : Z;
  u_totalChunks : Z;
  u_uploadedChunks : Z;
  u_lastChunkTime : Z
}.

Inductive file :=
| ChunkFile (bytes : list byte)
| MetadataFile (metadata : gmap Z chunkMeta)
| ResultFile (result : chunkResult)
| UploadMetaFile (metadata : uploadMeta).

Record breakdownEntry := BreakdownEntry {
  b_chunkIndex : Z;
  b_prediction : verdict;
  b_confidence : Q;
  b_size : string;
  b_models : list string;
  b_frames : Z
}.

Inductive consensus := fake_majority | real_majority.

(** The object [aggregateChunkResults] returns. *)
Record aggregate := Aggregate {
  a_prediction : verdict;
  a_confidence : option Q;
  a_models_used : list string;
  a_processing_time : option Q;
  a_total_chunks : Z;
  a_chunks_fake : Z;
  a_chunks_real : Z;
  a_chunk_breakdown : list breakdownEntry;
  a_file_size_mb : string;
  a_raw_confidence : option Q;
  a_chunk_consensus : consensus;
  a_consistency_score : option Q;
  a_frames_analyzed : Z;
  a_chunks_processed : Z;
  a_filename : string;
  a_file_size : Z;
  a_timestamp : Z
}.

(** The closure handed to [setTimeout]: it captures the session and its
    declared number of chunks. *)
Record timer := Timer {
  t_due : Z;
  t_sessionId : string;
  t_totalChunks : Z
}.

Record world := World {
  files : gmap string file;
  dirs : gset string;
  clock : Z;
  timers : list timer;
  analyzed : list (string * Z);  (* the calls of [processChunk] so far *)
  temps : list (option (list byte))
    (* the files [formidable] has written, in order; [None] once unlinked *)
}.

Inductive error :=
| ENOENT (path : string)
| EISDIR (path : string)
| EEXIST (path : string)
| SyntaxError (path : string)
| FileTooLarge
| EmptyFile.

(** ** Effects: a state and exception monad over the world *)

Inductive outcome (A : Type) :=
| Ok (a : A)
| Throw (e : error).
Arguments Ok {A} a.
Arguments Throw {A} e.

Definition io (A : Type) : Type := world -> outcome A * world.

Definition ret {A} (a : A) : io A := fun w => (Ok a, w).
Definition throw {A} (e : error) : io A := fun w => (Throw e, w).
Definition bind {A B} (c : io A) (k : A -> io B) : io B :=
  fun w => match c w with
           | (Ok a, w') => k a w'
           | (Throw e, w') => (Throw e, w')
           end.

Notation "'let*' x := c 'in' k" := (bind c (fun x => k))
  (at level 10, x name, c at level 100, k at level 200).
Notation "c ;; k" := (bind c (fun _ => k))
  (at level 100, k at level 200, right associativity).

(** [for (x of xs) body(x)], stopping at the first exception *)
Fixpoint for_each {A} (xs : list A) (body : A -> io unit) : io unit :=
  match xs with
  | [] => ret tt
  | x :: xs' => body x ;; for_each xs' body
  end.

(** [try { c } catch (e) { console.error(e) }] *)
Definition try_ (c : io unit) : io unit :=
  fun w => match c w with
           | (Ok _, w') => (Ok tt, w')
           | (Throw _, w') => (Ok tt, w')
           end.

(** *** The file system *)

Definition set_files (fs : gmap string file) (w : world) : world :=
  World fs (dirs w) (clock w) (timers w) (analyzed w) (temps w).

Definition is_dir (w : world) (p : string) : bool :=
  bool_decide (Path.canon p ∈ dirs w).

Definition file_at (w : world) (p : string) : option file :=
  if Path.trailing p then None else files w !! p.

Definition existsSync (p : string) : io bool :=
  fun w => (Ok (is_dir w p || bool_decide (is_Some (file_at w p))), w).

Definition readFileSync (p : string) : io file :=
  fun w => match file_at w p with
           | Some f => (Ok f, w)
           | None => (Throw (if is_dir w p then EISDIR p else ENOENT p), w)
           end.

Definition writeFileSync (p : string) (f : file) : io unit :=
  fun w =>
    if is_dir w p then (Throw (EISDIR p), w)
    else if Path.trailing p then (Throw (ENOENT p), w)
    else if bool_decide (Path.parent p ∈ dirs w) then
      (Ok tt, set_files (<[p := f]> (files w)) w)
    else (Throw (ENOENT p), w).

Definition unlinkSync (p : string) : io unit :=
  fun w => match file_at w p with
           | Some _ => (Ok tt, set_files (delete p (files w)) w)
           | None => (Throw (if is_dir w p then EISDIR p else ENOENT p), w)
           end.

(** [fs.mkdirSync(p, { recursive: true })] *)
Definition mkdirSync_recursive (p : string) : io unit :=
  fun w =>
    match List.find (fun a => bool_decide (is_Some (files w !! a))) (Path.ancestors p) with
    | Some a => (Throw (EEXIST a), w)
    | None =>
        (Ok tt, World (files w) (dirs w ∪ list_to_set (Path.ancestors p))
                      (clock w) (timers w) (analyzed w) (temps w))
    end.

Definition Date_now : io Z := fun w => (Ok (clock w), w).

(** [setTimeout(job, delay)]: the pending timers are kept in firing order. *)
Fixpoint enqueue (t : timer) (ts : list timer) : list timer :=
  match ts with
  | [] => [t]
  | t' :: ts' => if t_due t' <=? t_due t then t' :: enqueue t ts' else t :: ts
  end.

Definition setTimeout (sessionId : string) (totalChunks : Z) (delay : Z) : io unit :=
  fun w =>
    (Ok tt, World (files w) (dirs w) (clock w)
                  (enqueue (Timer (clock w + delay) sessionId totalChunks) (timers w))
                  (analyzed w) (temps w)).

Definition log_analysis (sessionId : string) (chunkIndex : Z) : io unit :=
  fun w =>
    (Ok tt, World (files w) (dirs w) (clock w) (timers w)
                  (analyzed w ++ [(sessionId, chunkIndex)]) (temps w)).

(** *** The temporary files of [formidable]

    [formidable] stores an uploaded file under a random name of its own
    in the temporary directory and hands its path ([file.filepath]) to the
    handler. These files are kept apart from the files whose paths the
    program computes: a temporary file is known by its rank among the
    files written so far. *)

Definition filepath_of (k : nat) : string := "/tmp/" +:+ String_of (Z.of_nat k).

Definition set_temps (ts : list (option (list byte))) (w : world) : world :=
  World (files w) (dirs w) (clock w) (timers w) (analyzed w) ts.

(** [fs.readFileSync(file.filepath)] *)
Definition readFileSync_tmp (filepath : nat) : io (list byte) :=
  fun w => match temps w !! filepath with
           | Some (Some bytes) => (Ok bytes, w)
           | _ => (Throw (ENOENT (filepath_of filepath)), w)
           end.

(** [fs.unlinkSync(file.filepath)] *)
Definition unlinkSync_tmp (filepath : nat) : io unit :=
  fun w => match temps w !! filepath with
           | Some (Some _) => (Ok tt, set_temps (<[filepath := None]> (temps w)) w)
           | _ => (Throw (ENOENT (filepath_of filepath)), w)
           end.

(** ** [api/upload-chunked.js] *)

Definition CHUNK_SIZE : Z := 5 * 1024 * 1024.
Definition MAX_FILE_SIZE : Z := 100 * 1024 * 1024.
Definition UPLOAD_DIR : string := "/tmp/chunked-uploads".

(** The world after the module is loaded on an empty [/tmp]: the upload
    directory exists. *)
Definition initial_world : world :=
  World ∅ {[ "/"; "/tmp"; UPLOAD_DIR ]} 0 [] [] [].

(** [parseInt(s, 16)] on the digits that [digest('hex')] produces; it stops
    at the first character that is not a hex digit. *)
Definition hexval (c : ascii) : option Z :=
  let n := Z.of_nat (nat_of_ascii c) in
  if (48 <=? n) && (n <=? 57) then Some (n - 48)
  else if (97 <=? n) && (n <=? 102) then Some (n - 87)
  else if (65 <=? n) && (n <=? 70) then Some (n - 55)
  else None.

Fixpoint parseInt16_go (acc : Z) (s : string) : Z :=
  match s with
  | EmptyString => acc
  | String c s' =>
      match hexval c with
      | Some d => parseInt16_go (16 * acc + d) s'
      | None => acc
      end
  end.

Definition parseInt16 (s : string) : Z := parseInt16_go 0 s.

Definition bytes_of (s : string) : list byte := list_byte_of_string s.

Definition generateSessionId (filename : string) (fileSize totalChunks : Z) : io string :=
  let* now := Date_now in
  let data := filename +:+ "-" +:+ String_of fileSize +:+ "-"
                +:+ String_of totalChunks +:+ "-" +:+ String_of now in
  ret (md5_hex (bytes_of data)).

Definition chunk_path (sessionId : string) (i : Z) : string :=
  Path.join UPLOAD_DIR (sessionId +:+ "-chunk-" +:+ String_of i).

Definition result_path (sessionId : string) (i : Z) : string :=
  Path.join UPLOAD_DIR (sessionId +:+ "-result-" +:+ String_of i +:+ ".json").

Definition metadata_path (sessionId : string) : string :=
  Path.join UPLOAD_DIR (sessionId +:+ "-metadata.json").

Definition storeChunkMetadata (sessionId : string) (chunkIndex : Z)
    (chunkData : list byte) : io (gmap Z chunkMeta) :=
  let metadataPath := metadata_path sessionId in
  let* present := existsSync metadataPath in
  let* metadata := (if present then
                 let* f := readFileSync metadataPath in
                 match f with
                 | MetadataFile m => ret m
                 | _ => throw (SyntaxError metadataPath)
                 end
               else ret ∅) in
  let* now := Date_now in
  let metadata :=
    <[chunkIndex := ChunkMeta (Z.of_nat (List.length chunkData))
                              (md5_hex chunkData) now]> metadata in
  writeFileSync metadataPath (MetadataFile metadata) ;;
  ret metadata.

(** [processChunk]; [now] is what [Date.now()] returns and [rnd] what
    [Math.random()] returns. *)
Definition processChunk (chunkBuffer : list byte) (chunkIndex : Z)
    (sessionId : string) (now : Z) (rnd : Q) : chunkResult :=
  let hash := md5_hex chunkBuffer in
  let hashInt := parseInt16 (substring 0 8 hash) in
  let chunkSize := Z.of_nat (List.length chunkBuffer) in
  let estimatedFrames := chunkSize / (1024 * 50) in
  let confidence := (Q_of (Z.rem hashInt 1000) / 1000)%Q in
  let confidence := clamp (1 # 10) (9 # 10) confidence in
  let prediction := if Qgtb confidence (1 # 2) then fake else real in
  let modelsUsed :=
    ["BG-Model-N"]
      ++ (if chunkSize <? 2 * 1024 * 1024 then ["CM-Model-N"] else [])
      ++ (if Z.rem hashInt 3 =? 0 then ["TM-Model-N"] else []) in
  {| r_chunkIndex := chunkIndex;
     r_sessionId := sessionId;
     r_prediction := prediction;
     r_confidence := (Q_of (Math_round (confidence * 10000)) / 10000)%Q;
     r_modelsUsed := modelsUsed;
     r_chunkSize := chunkSize;
     r_estimatedFrames := estimatedFrames;
     r_processingTime := ((1 # 2) + rnd * 1)%Q;
     r_hash := substring 0 8 hash;
     r_timestamp := now |}.

(** [[...new Set(xs)]]: the first occurrence of each element, in order. *)
Definition uniq (xs : list string) : list string :=
  fold_left (fun acc x => if bool_decide (x ∈ acc) then acc else acc ++ [x]) xs [].

Definition Zsum (xs : list Z) : Z := fold_left Z.add xs 0.

(** The two accumulators of the [forEach] loop. The confidence of a chunk
    result is the decimal that its JSON file holds. *)
Definition accumulate (totalFileSize : Z) (acc : double * double)
    (chunk : chunkResult) : double * double :=
  let '(weightedConfidence, totalWeight) := acc in
  let weight := fdiv (Number (r_chunkSize chunk)) (Number totalFileSize) in
  (fadd weightedConfidence (fmul (lit (r_confidence chunk)) weight),
   fadd totalWeight weight).

Definition aggregateChunkResults (chunkResults : list chunkResult)
    (totalFileSize : Z) (filename : string) (now : Z) : aggregate :=
  let totalChunks := Z.of_nat (List.length chunkResults) in
  let fakeChunks :=
    Z.of_nat (List.length
      (List.filter (fun r => bool_decide (r_prediction r = fake)) chunkResults)) in
  let realChunks := totalChunks - fakeChunks in
  let '(weightedConfidence, totalWeight) :=
    fold_left (accumulate totalFileSize) chunkResults (zero, zero) in
  let finalConfidence := fdiv weightedConfidence totalWeight in
  let finalPrediction := if fgt finalConfidence (lit (1 # 2)) then fake else real in
  let allModelsUsed := uniq (flat_map r_modelsUsed chunkResults) in
  let totalProcessingTime :=
    fold_left (fun sum r => fadd sum (lit (r_processingTime r))) chunkResults zero in
  let chunkBreakdown :=
    map (fun chunk =>
           {| b_chunkIndex := r_chunkIndex chunk;
              b_prediction := r_prediction chunk;
              b_confidence := r_confidence chunk;
              b_size := toFixed2 (Q_of (r_chunkSize chunk) / Q_of (1024 * 1024)) +:+ "MB";
              b_models := r_modelsUsed chunk;
              b_frames := r_estimatedFrames chunk |})
        chunkResults in
  {| a_prediction := finalPrediction;
     a_confidence :=
       JSON_number (fdiv (Math_round_d (fmul finalConfidence (Number 10000)))
                         (Number 10000));
     a_models_used := allModelsUsed;
     a_processing_time :=
       JSON_number (fdiv (Math_round_d (fmul totalProcessingTime (Number 100)))
                         (Number 100));
     a_total_chunks := totalChunks;
     a_chunks_fake := fakeChunks;
     a_chunks_real := realChunks;
     a_chunk_breakdown := chunkBreakdown;
     a_file_size_mb := toFixed2 (Q_of totalFileSize / Q_of (1024 * 1024));
     a_raw_confidence := JSON_number finalConfidence;
     a_chunk_consensus := if fakeChunks >? realChunks then fake_majority else real_majority;
     a_consistency_score :=
       jdiv (Some (Q_of (Z.max fakeChunks realChunks))) (Some (Q_of totalChunks));
     a_frames_analyzed := Zsum (map r_estimatedFrames chunkResults);
     a_chunks_processed := totalChunks;
     a_filename := filename;
     a_file_size := totalFileSize;
     a_timestamp := now |}.

(** *** Requests and responses *)

(** A request: a numeric field holds what [parseInt] returns on it, [None]
    where the field is absent or empty; [q_chunk] holds the bytes of the
    uploaded file. *)
Record request := Request {
  q_method : string;
  q_chunkIndex : option Z;
  q_totalChunks : option Z;
  q_filename : option string;
  q_fileSize : option Z;
  q_sessionId : option string;
  q_chunk : option (list byte)
}.

Inductive response :=
| Ended                       (* 200, empty body: the answer to OPTIONS *)
| MethodNotAllowed            (* 405 *)
| NoChunkUploaded             (* 400 *)
| Partial (sessionId : string) (chunkIndex totalChunks : Z) (receivedChunks : nat)
          (prediction : verdict) (confidence processingTime : Q)
                              (* 200, completed: false *)
| Completed (sessionId : string) (chunkIndex totalChunks : Z) (result : aggregate)
                              (* 200, completed: true *)
| Failed (e : error).         (* 500 *)

(** [x || d] on an optional string field: the empty string is falsy. *)
Definition or_else (x : option string) (d : string) : string :=
  match x with
  | Some s => if bool_decide (s = "") then d else s
  | None => d
  end.

(** [formidable({ maxFileSize }).parse(req)] rejects an uploaded file that is
    empty or larger than [maxFileSize], and then leaves no temporary file;
    otherwise it has written the file to a new temporary file, whose path
    it returns. *)
Definition form_parse (maxFileSize : Z) (chunk : option (list byte)) : io (option nat) :=
  match chunk with
  | Some bytes =>
      let n := Z.of_nat (List.length bytes) in
      if n =? 0 then throw EmptyFile
      else if n >? maxFileSize then throw FileTooLarge
      else fun w => (Ok (Some (List.length (temps w))),
                     set_temps (temps w ++ [Some bytes]) w)
  | None => ret None
  end.

(** [chunkResults.sort((a, b) => a.chunkIndex - b.chunkIndex)]: a stable
    sort, ascending in the chunk index. *)
Fixpoint insert_sorted (x : chunkResult) (l : list chunkResult) : list chunkResult :=
  match l with
  | [] => [x]
  | y :: l' =>
      if r_chunkIndex x <=? r_chunkIndex y then x :: l
      else y :: insert_sorted x l'
  end.

Definition sort_by_index (l : list chunkResult) : list chunkResult :=
  foldr insert_sorted [] l.

(** The loop that loads [<session>-result-<i>.json] for [i < totalChunks]. *)
Fixpoint load_results (sessionId : string) (indices : list Z) : io (list chunkResult) :=
  match indices with
  | [] => ret []
  | i :: rest =>
      let resultPath := result_path sessionId i in
      let* present := existsSync resultPath in
      if present then
        let* f := readFileSync resultPath in
        match f with
        | ResultFile result =>
            let* results := load_results sessionId rest in
            ret (result :: results)
        | _ => throw (SyntaxError resultPath)
        end
      else load_results sessionId rest
  end.

Definition unlink_if_exists (p : string) : io unit :=
  let* present := existsSync p in
  if present then unlinkSync p else ret tt.

(** The body of the [setTimeout] callback. *)
Definition cleanup (sessionId : string) (totalChunks : Z) : io unit :=
  try_ (for_each (seqZ 0 totalChunks)
          (fun i => unlink_if_exists (chunk_path sessionId i) ;;
                    unlink_if_exists (result_path sessionId i)) ;;
        unlink_if_exists (metadata_path sessionId)).

(** What a request holds across [await processChunk(...)]. *)
Record pending := Pending {
  p_sessionId : string;
  p_chunkIndex : Z;
  p_totalChunks : Z;
  p_filename : string;
  p_fileSize : Z;
  p_metadata : gmap Z chunkMeta;
  p_chunkResult : chunkResult;
  p_filepath : nat
}.

(** The handler up to [await processChunk(...)]: parse, store the chunk
    and its metadata, call the analysis. *)
Definition handler_receive (rnd : Q) (req : request) : io (response + pending) :=
  let* chunkFile := form_parse MAX_FILE_SIZE (q_chunk req) in
  let chunkIndex := default 0 (q_chunkIndex req) in
  let totalChunks := default 1 (q_totalChunks req) in
  let filename := or_else (q_filename req) "video.mp4" in
  let fileSize := default 0 (q_fileSize req) in
  let* sessionId := (match q_sessionId req with
                | Some s => if bool_decide (s = "")
                            then generateSessionId filename fileSize totalChunks
                            else ret s
                | None => generateSessionId filename fileSize totalChunks
                end) in
  match chunkFile with
  | None => ret (inl NoChunkUploaded)
  | Some filepath =>
      let* chunkBuffer := readFileSync_tmp filepath in
      writeFileSync (chunk_path sessionId chunkIndex) (ChunkFile chunkBuffer) ;;
      let* metadata := storeChunkMetadata sessionId chunkIndex chunkBuffer in
      let* now := Date_now in
      log_analysis sessionId chunkIndex ;;
      let chunkResult := processChunk chunkBuffer chunkIndex sessionId now rnd in
      ret (inr (Pending sessionId chunkIndex totalChunks filename fileSize
                        metadata chunkResult filepath))
  end.

(** The handler after the [await]: store the result, remove the temporary
    file, detect completion, aggregate. *)
Definition handler_finish (p : pending) : io response :=
  let sessionId := p_sessionId p in
  let chunkIndex := p_chunkIndex p in
  let totalChunks := p_totalChunks p in
  let chunkResult := p_chunkResult p in
  writeFileSync (result_path sessionId chunkIndex) (ResultFile chunkResult) ;;
  unlinkSync_tmp (p_filepath p) ;;
  let isLastChunk := chunkIndex =? totalChunks - 1 in
  let receivedChunks := size (p_metadata p) in
  let allChunksReceived := Z.of_nat receivedChunks =? totalChunks in
  if isLastChunk && allChunksReceived then
    let* chunkResults := load_results sessionId (seqZ 0 totalChunks) in
    let chunkResults := sort_by_index chunkResults in
    let* now := Date_now in
    let finalResult :=
      aggregateChunkResults chunkResults (p_fileSize p) (p_filename p) now in
    setTimeout sessionId totalChunks (5 * 60 * 1000) ;;
    ret (Completed sessionId chunkIndex totalChunks finalResult)
  else
    ret (Partial sessionId chunkIndex totalChunks receivedChunks
                 (r_prediction chunkResult) (r_confidence chunkResult)
                 (r_processingTime chunkResult)).

(** [try { ... } catch (error) { res.status(500) }] *)
Definition catch (c : io response) : world -> response * world :=
  fun w => match c w with
           | (Ok r, w') => (r, w')
           | (Throw e, w') => (Failed e, w')
           end.

Definition handler (rnd : Q) (req : request) (w : world) : response * world :=
  if bool_decide (q_method req = "OPTIONS") then (Ended, w)
  else if negb (bool_decide (q_method req = "POST")) then (MethodNotAllowed, w)
  else
    catch (let* first := handler_receive rnd req in
           match first with
           | inl r => ret r
           | inr p => handler_finish p
           end) w.

(** *** Time *)

(** Let [dt] milliseconds pass: the timers that come due fire, in order. *)
Definition advance (dt : Z) (w : world) : world :=
  let now := clock w + Z.max 0 dt in
  let due := List.filter (fun t => t_due t <=? now) (timers w) in
  let later := List.filter (fun t => negb (t_due t <=? now)) (timers w) in
  fold_left (fun w t => snd (cleanup (t_sessionId t) (t_totalChunks t) w))
            due
            (World (files w) (dirs w) now later (analyzed w) (temps w)).

(** *** Interleaving of requests

    Requests are served by one event loop: a request runs until its
    [await], other requests may run, and it resumes later. *)

Inductive event :=
| Start (id : nat) (rnd : Q) (req : request)   (* a request arrives and runs to its await *)
| Resume (id : nat)                            (* the request resumes after its await *)
| Elapse (dt : Z).                             (* time passes, timers fire *)

Record server := Server {
  s_world : world;
  s_inflight : gmap nat pending;
  s_responses : gmap nat response
}.

Definition start (rnd : Q) (req : request) (w : world) : (response + pending) * world :=
  if bool_decide (q_method req = "OPTIONS") then (inl Ended, w)
  else if negb (bool_decide (q_method req = "POST")) then (inl MethodNotAllowed, w)
  else match handler_receive rnd req w with
       | (Ok x, w') => (x, w')
       | (Throw e, w') => (inl (Failed e), w')
       end.

Definition resume (p : pending) (w : world) : response * world :=
  catch (handler_finish p) w.

Definition step (s : server) (e : event) : server :=
  match e with
  | Start id rnd req =>
      match start rnd req (s_world s) with
      | (inl r, w') => Server w' (s_inflight s) (<[id := r]> (s_responses s))
      | (inr p, w') => Server w' (<[id := p]> (s_inflight s)) (s_responses s)
      end
  | Resume id =>
      match s_inflight s !! id with
      | Some p =>
          let '(r, w') := resume p (s_world s) in
          Server w' (delete id (s_inflight s)) (<[id := r]> (s_responses s))
      | None => s
      end
  | Elapse dt => Server (advance dt (s_world s)) (s_inflight s) (s_responses s)
  end.

Definition run (events : list event) (w : world) : server :=
  fold_left step events (Server w ∅ ∅).

Definition is_completed (r : response) : bool :=
  match r with
  | Completed _ _ _ _ => true
  | _ => false
  end.

Definition is_partial (r : response) : bool :=
  match r with
  | Partial _ _ _ _ _ _ _ => true
  | _ => false
  end.

(** Serving a list of requests one after the other. *)
Fixpoint serve (reqs : list (Q * request)) (w : world) : list response * world :=
  match reqs with
  | [] => ([], w)
  | (rnd, req) :: rest =>
      let '(r, w') := handler rnd req w in
      let '(rs, w'') := serve rest w' in
      (r :: rs, w'')
  end.

(** ** [api/upload-chunk.js] *)

Module UploadChunk.

Definition TEMP_DIR : string := "/tmp/uploads".
Definition MAX_CHUNK : Z := 5 * 1024 * 1024.

Definition initial_world : world :=
  World ∅ {[ "/"; "/tmp"; TEMP_DIR ]} 0 [] [] [].

Record request := Request {
  q_method : string;
  q_chunkIndex : option Z;
  q_totalChunks : option Z;
  q_uploadId : option string;
  q_fileName : option string;
  q_fileSize : option Z;
  q_chunk : option (list byte)
}.

Inductive response :=
| Ended
| MethodNotAllowed
| MissingFields                                   (* 400 *)
| Uploaded (chunkIndex : Z) (uploadId : string)   (* 200 *)
| Failed (e : error).                             (* 500 *)

Definition truthy (x : option string) : option string :=
  match x with
  | Some s => if bool_decide (s = "") then None else Some s
  | None => None
  end.

Definition handler_body (req : request) : io response :=
  let* chunk := form_parse MAX_CHUNK (q_chunk req) in
  let chunkIndex := default 0 (q_chunkIndex req) in
  let totalChunks := default 0 (q_totalChunks req) in
  let fileSize := default 0 (q_fileSize req) in
  match chunk, truthy (q_uploadId req) with
  | Some filepath, Some uploadId =>
      let uploadDir := Path.join TEMP_DIR uploadId in
      let* present := existsSync uploadDir in
      (if present then ret tt else mkdirSync_recursive uploadDir) ;;
      let chunkPath :=
        Path.join uploadDir ("chunk_" +:+ padStart4 (String_of chunkIndex)) in
      let* chunkBuffer := readFileSync_tmp filepath in
      writeFileSync chunkPath (ChunkFile chunkBuffer) ;;
      unlinkSync_tmp filepath ;;
      let metadataPath := Path.join uploadDir "metadata.json" in
      let* now := Date_now in
      writeFileSync metadataPath
        (UploadMetaFile (UploadMeta (q_fileName req) fileSize totalChunks
                                    (chunkIndex + 1) now)) ;;
      ret (Uploaded chunkIndex uploadId)
  | _, _ => ret MissingFields
  end.

Definition handler (req : request) (w : world) : response * world :=
  if bool_decide (q_method req = "OPTIONS") then (Ended, w)
  else if negb (bool_decide (q_method req = "POST")) then (MethodNotAllowed, w)
  else match handler_body req w with
       | (Ok r, w') => (r, w')
       | (Throw e, w') => (Failed e, w')
       end.

End UploadChunk.

(** ** Vocabulary of the specification *)

(** A file name: one segment that is neither empty nor [.] nor [..]. *)
Definition plain_name (n : string) : Prop :=
  Path.no_slash n = true /\ n <> "" /\ n <> "." /\ n <> "..".

Definition in_upload_dir (n : string) : string := UPLOAD_DIR +:+ "/" +:+ n.

Definition chunk_name (sid : string) (i : Z) : string :=
  sid +:+ "-chunk-" +:+ String_of i.
Definition result_name (sid : string) (i : Z) : string :=
  sid +:+ "-result-" +:+ String_of i +:+ ".json".
Definition metadata_name (sid : string) : string :=
  sid +:+ "-metadata.json".

(** A session id that names files of the upload directory itself: it
    holds no path separator. The ids that [generateSessionId] makes are
    of this kind. *)
Definition safe_id (sid : string) : Prop := Path.no_slash sid = true.

(** The upload directory exists and holds no sub-directory. *)
Definition ready (w : world) : Prop :=
  UPLOAD_DIR ∈ dirs w /\ forall p, p ∈ dirs w -> Path.parent p <> UPLOAD_DIR.

(** The characters of a printed integer, and reversed strings, used to
    tell the file names of a session apart. *)
Definition numeric (c : ascii) : bool :=
  let n := nat_of_ascii c in
  ((48 <=? n)%nat && (n <=? 57)%nat) || (n =? 45)%nat.

Definition rla (s : string) : list ascii := rev (list_ascii_of_string s).

Fixpoint strip (l : list ascii) : list ascii :=
  match l with
  | c :: l' => if numeric c then strip l' else l
  | [] => []
  end.

(** The chunks a session has received: the keys of its metadata file. *)
Definition received (w : world) (sid : string) : gset Z :=
  match files w !! metadata_path sid with
  | Some (MetadataFile m) => dom m
  | _ => ∅
  end.

Definition receivedChunks (w : world) (sid : string) : nat := size (received w sid).

(** The stored result of chunk [i] of a session. *)
Definition stored_result (w : world) (sid : string) (i : Z) : option chunkResult :=
  match files w !! result_path sid i with
  | Some (ResultFile r) => Some r
  | _ => None
  end.

Definition stored_results (w : world) (sid : string) (indices : list Z) : list chunkResult :=
  omap (stored_result w sid) indices.

(** A session without any file. *)
Definition fresh (w : world) (sid : string) : Prop :=
  files w !! metadata_path sid = None
  /\ forall i, files w !! result_path sid i = None.

(** The upload of chunk [i] of [n] with all fields present. *)
Definition upload (sid : string) (i n : Z) (filename : string) (fileSize : Z)
    (bytes : list byte) : request :=
  Request "POST" (Some i) (Some n) (Some filename) (Some fileSize) (Some sid) (Some bytes).

Definition acceptable (bytes : list byte) : Prop :=
  0 < Z.of_nat (List.length bytes) <= MAX_FILE_SIZE.

Definition aggregate_of (r : response) : option aggregate :=
  match r with
  | Completed _ _ _ a => Some a
  | _ => None
  end.

Definition breakdown_indices (a : aggregate) : list Z :=
  map b_chunkIndex (a_chunk_breakdown a).

(** A path of a plain file of a directory that exists. *)
Definition flat (w : world) (p : string) : Prop :=
  is_dir w p = false /\ Path.trailing p = false /\ Path.parent p ∈ dirs w.

(** The metadata of a session, empty where it has no metadata file. *)
Definition metadata_of (w : world) (sid : string) : gmap Z chunkMeta :=
  match files w !! metadata_path sid with
  | Some (MetadataFile m) => m
  | _ => ∅
  end.

(** The metadata file of a session, where there is one, parses. *)
Definition metadata_parses (w : world) (sid : string) : Prop :=
  forall f, files w !! metadata_path sid = Some f -> exists m, f = MetadataFile m.

(** The result files of a session, where there are some, parse. *)
Definition results_parse (w : world) (sid : string) : Prop :=
  forall i f, files w !! result_path sid i = Some f -> exists r, f = ResultFile r.

(** The world after the first segment of an upload. *)
Definition after_receive (w : world) (sid : string) (idx : Z) (bytes : list byte) : world :=
  World (<[metadata_path sid :=
             MetadataFile (<[idx := ChunkMeta (Z.of_nat (List.length bytes))
                                              (md5_hex bytes) (clock w)]>
                             (metadata_of w sid))]>
           (<[chunk_path sid idx := ChunkFile bytes]> (files w)))
        (dirs w) (clock w) (timers w) (analyzed w ++ [(sid, idx)])
        (temps w ++ [Some bytes]).

(** The world after the result of a chunk is stored. *)
Definition after_result (w : world) (sid : string) (idx : Z) (result : chunkResult) : world :=
  set_files (<[result_path sid idx := ResultFile result]> (files w)) w.

(** The world once the temporary file [k] is removed. *)
Definition released (k : nat) (w : world) : world :=
  set_temps (<[k := None]> (temps w)) w.

(** The temporary file [k] is there. *)
Definition temp_present (w : world) (k : nat) : Prop :=
  exists bytes, temps w !! k = Some (Some bytes).

(** The completion test of the handler. *)
Definition completes (idx total : Z) (m : gmap Z chunkMeta) : bool :=
  (idx =? total - 1) && (Z.of_nat (size m) =? total).

(** The metadata of a session after chunk [idx] is stored. *)
Definition metadata_after (w : world) (sid : string) (idx : Z) (bytes : list byte)
    : gmap Z chunkMeta :=
  <[idx := ChunkMeta (Z.of_nat (List.length bytes)) (md5_hex bytes) (clock w)]>
    (metadata_of w sid).

(** The world after a whole upload that does not complete the session. *)
Definition after_upload (rnd : Q) (w : world) (sid : string) (idx : Z)
    (bytes : list byte) : world :=
  released (List.length (temps w))
    (after_result (after_receive w sid idx bytes) sid idx
                  (processChunk bytes idx sid (clock w) rnd)).

(** The world after an upload that completes the session: the clean-up
    is scheduled. *)
Definition after_completion (rnd : Q) (w : world) (sid : string) (idx total : Z)
    (bytes : list byte) : world :=
  let w' := after_upload rnd w sid idx bytes in
  World (files w') (dirs w') (clock w')
        (enqueue (Timer (clock w + 5 * 60 * 1000) sid total) (timers w'))
        (analyzed w') (temps w').

(** The files of a session once the chunks [done] have been uploaded. *)
Definition session_at (w : world) (sid : string) (done : gset Z) : Prop :=
  ready w /\ metadata_parses w sid /\ dom (metadata_of w sid) = done
  /\ forall i,
       match files w !! result_path sid i with
       | Some f => i ∈ done /\ exists r, f = ResultFile r /\ r_chunkIndex r = i
       | None => i ∉ done
       end.

Definition aggregates (rs : list response) : list aggregate := omap aggregate_of rs.

(** The uploads of the chunks of one session, in the given order. *)
Definition uploads (sid : string) (n : Z) (fname : string) (fsize : Z)
    (payload : Z -> list byte) (rnd : Z -> Q) (order : list Z) : list (Q * request) :=
  map (fun i => (rnd i, upload sid i n fname fsize (payload i))) order.

(** What the responses to the uploads of a session say about its aggregate:
    where chunk [n - 1] comes last there is one aggregate, in the last
    response, with the chunks [0 .. n - 1] in order; otherwise none. *)
Definition one_aggregate_iff_last (n : Z) (order : list Z) (rs : list response) : Prop :=
  if decide (last order = Some (n - 1)) then
    exists a, aggregates rs = [a]
              /\ last rs ≫= aggregate_of = Some a
              /\ breakdown_indices a = seqZ 0 n
  else aggregates rs = [].

(** The merges of two sequences of events that keep the order of each. *)
Inductive interleave {A : Type} : list A -> list A -> list A -> Prop :=
| interleave_nil : interleave [] [] []
| interleave_left x l1 l2 l :
    interleave l1 l2 l -> interleave (x :: l1) l2 (x :: l)
| interleave_right x l1 l2 l :
    interleave l1 l2 l -> interleave l1 (x :: l2) (x :: l).

(** The files of a session parse. *)
Definition session_ok (w : world) (sid : string) : Prop :=
  ready w /\ metadata_parses w sid /\ results_parse w sid.

(** The world after the second segment of a completing upload. *)
Definition after_aggregate (w : world) (sid : string) (idx total : Z)
    (result : chunkResult) (k : nat) : world :=
  World (files (after_result w sid idx result)) (dirs w) (clock w)
        (enqueue (Timer (clock w + 5 * 60 * 1000) sid total) (timers w))
        (analyzed w) (<[k := None]> (temps w)).

(** The two events of one request. *)
Definition request_events (id : nat) (rnd : Q) (req : request) : list event :=
  [Start id rnd req; Resume id].

(** Uploading the same request again, once for each value of
    [Math.random()]. *)
Definition reuploads (req : request) (rnds : list Q) : list (Q * request) :=
  map (fun rnd => (rnd, req)) rnds.

(** What the analysis computes from the bytes of a chunk. *)
Definition verdict_of (r : chunkResult)
    : verdict * Q * list string * Z * Z * string :=
  (r_prediction r, r_confidence r, r_modelsUsed r, r_chunkSize r,
   r_estimatedFrames r, r_hash r).

(** *** The aggregate confidence, in the words of the design

    [weight(chunk) = chunk.sizeBytes / totalSize] and
    [finalConfidence = Σ (chunk.confidence × weight(chunk))], normalised by
    [Σ weight]; the sums run over the chunks in order, in the arithmetic
    of the program. *)

Definition fsum (xs : list double) : double := fold_left fadd xs zero.

Definition spec_weight (totalSize : Z) (chunk : chunkResult) : double :=
  fdiv (Number (r_chunkSize chunk)) (Number totalSize).

Definition spec_finalConfidence (l : list chunkResult) (totalSize : Z) : double :=
  fdiv (fsum (map (fun chunk => fmul (lit (r_confidence chunk))
                                     (spec_weight totalSize chunk)) l))
       (fsum (map (spec_weight totalSize) l)).

(** The confidence that the aggregate reports: [Math.round(c * 10000) / 10000]. *)
Definition round4 (c : double) : double :=
  fdiv (Math_round_d (fmul c (Number 10000))) (Number 10000).

(** Neither zero nor finite: an infinity or [NaN]. *)
Definition not_finite (x : double) : bool :=
  match x with
  | S754_infinity _ | S754_nan => true
  | _ => false
  end.

Definition MiB : Z := 1024 * 1024.

(** A chunk result of a given size and confidence, as [processChunk]
    would shape it. *)
Definition example_chunk (i size : Z) (conf : Q) : chunkResult :=
  {| r_chunkIndex := i;
     r_sessionId := "session";
     r_prediction := if Qgtb conf (1 # 2) then fake else real;
     r_confidence := conf;
     r_modelsUsed := ["BG-Model-N"];
     r_chunkSize := size;
     r_estimatedFrames := size / (1024 * 50);
     r_processingTime := 1;
     r_hash := "00000000";
     r_timestamp := 0 |}.

(** A buffer of [2^n] times the length of [l], to speak of large payloads. *)
Fixpoint doubled (n : nat) (l : list byte) : list byte :=
  match n with
  | O => l
  | S n' => doubled n' (l ++ l)
  end.

(** The files left by the clean-up of a session that declared [n] chunks. *)
Definition purge_chunks (sid : string) (indices : list Z) (fs : gmap string file)
    : gmap string file :=
  fold_left (fun fs i => delete (result_path sid i) (delete (chunk_path sid i) fs))
            indices fs.

Definition purged (sid : string) (n : Z) (fs : gmap string file) : gmap string file :=
  delete (metadata_path sid) (purge_chunks sid (seqZ 0 n) fs).

Definition purged_by (ts : list timer) (fs : gmap string file) : gmap string file :=
  fold_left (fun fs t => purged (t_sessionId t) (t_totalChunks t) fs) ts fs.




Definition FIVE_MINUTES : Z := 5 * 60 * 1000.

(** The string that [generateSessionId] hashes, and the id it makes at
    time [now]. *)
Definition session_data (filename : string) (fileSize totalChunks now : Z) : string :=
  filename +:+ "-" +:+ String_of fileSize +:+ "-"
    +:+ String_of totalChunks +:+ "-" +:+ String_of now.

Definition generated_id (filename : string) (fileSize totalChunks now : Z) : string :=
  md5_hex (bytes_of (session_data filename fileSize totalChunks now)).

(** The session id that a response reports. *)
Definition session_of (r : response) : option string :=
  match r with
  | Partial sid _ _ _ _ _ _ => Some sid
  | Completed sid _ _ _ => Some sid
  | _ => None
  end.

(** An upload that omits the session id. *)
Definition anonymous_upload (i n : Z) (filename : string) (fileSize : Z)
    (bytes : list byte) : request :=
  Request "POST" (Some i) (Some n) (Some filename) (Some fileSize) None (Some bytes).

(** A confidence between 0.1 and 0.9. *)
Definition in_range (c : Q) : Prop := (1 # 10 <= c)%Q /\ (c <= 9 # 10)%Q.

(** A chunk result with a confidence in range and a size that is not
    negative, as [processChunk] makes them. *)
Definition analysed (chunk : chunkResult) : Prop :=
  in_range (r_confidence chunk) /\ 0 <= r_chunkSize chunk.

(** An upload that omits the file size. *)
Definition upload_without_size (sid : string) (i n : Z) (filename : string)
    (bytes : list byte) : request :=
  Request "POST" (Some i) (Some n) (Some filename) None (Some sid) (Some bytes).

(** The session a request is served under: the id it carries, or the id
    generated at the time of the call. *)
Definition effective_session (req : request) (w : world) : string :=
  let generated :=
    generated_id (or_else (q_filename req) "video.mp4") (default 0 (q_fileSize req))
                 (default 1 (q_totalChunks req)) (clock w) in
  match q_sessionId req with
  | Some s => if bool_decide (s = "") then generated else s
  | None => generated
  end.

(** From [w] to [w'] nothing is lost: directories and clock are the same,
    no file and no timer disappears, only paths in [P] change, and the
    temporary files of rank below [n] are as they were. *)
Definition touches (P : string -> Prop) (n : nat) (w w' : world) : Prop :=
  dirs w' = dirs w /\ clock w' = clock w
  /\ (forall p, is_Some (files w !! p) -> is_Some (files w' !! p))
  /\ (forall p, ~ P p -> files w' !! p = files w !! p)
  /\ (forall t, t ∈ timers w -> t ∈ timers w')
  /\ (List.length (temps w) <= List.length (temps w'))%nat
  /\ (forall k, (k < n)%nat -> temps w' !! k = temps w !! k).

(** An action that, run while at least [n] temporary files have been
    written, touches only paths in [P] and temporary files of rank [n] or
    more, and returns a value in [Q]. *)
Definition io_spec {A : Type} (P : string -> Prop) (n : nat) (Q : A -> Prop)
    (c : io A) : Prop :=
  forall w, (n <= List.length (temps w))%nat ->
            touches P n w (c w).2
            /\ match (c w).1 with
               | Ok a => Q a
               | Throw _ => True
               end.

(** The three paths an upload of chunk [idx] to session [sid] may write. *)
Definition upload_paths (sid : string) (idx : Z) (p : string) : Prop :=
  p = chunk_path sid idx \/ p = metadata_path sid \/ p = result_path sid idx.

(** The paths of [api/upload-chunk.js]: the directory of an upload, the
    zero-padded name of a chunk, and the two files the handler writes. *)
Definition upload_dir_of (uploadId : string) : string :=
  UploadChunk.TEMP_DIR +:+ "/" +:+ uploadId.

Definition padded_chunk_name (chunkIndex : Z) : string :=
  "chunk_" +:+ padStart4 (String_of chunkIndex).





(** From [w] to [w'] the file system only grows: no directory, file or
    timer disappears, the clock is the same, only paths in [P] change, and
    the temporary files of rank below [n] are as they were. *)
Definition grows (P : string -> Prop) (n : nat) (w w' : world) : Prop :=
  dirs w ⊆ dirs w' /\ clock w' = clock w /\ timers w' = timers w
  /\ (forall p, is_Some (files w !! p) -> is_Some (files w' !! p))
  /\ (forall p, ~ P p -> files w' !! p = files w !! p)
  /\ (List.length (temps w) <= List.length (temps w'))%nat
  /\ (forall k, (k < n)%nat -> temps w' !! k = temps w !! k).

Definition io_grows {A : Type} (P : string -> Prop) (n : nat) (c : io A) : Prop :=
  forall w, (n <= List.length (temps w))%nat -> grows P n w (c w).2.

(** The two paths [api/upload-chunk.js] writes for a request. *)
Definition upload_chunk_paths (req : UploadChunk.request) (p : string) : Prop :=
  let uploadDir := Path.join UploadChunk.TEMP_DIR (default "" (UploadChunk.q_uploadId req)) in
  p = Path.join uploadDir
        ("chunk_" +:+ padStart4 (String_of (default 0 (UploadChunk.q_chunkIndex req))))
  \/ p = Path.join uploadDir "metadata.json".

(** * Properties *)

(** ** Strings *)

Section Strings.

Local Abbreviation la := list_ascii_of_string.

Lemma append_cons (c : ascii) (s t : string) :
  String c s +:+ t = String c (s +:+ t).
Proof. reflexivity. Qed.

Lemma append_nil_l (t : string) : "" +:+ t = t.
Proof. reflexivity. Qed.

Lemma append_nil_r (s : string) : s +:+ "" = s.
Proof. induction s as [|c s IH]; [reflexivity | now rewrite append_cons, IH]. Qed.

Lemma la_app (s t : string) : la (s +:+ t) = la s ++ la t.
Proof.
  induction s as [|c s IH]; [reflexivity |].
  rewrite append_cons. simpl. now rewrite IH.
Qed.

Lemma la_inj (s t : string) : la s = la t -> s = t.
Proof.
  intros H. rewrite <- (string_of_list_ascii_of_string s),
    <- (string_of_list_ascii_of_string t). now rewrite H.
Qed.

Lemma append_assoc (s t u : string) : (s +:+ t) +:+ u = s +:+ (t +:+ u).
Proof.
  induction s as [|c s IH]; [reflexivity | now rewrite !append_cons, IH].
Qed.

Lemma append_length (s t : string) :
  String.length (s +:+ t) = (String.length s + String.length t)%nat.
Proof.
  induction s as [|c s IH]; [reflexivity |].
  rewrite append_cons. simpl. now rewrite IH.
Qed.

Lemma append_inv_tail (s t u : string) : s +:+ u = t +:+ u -> s = t.
Proof.
  intros H. apply la_inj. apply (f_equal la) in H. rewrite !la_app in H.
  now apply app_inv_tail in H.
Qed.

Lemma no_slash_app (s t : string) :
  Path.no_slash (s +:+ t) = Path.no_slash s && Path.no_slash t.
Proof.
  induction s as [|c s IH]; [reflexivity |].
  rewrite append_cons. simpl. rewrite IH. now rewrite andb_assoc.
Qed.

Lemma pretty_N_char_numeric (x : N) : numeric (pretty_N_char x) = true.
Proof.
  unfold pretty_N_char. by repeat (reflexivity || case_match).
Qed.

Lemma pretty_N_go_shape (x : N) : forall s,
  exists p, pretty_N_go x s = p +:+ s
            /\ forallb numeric (la p) = true
            /\ ((0 < x)%N -> p <> "").
Proof.
  induction x as [x IH] using (well_founded_induction N.lt_wf_0). intros s.
  destruct (decide (x = 0%N)) as [->|Hx].
  - exists "". rewrite pretty_N_go_0. repeat split. intros H; lia.
  - assert (0 < x)%N as Hpos by lia.
    rewrite (pretty_N_go_step x s Hpos).
    destruct (IH (x `div` 10)%N) with (s := String (pretty_N_char (x `mod` 10)) s)
      as (p & Hp & Hnum & _).
    { apply N.div_lt; lia. }
    exists (p +:+ String (pretty_N_char (x `mod` 10)) "").
    rewrite Hp, append_assoc, append_cons, append_nil_l. split; [reflexivity|]. split.
    + rewrite la_app, forallb_app, Hnum. simpl.
      now rewrite pretty_N_char_numeric.
    + intros _ Hnil. apply (f_equal String.length) in Hnil.
      rewrite append_length in Hnil. simpl in Hnil. lia.
Qed.

Lemma pretty_N_shape (x : N) :
  forallb numeric (la (pretty x)) = true /\ pretty x <> "".
Proof.
  unfold pretty, pretty_N. destruct (decide (x = 0%N)) as [->|Hx].
  - split; [reflexivity | discriminate].
  - destruct (pretty_N_go_shape x "") as (p & Hp & Hnum & Hne).
    rewrite Hp, append_nil_r. split; [exact Hnum | apply Hne; lia].
Qed.

Lemma String_of_shape (z : Z) :
  forallb numeric (la (String_of z)) = true /\ String_of z <> "".
Proof.
  unfold String_of, pretty, pretty_Z. destruct z as [|p|p].
  - split; [reflexivity | discriminate].
  - apply (pretty_N_shape (Npos p)).
  - destruct (pretty_N_shape (Npos p)) as [Hnum _]. split; [|discriminate].
    simpl. exact Hnum.
Qed.

Lemma numeric_no_slash (s : string) :
  forallb numeric (la s) = true -> Path.no_slash s = true.
Proof.
  induction s as [|c s IH]; simpl; [reflexivity|].
  intros H. apply andb_prop in H as [Hc Hs]. rewrite (IH Hs), andb_true_r.
  destruct (Ascii.eqb_spec c Path.slash) as [->|]; [discriminate Hc | reflexivity].
Qed.

Lemma String_of_inj (i j : Z) : String_of i = String_of j -> i = j.
Proof. apply pretty_Z_inj. Qed.

End Strings.

(** ** Paths *)

Section Paths.

Lemma segments_nonempty (s : string) : Path.segments s <> [].
Proof.
  induction s as [|c s IH]; simpl; [discriminate|].
  destruct (Ascii.eqb c Path.slash); [discriminate|].
  destruct (Path.segments s); [contradiction | discriminate].
Qed.

Lemma segments_app (a b : string) :
  Path.segments (a +:+ "/" +:+ b) = Path.segments a ++ Path.segments b.
Proof.
  induction a as [|c a IH]; [reflexivity|].
  rewrite append_cons. simpl. rewrite IH.
  destruct (Ascii.eqb c Path.slash); [reflexivity|].
  pose proof (segments_nonempty a) as Hne.
  destruct (Path.segments a); [contradiction | reflexivity].
Qed.

Lemma segments_no_slash (s : string) :
  Path.no_slash s = true -> Path.segments s = [s].
Proof.
  induction s as [|c s IH]; simpl; [reflexivity|].
  intros H. apply andb_prop in H as [Hc Hs].
  destruct (Ascii.eqb c Path.slash); [discriminate Hc|].
  now rewrite (IH Hs).
Qed.

Lemma plain_name_segments (dir n : string) :
  plain_name n ->
  Path.resolve [] (Path.segments (dir +:+ "/" +:+ n))
  = Path.resolve [] (Path.segments dir) ++ [n]
  /\ Path.trailing (dir +:+ "/" +:+ n) = false.
Proof.
  intros (Hs & Hne & Hdot & Hdots). rewrite segments_app, (segments_no_slash n Hs).
  assert (forall st, Path.resolve st (Path.segments dir ++ [n])
                     = Path.resolve st (Path.segments dir) ++ [n]) as Hres.
  { generalize (Path.segments dir). intros l. induction l as [|x l IH]; intros st.
    - simpl. rewrite !bool_decide_false.
      + reflexivity.
      + exact Hdots.
      + intros [E | E]; [now apply Hne | now apply Hdot].
    - simpl. repeat case_bool_decide; apply IH. }
  split; [apply Hres|].
  unfold Path.trailing. rewrite segments_app, (segments_no_slash n Hs), rev_app_distr.
  simpl. destruct n; [now contradiction Hne | reflexivity].
Qed.

Lemma plain_name_long (n : string) :
  Path.no_slash n = true -> (2 < String.length n)%nat -> plain_name n.
Proof.
  intros Hs Hlen. split; [exact Hs|].
  repeat split; intros ->; simpl in Hlen; lia.
Qed.

Lemma join_plain (n : string) :
  plain_name n -> Path.join UPLOAD_DIR n = in_upload_dir n.
Proof.
  intros Hn. unfold Path.join, Path.normalize, in_upload_dir.
  destruct (plain_name_segments UPLOAD_DIR n Hn) as [-> ->].
  reflexivity.
Qed.

Lemma in_upload_dir_facts (n : string) :
  plain_name n ->
  Path.trailing (in_upload_dir n) = false
  /\ Path.parent (in_upload_dir n) = UPLOAD_DIR
  /\ Path.canon (in_upload_dir n) = in_upload_dir n.
Proof.
  intros Hn. unfold Path.parent, Path.canon, in_upload_dir.
  destruct (plain_name_segments UPLOAD_DIR n Hn) as [-> ->].
  repeat split; reflexivity.
Qed.

Lemma in_upload_dir_inj (n n' : string) :
  in_upload_dir n = in_upload_dir n' -> n = n'.
Proof. unfold in_upload_dir. intros H. now simplify_eq. Qed.

End Paths.

(** ** File names of a session *)

Section Names.

Local Abbreviation la := list_ascii_of_string.

Lemma rla_app (s t : string) : rla (s +:+ t) = rla t ++ rla s.
Proof. unfold rla. now rewrite la_app, rev_app_distr. Qed.

Lemma rla_inj (s t : string) : rla s = rla t -> s = t.
Proof.
  unfold rla. intros H. apply la_inj.
  rewrite <- (rev_involutive (la s)), <- (rev_involutive (la t)). now rewrite H.
Qed.

Lemma strip_app (l rest : list ascii) :
  forallb numeric l = true -> strip (l ++ rest) = strip rest.
Proof.
  induction l as [|c l IH]; simpl; [reflexivity|].
  intros H. apply andb_prop in H as [-> Hl]. now apply IH.
Qed.

Lemma rla_String_of (i : Z) :
  forallb numeric (rla (String_of i)) = true
  /\ exists c l, rla (String_of i) = c :: l /\ numeric c = true.
Proof.
  destruct (String_of_shape i) as [Hnum Hne]. unfold rla.
  assert (forallb numeric (rev (la (String_of i))) = true) as Hrev.
  { rewrite forallb_forall in *. intros c Hc. apply Hnum. now apply in_rev. }
  split; [exact Hrev|].
  destruct (rev (la (String_of i))) as [|c l] eqn:E.
  - exfalso. apply Hne. apply la_inj.
    rewrite <- (rev_involutive (la (String_of i))), E. reflexivity.
  - exists c, l. split; [reflexivity|]. simpl in Hrev. now apply andb_prop in Hrev as [? _].
Qed.

Lemma rla_chunk_name (sid : string) (i : Z) :
  rla (chunk_name sid i) = rla (String_of i) ++ rla "-chunk-" ++ rla sid.
Proof. unfold chunk_name. now rewrite !rla_app, <- !app_assoc. Qed.

Lemma rla_result_name (sid : string) (i : Z) :
  rla (result_name sid i)
  = rla ".json" ++ rla (String_of i) ++ rla "-result-" ++ rla sid.
Proof. unfold result_name. rewrite !rla_app. now rewrite <- !app_assoc. Qed.

Lemma rla_metadata_name (sid : string) :
  rla (metadata_name sid) = rla "-metadata.json" ++ rla sid.
Proof. unfold metadata_name. now rewrite rla_app. Qed.

Lemma skip_json (l : list ascii) : skipn 5 (rla ".json" ++ l) = l.
Proof. reflexivity. Qed.

Lemma chunk_name_inj sid sid' i j :
  chunk_name sid i = chunk_name sid' j -> sid = sid' /\ i = j.
Proof.
  intros H. assert (sid = sid') as ->.
  { apply (f_equal rla) in H. rewrite !rla_chunk_name in H.
    apply (f_equal strip) in H.
    rewrite (strip_app (rla (String_of i))), (strip_app (rla (String_of j))) in H
      by apply rla_String_of.
    simpl in H. apply rla_inj. congruence. }
  split; [reflexivity|]. unfold chunk_name in H.
  apply String_of_inj. now simplify_eq.
Qed.

Lemma result_name_inj sid sid' i j :
  result_name sid i = result_name sid' j -> sid = sid' /\ i = j.
Proof.
  intros H. assert (sid = sid') as ->.
  { apply (f_equal rla) in H. rewrite !rla_result_name in H.
    apply (f_equal (skipn 5)) in H. rewrite !skip_json in H.
    apply (f_equal strip) in H.
    rewrite (strip_app (rla (String_of i))), (strip_app (rla (String_of j))) in H
      by apply rla_String_of.
    simpl in H. apply rla_inj. congruence. }
  split; [reflexivity|]. unfold result_name in H.
  apply String_of_inj. simplify_eq. now apply append_inv_tail in H.
Qed.

Lemma metadata_name_inj sid sid' :
  metadata_name sid = metadata_name sid' -> sid = sid'.
Proof. unfold metadata_name. apply append_inv_tail. Qed.

Lemma chunk_name_not_result sid sid' i j : chunk_name sid i <> result_name sid' j.
Proof.
  intros H. apply (f_equal rla) in H.
  rewrite rla_chunk_name, rla_result_name in H.
  destruct (rla_String_of i) as (_ & c & l & E & Hc). rewrite E in H.
  simpl in H. injection H as -> _. discriminate Hc.
Qed.

Lemma chunk_name_not_metadata sid sid' i : chunk_name sid i <> metadata_name sid'.
Proof.
  intros H. apply (f_equal rla) in H.
  rewrite rla_chunk_name, rla_metadata_name in H.
  destruct (rla_String_of i) as (_ & c & l & E & Hc). rewrite E in H.
  simpl in H. injection H as -> _. discriminate Hc.
Qed.

Lemma result_name_not_metadata sid sid' i : result_name sid i <> metadata_name sid'.
Proof.
  intros H. apply (f_equal rla) in H.
  rewrite rla_result_name, rla_metadata_name in H.
  apply (f_equal (skipn 5)) in H. rewrite skip_json in H.
  change (rla "-metadata.json") with (rla ".json" ++ rla "-metadata") in H.
  rewrite <- app_assoc, skip_json in H.
  destruct (rla_String_of i) as (_ & c & l & E & Hc). rewrite E in H.
  simpl in H. injection H as -> _. discriminate Hc.
Qed.

Lemma chunk_name_plain sid i : safe_id sid -> plain_name (chunk_name sid i).
Proof.
  intros Hs. unfold chunk_name. apply plain_name_long.
  - rewrite !no_slash_app, Hs. simpl.
    apply numeric_no_slash, String_of_shape.
  - rewrite !append_length. simpl. lia.
Qed.

Lemma result_name_plain sid i : safe_id sid -> plain_name (result_name sid i).
Proof.
  intros Hs. unfold result_name. apply plain_name_long.
  - rewrite !no_slash_app, Hs. simpl.
    rewrite (numeric_no_slash (String_of i)) by apply String_of_shape. reflexivity.
  - rewrite !append_length. simpl. lia.
Qed.

Lemma metadata_name_plain sid : safe_id sid -> plain_name (metadata_name sid).
Proof.
  intros Hs. unfold metadata_name. apply plain_name_long.
  - rewrite !no_slash_app, Hs. reflexivity.
  - rewrite !append_length. simpl. lia.
Qed.

Lemma chunk_path_safe sid i :
  safe_id sid -> chunk_path sid i = in_upload_dir (chunk_name sid i).
Proof. intros H. apply join_plain, chunk_name_plain, H. Qed.

Lemma result_path_safe sid i :
  safe_id sid -> result_path sid i = in_upload_dir (result_name sid i).
Proof. intros H. apply join_plain, result_name_plain, H. Qed.

Lemma metadata_path_safe sid :
  safe_id sid -> metadata_path sid = in_upload_dir (metadata_name sid).
Proof. intros H. apply join_plain, metadata_name_plain, H. Qed.

End Names.

(** ** The file system *)

Section FileSystem.

Lemma bind_ok {A B} (c : io A) (k : A -> io B) w a w' :
  c w = (Ok a, w') -> bind c k w = k a w'.
Proof. unfold bind. now intros ->. Qed.

Lemma bind_throw {A B} (c : io A) (k : A -> io B) w e w' :
  c w = (Throw e, w') -> bind c k w = (Throw e, w').
Proof. unfold bind. now intros ->. Qed.

Lemma ready_set_files fs w : ready w -> ready (set_files fs w).
Proof. intros H. exact H. Qed.

Lemma flat_set_files fs w p : flat w p -> flat (set_files fs w) p.
Proof. intros H. exact H. Qed.

Lemma flat_in_upload_dir w n : ready w -> plain_name n -> flat w (in_upload_dir n).
Proof.
  intros [Hdir Hsub] Hn.
  destruct (in_upload_dir_facts n Hn) as (Htr & Hpar & Hcanon).
  unfold flat, is_dir. rewrite Hcanon, Htr, Hpar. repeat split; [|exact Hdir].
  apply bool_decide_eq_false. intros Hin. now apply (Hsub _ Hin).
Qed.

Lemma flat_chunk_path w sid i : ready w -> safe_id sid -> flat w (chunk_path sid i).
Proof.
  intros Hw Hs. rewrite chunk_path_safe by exact Hs.
  apply flat_in_upload_dir; [exact Hw | now apply chunk_name_plain].
Qed.

Lemma flat_result_path w sid i : ready w -> safe_id sid -> flat w (result_path sid i).
Proof.
  intros Hw Hs. rewrite result_path_safe by exact Hs.
  apply flat_in_upload_dir; [exact Hw | now apply result_name_plain].
Qed.

Lemma flat_metadata_path w sid : ready w -> safe_id sid -> flat w (metadata_path sid).
Proof.
  intros Hw Hs. rewrite metadata_path_safe by exact Hs.
  apply flat_in_upload_dir; [exact Hw | now apply metadata_name_plain].
Qed.

Lemma file_at_flat w p : flat w p -> file_at w p = files w !! p.
Proof. intros (_ & Htr & _). unfold file_at. now rewrite Htr. Qed.

Lemma existsSync_flat w p :
  flat w p -> existsSync p w = (Ok (bool_decide (is_Some (files w !! p))), w).
Proof.
  intros Hp. unfold existsSync. rewrite (file_at_flat w p Hp).
  destruct Hp as (-> & _). reflexivity.
Qed.

Lemma readFileSync_flat w p f :
  flat w p -> files w !! p = Some f -> readFileSync p w = (Ok f, w).
Proof.
  intros Hp Hf. unfold readFileSync. now rewrite (file_at_flat w p Hp), Hf.
Qed.

Lemma writeFileSync_flat w p f :
  flat w p -> writeFileSync p f w = (Ok tt, set_files (<[p := f]> (files w)) w).
Proof.
  intros (Hd & Htr & Hpar). unfold writeFileSync.
  now rewrite Hd, Htr, bool_decide_true.
Qed.

Lemma unlink_if_exists_flat w p :
  flat w p -> unlink_if_exists p w = (Ok tt, set_files (delete p (files w)) w).
Proof.
  intros Hp. unfold unlink_if_exists.
  rewrite (bind_ok _ _ _ _ _ (existsSync_flat w p Hp)).
  case_bool_decide as Hf.
  - unfold unlinkSync. rewrite (file_at_flat w p Hp).
    destruct Hf as [f ->]. reflexivity.
  - unfold ret. f_equal. destruct w as [fs ds c ts an tmp]. unfold set_files. simpl in *.
    f_equal. symmetry. apply delete_id. now apply eq_None_not_Some.
Qed.

(** The paths of the files of sessions with safe ids are distinct. *)
Lemma chunk_path_inj sid sid' i j :
  safe_id sid -> safe_id sid' -> chunk_path sid i = chunk_path sid' j ->
  sid = sid' /\ i = j.
Proof.
  intros Hs Hs'. rewrite !chunk_path_safe by assumption.
  intros H. now apply chunk_name_inj, in_upload_dir_inj.
Qed.

Lemma result_path_inj sid sid' i j :
  safe_id sid -> safe_id sid' -> result_path sid i = result_path sid' j ->
  sid = sid' /\ i = j.
Proof.
  intros Hs Hs'. rewrite !result_path_safe by assumption.
  intros H. now apply result_name_inj, in_upload_dir_inj.
Qed.

Lemma metadata_path_inj sid sid' :
  safe_id sid -> safe_id sid' -> metadata_path sid = metadata_path sid' -> sid = sid'.
Proof.
  intros Hs Hs'. rewrite !metadata_path_safe by assumption.
  intros H. now apply metadata_name_inj, in_upload_dir_inj.
Qed.

Lemma chunk_path_not_result sid sid' i j :
  safe_id sid -> safe_id sid' -> chunk_path sid i <> result_path sid' j.
Proof.
  intros Hs Hs'. rewrite chunk_path_safe, result_path_safe by assumption.
  intros H. now apply in_upload_dir_inj, chunk_name_not_result in H.
Qed.

Lemma chunk_path_not_metadata sid sid' i :
  safe_id sid -> safe_id sid' -> chunk_path sid i <> metadata_path sid'.
Proof.
  intros Hs Hs'. rewrite chunk_path_safe, metadata_path_safe by assumption.
  intros H. now apply in_upload_dir_inj, chunk_name_not_metadata in H.
Qed.

Lemma result_path_not_metadata sid sid' i :
  safe_id sid -> safe_id sid' -> result_path sid i <> metadata_path sid'.
Proof.
  intros Hs Hs'. rewrite result_path_safe, metadata_path_safe by assumption.
  intros H. now apply in_upload_dir_inj, result_name_not_metadata in H.
Qed.

End FileSystem.

(** ** Symbolic execution of the handler *)

Section Execution.

Lemma form_parse_acceptable maxSize b w :
  0 < Z.of_nat (List.length b) <= maxSize ->
  form_parse maxSize (Some b) w
  = (Ok (Some (List.length (temps w))), set_temps (temps w ++ [Some b]) w).
Proof.
  intros [Hlo Hhi]. unfold form_parse.
  destruct (Z.eqb_spec (Z.of_nat (List.length b)) 0) as [E|_]; [lia|].
  destruct (Z.gtb_spec (Z.of_nat (List.length b)) maxSize) as [E|_]; [lia|].
  reflexivity.
Qed.

Lemma temp_present_new (ts : list (option (list byte))) b :
  (ts ++ [Some b]) !! List.length ts = Some (Some b).
Proof. apply list_lookup_middle. reflexivity. Qed.

Lemma readFileSync_tmp_exec k b w :
  temps w !! k = Some (Some b) -> readFileSync_tmp k w = (Ok b, w).
Proof. intros H. unfold readFileSync_tmp. now rewrite H. Qed.

Lemma unlinkSync_tmp_exec k w :
  temp_present w k -> unlinkSync_tmp k w = (Ok tt, released k w).
Proof. intros [b H]. unfold unlinkSync_tmp. now rewrite H. Qed.

Lemma storeChunkMetadata_exec w sid idx b :
  flat w (metadata_path sid) -> metadata_parses w sid ->
  let m := <[idx := ChunkMeta (Z.of_nat (List.length b)) (md5_hex b) (clock w)]>
             (metadata_of w sid) in
  storeChunkMetadata sid idx b w
  = (Ok m, set_files (<[metadata_path sid := MetadataFile m]> (files w)) w).
Proof.
  intros Hflat Hparse m. unfold storeChunkMetadata.
  rewrite (bind_ok _ _ _ _ _ (existsSync_flat w _ Hflat)).
  assert ((if bool_decide (is_Some (files w !! metadata_path sid))
           then let* f := readFileSync (metadata_path sid) in
                match f with
                | MetadataFile m => ret m
                | _ => throw (SyntaxError (metadata_path sid))
                end
           else ret ∅) w = (Ok (metadata_of w sid), w)) as Hread.
  { unfold metadata_of. case_bool_decide as Hf.
    - destruct Hf as [f Hf]. destruct (Hparse f Hf) as [m0 ->].
      rewrite (bind_ok _ _ _ _ _ (readFileSync_flat w _ _ Hflat Hf)).
      now rewrite Hf.
    - apply eq_None_not_Some in Hf. now rewrite Hf. }
  rewrite (bind_ok _ _ _ _ _ Hread).
  unfold Date_now at 1. unfold bind at 1.
  rewrite (bind_ok _ _ _ _ _ (writeFileSync_flat w _ _ Hflat)).
  reflexivity.
Qed.

Lemma handler_receive_exec rnd sid idx total fname fsize b w :
  ready w -> safe_id sid -> sid <> "" -> acceptable b -> metadata_parses w sid ->
  handler_receive rnd (upload sid idx total fname fsize b) w
  = (Ok (inr (Pending sid idx total (or_else (Some fname) "video.mp4") fsize
                (<[idx := ChunkMeta (Z.of_nat (List.length b)) (md5_hex b) (clock w)]>
                   (metadata_of w sid))
                (processChunk b idx sid (clock w) rnd)
                (List.length (temps w)))),
     after_receive w sid idx b).
Proof.
  intros Hw Hs Hne Hb Hparse. unfold handler_receive, upload. cbn [q_chunk q_sessionId
    q_chunkIndex q_totalChunks q_filename q_fileSize default].
  rewrite (bind_ok _ _ _ _ _ (form_parse_acceptable _ b w Hb)).
  set (w0 := set_temps _ w).
  rewrite bool_decide_false by exact Hne.
  unfold ret at 1. unfold bind at 1.
  rewrite (bind_ok _ _ _ _ _
             (readFileSync_tmp_exec _ b w0 (temp_present_new (temps w) b))).
  pose proof (flat_chunk_path w0 sid idx Hw Hs) as Hcp.
  rewrite (bind_ok _ _ _ _ _ (writeFileSync_flat w0 _ (ChunkFile b) Hcp)).
  set (w1 := set_files _ w0).
  assert (files w1 !! metadata_path sid = files w !! metadata_path sid) as Hsame.
  { unfold w1. simpl. apply lookup_insert_ne. now apply chunk_path_not_metadata. }
  assert (metadata_parses w1 sid) as Hparse1.
  { unfold metadata_parses. rewrite Hsame. exact Hparse. }
  assert (metadata_of w1 sid = metadata_of w sid) as Hmeta.
  { unfold metadata_of. now rewrite Hsame. }
  pose proof (flat_metadata_path w1 sid Hw Hs) as Hmp.
  rewrite (bind_ok _ _ _ _ _ (storeChunkMetadata_exec w1 sid idx b Hmp Hparse1)).
  rewrite Hmeta. reflexivity.
Qed.

Lemma load_results_exec w sid indices :
  ready w -> safe_id sid -> results_parse w sid ->
  load_results sid indices w = (Ok (stored_results w sid indices), w).
Proof.
  intros Hw Hs Hparse. induction indices as [|i rest IH]; [reflexivity|].
  simpl. pose proof (flat_result_path w sid i Hw Hs) as Hrp.
  rewrite (bind_ok _ _ _ _ _ (existsSync_flat w _ Hrp)).
  unfold stored_results. simpl. unfold stored_result at 1.
  case_bool_decide as Hf.
  - destruct Hf as [f Hf]. destruct (Hparse i f Hf) as [r ->].
    rewrite (bind_ok _ _ _ _ _ (readFileSync_flat w _ _ Hrp Hf)).
    rewrite (bind_ok _ _ _ _ _ IH). now rewrite Hf.
  - apply eq_None_not_Some in Hf. rewrite Hf. exact IH.
Qed.

Lemma handler_finish_exec sid idx total fname fsize m cr k w :
  ready w -> safe_id sid -> results_parse w sid -> temp_present w k ->
  let w' := after_result w sid idx cr in
  handler_finish (Pending sid idx total fname fsize m cr k) w
  = if completes idx total m then
      (Ok (Completed sid idx total
             (aggregateChunkResults
                (sort_by_index (stored_results w' sid (seqZ 0 total)))
                fsize fname (clock w))),
       after_aggregate w sid idx total cr k)
    else
      (Ok (Partial sid idx total (size m) (r_prediction cr) (r_confidence cr)
                   (r_processingTime cr)),
       released k w').
Proof.
  intros Hw Hs Hparse Htmp w'. unfold handler_finish. cbn [p_sessionId p_chunkIndex
    p_totalChunks p_chunkResult p_metadata p_fileSize p_filename p_filepath].
  pose proof (flat_result_path w sid idx Hw Hs) as Hrp.
  rewrite (bind_ok _ _ _ _ _ (writeFileSync_flat w _ (ResultFile cr) Hrp)).
  fold (after_result w sid idx cr). fold w'.
  rewrite (bind_ok _ _ _ _ _ (unlinkSync_tmp_exec k w' Htmp)).
  unfold completes.
  destruct ((idx =? total - 1) && (Z.of_nat (size m) =? total)); [|reflexivity].
  assert (results_parse (released k w') sid) as Hparse'.
  { intros i f. unfold w', after_result. simpl.
    destruct (decide (result_path sid idx = result_path sid i)) as [E|E].
    - rewrite E, lookup_insert_eq. intros [= <-]. eauto.
    - rewrite lookup_insert_ne by exact E. apply Hparse. }
  rewrite (bind_ok _ _ _ _ _ (load_results_exec (released k w') sid _ Hw Hs Hparse')).
  reflexivity.
Qed.

Lemma handler_exec rnd sid idx total fname fsize b w :
  ready w -> safe_id sid -> sid <> "" -> acceptable b ->
  metadata_parses w sid -> results_parse w sid ->
  handler rnd (upload sid idx total fname fsize b) w
  = if completes idx total (metadata_after w sid idx b) then
      (Completed sid idx total
         (aggregateChunkResults
            (sort_by_index
               (stored_results (after_upload rnd w sid idx b) sid (seqZ 0 total)))
            fsize (or_else (Some fname) "video.mp4") (clock w)),
       after_completion rnd w sid idx total b)
    else
      (Partial sid idx total (size (metadata_after w sid idx b))
         (r_prediction (processChunk b idx sid (clock w) rnd))
         (r_confidence (processChunk b idx sid (clock w) rnd))
         (r_processingTime (processChunk b idx sid (clock w) rnd)),
       after_upload rnd w sid idx b).
Proof.
  intros Hw Hs Hne Hb Hmeta Hres. unfold handler, catch.
  change (q_method (upload sid idx total fname fsize b)) with "POST".
  rewrite bool_decide_false by discriminate.
  rewrite bool_decide_true by reflexivity. cbn [negb].
  rewrite (bind_ok _ _ _ _ _
             (handler_receive_exec rnd sid idx total fname fsize b w Hw Hs Hne Hb Hmeta)).
  assert (results_parse (after_receive w sid idx b) sid) as Hres'.
  { intros i f. unfold after_receive. cbn [files].
    rewrite lookup_insert_ne
      by (intros E; symmetry in E; now apply result_path_not_metadata in E).
    rewrite lookup_insert_ne
      by (now apply chunk_path_not_result).
    apply Hres. }
  assert (temp_present (after_receive w sid idx b) (List.length (temps w))) as Htmp.
  { exists b. apply temp_present_new. }
  rewrite (handler_finish_exec sid idx total _ fsize _ _ _ (after_receive w sid idx b)
             Hw Hs Hres' Htmp).
  fold (metadata_after w sid idx b).
  destruct (completes idx total (metadata_after w sid idx b)); reflexivity.
Qed.

End Execution.

(** ** Sorting the chunk results *)

Section Sorting.

Lemma insert_sorted_perm x l : insert_sorted x l ≡ₚ x :: l.
Proof.
  induction l as [|y l IH]; simpl; [reflexivity|].
  destruct (r_chunkIndex x <=? r_chunkIndex y); [reflexivity|].
  rewrite IH. apply Permutation_swap.
Qed.

Lemma sort_by_index_perm l : sort_by_index l ≡ₚ l.
Proof.
  induction l as [|x l IH]; simpl; [reflexivity|].
  now rewrite insert_sorted_perm, IH.
Qed.

Lemma sort_by_index_length l : List.length (sort_by_index l) = List.length l.
Proof. apply Permutation_length, sort_by_index_perm. Qed.

Lemma insert_sorted_sorted x l :
  Sorted Z.le (map r_chunkIndex l) ->
  Sorted Z.le (map r_chunkIndex (insert_sorted x l)).
Proof.
  induction l as [|y l IH]; simpl; intros Hl.
  - repeat constructor.
  - destruct (Z.leb_spec (r_chunkIndex x) (r_chunkIndex y)) as [Hxy|Hxy]; simpl.
    + constructor; [exact Hl | constructor; exact Hxy].
    + inversion Hl as [|? ? Hl' Hhd]; subst. constructor; [now apply IH|].
      destruct l as [|z l]; simpl.
      * constructor. lia.
      * destruct (Z.leb_spec (r_chunkIndex x) (r_chunkIndex z)); simpl.
        -- constructor. lia.
        -- inversion Hhd; subst. now constructor.
Qed.

Lemma sort_by_index_sorted l : Sorted Z.le (map r_chunkIndex (sort_by_index l)).
Proof.
  induction l as [|x l IH]; simpl; [constructor | now apply insert_sorted_sorted].
Qed.

Lemma sort_by_index_id l :
  StronglySorted Z.le (map r_chunkIndex l) -> sort_by_index l = l.
Proof.
  induction l as [|x l IH]; simpl; [reflexivity|].
  intros Hl. inversion Hl as [|? ? Hl' Hall]; subst. rewrite (IH Hl').
  destruct l as [|y l]; simpl; [reflexivity|].
  inversion Hall as [|? ? Hxy _]; subst.
  destruct (Z.leb_spec (r_chunkIndex x) (r_chunkIndex y)); [reflexivity | lia].
Qed.

Lemma seqZ_sorted m n : StronglySorted Z.le (seqZ m n).
Proof.
  remember (Z.to_nat n) as k eqn:Hk. revert m n Hk.
  induction k as [|k IH]; intros m n Hk.
  - rewrite seqZ_nil by lia. constructor.
  - rewrite seqZ_cons by lia. constructor.
    + apply IH. lia.
    + apply Forall_seqZ. intros; lia.
Qed.

End Sorting.

(** ** A session, chunk after chunk *)

Section Session.

Lemma fresh_session_at sid w : ready w -> fresh w sid -> session_at w sid ∅.
Proof.
  intros Hw [Hm Hr]. unfold session_at, metadata_parses, metadata_of.
  rewrite Hm. split; [exact Hw|]. split; [discriminate|].
  split; [apply dom_empty_L|].
  intros i. rewrite Hr. set_solver.
Qed.

Lemma session_at_parses sid w done :
  session_at w sid done -> metadata_parses w sid /\ results_parse w sid.
Proof.
  intros (_ & Hm & _ & Hr). split; [exact Hm|].
  intros i f Hf. specialize (Hr i). rewrite Hf in Hr.
  destruct Hr as (_ & r & -> & _). eauto.
Qed.

Lemma files_after_upload sid rnd w idx b p :
  safe_id sid ->
  files (after_upload rnd w sid idx b) !! p
  = if decide (p = result_path sid idx) then
      Some (ResultFile (processChunk b idx sid (clock w) rnd))
    else if decide (p = metadata_path sid) then
      Some (MetadataFile (metadata_after w sid idx b))
    else if decide (p = chunk_path sid idx) then Some (ChunkFile b)
    else files w !! p.
Proof.
  intros Hsafe.
  unfold after_upload, released, set_temps, after_result, after_receive, set_files.
  cbn [files].
  destruct (decide (p = result_path sid idx)) as [->|E1].
  { apply lookup_insert_eq. }
  rewrite lookup_insert_ne by congruence.
  destruct (decide (p = metadata_path sid)) as [->|E2].
  { apply lookup_insert_eq. }
  rewrite lookup_insert_ne by congruence.
  destruct (decide (p = chunk_path sid idx)) as [->|E3].
  { apply lookup_insert_eq. }
  now rewrite lookup_insert_ne by congruence.
Qed.

Lemma metadata_of_after_upload sid rnd w idx b :
  safe_id sid ->
  metadata_of (after_upload rnd w sid idx b) sid = metadata_after w sid idx b.
Proof.
  intros Hsafe. unfold metadata_of. rewrite files_after_upload by exact Hsafe.
  rewrite decide_False
    by (intros E; symmetry in E; now apply result_path_not_metadata in E).
  now rewrite decide_True.
Qed.

Lemma session_at_upload sid rnd w done idx b :
  safe_id sid ->
  session_at w sid done ->
  session_at (after_upload rnd w sid idx b) sid (done ∪ {[idx]}).
Proof.
  intros Hsafe (Hw & Hm & Hdom & Hr). unfold session_at.
  split; [exact Hw|]. split; [|split].
  - intros f. rewrite files_after_upload by exact Hsafe.
    rewrite decide_False
      by (intros E; symmetry in E; now apply result_path_not_metadata in E).
    rewrite decide_True by reflexivity. intros [= <-]. eauto.
  - rewrite metadata_of_after_upload by exact Hsafe. unfold metadata_after.
    rewrite dom_insert_L, Hdom. set_solver.
  - intros i. rewrite files_after_upload by exact Hsafe.
    destruct (decide (result_path sid i = result_path sid idx)) as [E|E].
    + apply result_path_inj in E as [_ ->]; [|assumption..].
      split; [set_solver|]. eexists. split; reflexivity.
    + rewrite decide_False by (now apply result_path_not_metadata).
      rewrite decide_False
        by (intros E'; symmetry in E'; now apply chunk_path_not_result in E').
      specialize (Hr i). destruct (files w !! result_path sid i) as [f|].
      * destruct Hr as [Hin Hf]. split; [set_solver | exact Hf].
      * assert (i <> idx) by (intros ->; now apply E). set_solver.
Qed.

Lemma session_at_stored sid w done l :
  session_at w sid done -> (forall i, i ∈ l -> i ∈ done) ->
  map r_chunkIndex (stored_results w sid l) = l.
Proof.
  intros (_ & _ & _ & Hr) Hl. induction l as [|i l IH]; [reflexivity|].
  unfold stored_results in *. simpl. unfold stored_result at 1.
  specialize (Hr i). destruct (files w !! result_path sid i) as [f|].
  - destruct Hr as (_ & r & -> & Hi). simpl. rewrite Hi. f_equal.
    apply IH. intros j Hj. apply Hl. now right.
  - exfalso. apply Hr, Hl. now left.
Qed.

End Session.

(** ** Completion and aggregation over a whole session *)

Section Completion.

Context (sid : string) (n : Z) (fname : string) (fsize : Z).
Context (payload : Z -> list byte) (rnd : Z -> Q).

Lemma breakdown_indices_aggregate l total name now :
  breakdown_indices (aggregateChunkResults l total name now) = map r_chunkIndex l.
Proof.
  unfold breakdown_indices, aggregateChunkResults.
  destruct (fold_left _ _ _) as [wc tw]. cbn [a_chunk_breakdown].
  rewrite map_map. reflexivity.
Qed.

Lemma size_metadata_after w done idx b :
  session_at w sid done -> idx ∉ done ->
  size (metadata_after w sid idx b) = S (size done).
Proof.
  intros (_ & _ & Hdom & _) Hidx. unfold metadata_after.
  rewrite map_size_insert_None.
  - now rewrite <- Hdom, size_dom.
  - apply not_elem_of_dom. now rewrite Hdom.
Qed.

Lemma serve_session rest :
  safe_id sid -> sid <> "" -> (forall i, acceptable (payload i)) ->
  forall done w,
  session_at w sid done -> NoDup rest -> (forall i, i ∈ rest -> i ∉ done) ->
  done ∪ list_to_set rest = list_to_set (seqZ 0 n) ->
  one_aggregate_iff_last n rest
    (serve (uploads sid n fname fsize payload rnd rest) w).1.
Proof.
  intros Hsafe Hne Hpayload.
  induction rest as [|idx rest IH]; intros done w Hat Hnd Hnew Hall.
  - unfold one_aggregate_iff_last.
    destruct (decide (last [] = Some (n - 1))) as [E|_]; [discriminate E | reflexivity].
  - destruct (session_at_parses sid w done Hat) as [Hm Hr].
    pose proof Hat as (Hw & _).
    assert (idx ∉ done) as Hidx by (apply Hnew; left).
    apply NoDup_cons in Hnd as [Hfresh Hnd].
    cbn [uploads map serve].
    rewrite (handler_exec (rnd idx) sid idx n fname fsize (payload idx) w
               Hw Hsafe Hne (Hpayload idx) Hm Hr).
    unfold completes. rewrite (size_metadata_after w done idx _ Hat Hidx).
    pose proof (session_at_upload sid (rnd idx) w done idx (payload idx) Hsafe Hat)
      as Hat'.
    assert (size (list_to_set (seqZ 0 n) : gset Z) = Z.to_nat n) as Hsize.
    { rewrite size_list_to_set by apply NoDup_seqZ. apply length_seqZ. }
    destruct rest as [|j rest].
    + (* the last upload: every chunk has been received *)
      assert (done ∪ {[idx]} = list_to_set (seqZ 0 n)) as Hfull.
      { rewrite <- Hall. set_solver. }
      assert (S (size done) = Z.to_nat n) as Hcount.
      { rewrite <- Hsize, <- Hfull. rewrite size_union by set_solver.
        rewrite size_singleton. lia. }
      assert (0 < n) as Hn by lia.
      replace (Z.of_nat (S (size done)) =? n) with true
        by (symmetry; apply Z.eqb_eq; lia).
      rewrite andb_true_r. unfold one_aggregate_iff_last.
      destruct (Z.eqb_spec idx (n - 1)) as [->|Hlast]; cbn [serve fst last].
      * rewrite decide_True by reflexivity. eexists. split; [reflexivity|].
        split; [reflexivity|].
        rewrite breakdown_indices_aggregate.
        assert (map r_chunkIndex
                  (stored_results (after_upload (rnd (n - 1)) w sid (n - 1)
                                     (payload (n - 1))) sid (seqZ 0 n))
                = seqZ 0 n) as Hidxs.
        { apply (session_at_stored sid _ _ _ Hat'). intros i Hi.
          rewrite Hfull. now apply elem_of_list_to_set. }
        rewrite sort_by_index_id; [exact Hidxs|].
        rewrite Hidxs. apply seqZ_sorted.
      * rewrite decide_False by (intros [= E]; now apply Hlast).
        reflexivity.
    + (* an upload before the last: some chunk is still missing *)
      assert (S (size done) < Z.to_nat n)%nat as Hcount.
      { rewrite <- Hsize, <- Hall.
        assert (j ∉ done ∪ {[idx]}) as Hj.
        { intros [Hj | Hj]%elem_of_union.
          - apply (Hnew j); [right; left | exact Hj].
          - apply elem_of_singleton in Hj. subst j. apply Hfresh. left. }
        assert (done ∪ {[idx]} ∪ {[j]} ⊆ done ∪ list_to_set (idx :: j :: rest)) as Hsub
          by set_solver.
        apply subseteq_size in Hsub.
        rewrite (size_union (done ∪ {[idx]})) in Hsub by set_solver.
        rewrite (size_union done) in Hsub by set_solver.
        rewrite !size_singleton in Hsub. lia. }
      replace (Z.of_nat (S (size done)) =? n) with false
        by (symmetry; apply Z.eqb_neq; lia).
      rewrite andb_false_r.
      specialize (IH (done ∪ {[idx]})
                     (after_upload (rnd idx) w sid idx (payload idx)) Hat' Hnd).
      cbn [uploads map serve] in IH |- *.
      destruct (handler (rnd j) _ _) as [r w1].
      destruct (serve _ w1) as [rs w2].
      unfold one_aggregate_iff_last in IH |- *.
      cbn [fst last aggregates omap aggregate_of] in IH |- *.
      apply IH.
      * intros i Hi [Hd | Hd]%elem_of_union.
        -- apply (Hnew i); [right; exact Hi | exact Hd].
        -- apply elem_of_singleton in Hd. subst i. now apply Hfresh.
      * rewrite <- Hall. set_solver.
Qed.

End Completion.

(** ** MD5 test vectors (RFC 1321, appendix A.5) *)

Example md5_empty : md5_hex [] = "d41d8cd98f00b204e9800998ecf8427e".
Proof. vm_compute. reflexivity. Qed.

Example md5_abc :
  md5_hex (bytes_of "abc") = "900150983cd24fb0d6963f7d28e17f72".
Proof. vm_compute. reflexivity. Qed.

Example md5_two_blocks :
  md5_hex (bytes_of
    "12345678901234567890123456789012345678901234567890123456789012345678901234567890")
  = "57edf4a22be3c955ac49da2e2107b67a".
Proof. vm_compute. reflexivity. Qed.

(** ** The initial world *)

Lemma ready_initial_world : ready initial_world.
Proof.
  split.
  - unfold initial_world. cbn [dirs]. set_solver.
  - intros p Hp. unfold initial_world in Hp. cbn [dirs] in Hp.
    apply elem_of_union in Hp as [Hp | Hp];
      [apply elem_of_union in Hp as [Hp | Hp]|];
      apply elem_of_singleton in Hp; subst p; vm_compute; discriminate.
Qed.

Lemma fresh_initial_world sid : fresh initial_world sid.
Proof. split; [|intros i]; apply lookup_empty. Qed.

(** ** C1: one aggregate, and only where the last chunk arrives last *)

(** C1 (amended). The chunks [0 .. n-1] of a fresh session are uploaded,
    each once, in any order. The handler produces the aggregate at most
    once: exactly once, in its last response, where chunk [n-1] is uploaded
    last, and then the chunk breakdown lists the chunks [0 .. n-1] in
    ascending order (length [n]); where chunk [n-1] is not uploaded last,
    no response carries an aggregate. *)
Theorem aggregate_only_when_last_chunk_last
    (sid : string) (n : Z) (fname : string) (fsize : Z)
    (payload : Z -> list byte) (rnd : Z -> Q) (order : list Z) (w : world) :
  safe_id sid -> sid <> "" -> ready w -> fresh w sid ->
  (forall i, acceptable (payload i)) ->
  order ≡ₚ seqZ 0 n ->
  one_aggregate_iff_last n order
    (serve (uploads sid n fname fsize payload rnd order) w).1.
Proof.
  intros Hsafe Hne Hw Hfresh Hpayload Hperm.
  apply (serve_session sid n fname fsize payload rnd order Hsafe Hne Hpayload ∅ w).
  - now apply fresh_session_at.
  - rewrite Hperm. apply NoDup_seqZ.
  - intros i _. apply not_elem_of_empty.
  - rewrite union_empty_l_L. apply set_eq. intros i.
    rewrite !elem_of_list_to_set. now rewrite Hperm.
Qed.

Lemma aggregate_only_when_last_chunk_last_witness :
  one_aggregate_iff_last 2 [0; 1]
    (serve (uploads "s" 2 "a.mp4" 10 (fun _ => bytes_of "hello") (fun _ => 0%Q) [0; 1])
           initial_world).1.
Proof.
  apply (aggregate_only_when_last_chunk_last "s" 2 "a.mp4" 10
           (fun _ => bytes_of "hello") (fun _ => 0%Q) [0; 1] initial_world).
  - reflexivity.
  - discriminate.
  - apply ready_initial_world.
  - apply fresh_initial_world.
  - intros _. vm_compute. split; [reflexivity | discriminate].
  - reflexivity.
Defined.

(** C1 as stated fails: the two chunks of a session uploaded in the order
    1, 0 (a permutation of 0, 1) get no aggregate at all. *)
Lemma no_aggregate_when_last_chunk_first :
  [1; 0] ≡ₚ seqZ 0 2
  /\ aggregates
       (serve (uploads "s" 2 "a.mp4" 10 (fun _ => bytes_of "hello") (fun _ => 0%Q) [1; 0])
              initial_world).1 = [].
Proof. split; [apply Permutation_swap | vm_compute; reflexivity]. Qed.

(** ** C2: two requests in flight *)

Section TwoRequests.

Lemma session_ok_same_files w w' sid :
  files w' = files w -> dirs w' = dirs w -> session_ok w sid -> session_ok w' sid.
Proof.
  intros Hf Hd (Hw & Hm & Hr). unfold session_ok, ready, metadata_parses, results_parse.
  rewrite Hf, Hd. repeat split; assumption || apply Hw.
Qed.

Lemma session_ok_after_receive w sid idx b :
  safe_id sid -> session_ok w sid -> session_ok (after_receive w sid idx b) sid.
Proof.
  intros Hs (Hw & Hm & Hr). split; [exact Hw|]. split.
  - intros f. unfold after_receive. cbn [files]. rewrite lookup_insert_eq.
    intros [= <-]. eauto.
  - intros i f. unfold after_receive. cbn [files].
    rewrite lookup_insert_ne
      by (intros E; symmetry in E; now apply result_path_not_metadata in E).
    rewrite lookup_insert_ne by (now apply chunk_path_not_result).
    apply Hr.
Qed.

Lemma session_ok_after_result w sid idx cr :
  safe_id sid -> session_ok w sid -> session_ok (after_result w sid idx cr) sid.
Proof.
  intros Hs (Hw & Hm & Hr). split; [exact Hw|]. split.
  - intros f. unfold after_result, set_files. cbn [files].
    rewrite lookup_insert_ne by (now apply result_path_not_metadata).
    apply Hm.
  - intros i f. unfold after_result, set_files. cbn [files].
    destruct (decide (result_path sid idx = result_path sid i)) as [E|E].
    + rewrite E, lookup_insert_eq. intros [= <-]. eauto.
    + rewrite lookup_insert_ne by exact E. apply Hr.
Qed.

Lemma session_ok_released w sid k :
  session_ok w sid -> session_ok (released k w) sid.
Proof. intros H. exact H. Qed.

Lemma session_ok_after_upload rnd w sid idx b :
  safe_id sid -> session_ok w sid -> session_ok (after_upload rnd w sid idx b) sid.
Proof.
  intros Hs Hok. unfold after_upload.
  now apply session_ok_released, session_ok_after_result, session_ok_after_receive.
Qed.

Lemma session_ok_after_aggregate w sid idx total cr k :
  safe_id sid -> session_ok w sid -> session_ok (after_aggregate w sid idx total cr k) sid.
Proof.
  intros Hs Hok.
  apply (session_ok_same_files (after_result w sid idx cr)); [reflexivity..|].
  now apply session_ok_after_result.
Qed.

Lemma start_exec rnd sid idx total fname fsize b w :
  safe_id sid -> sid <> "" -> acceptable b -> session_ok w sid ->
  start rnd (upload sid idx total fname fsize b) w
  = (inr (Pending sid idx total (or_else (Some fname) "video.mp4") fsize
                  (metadata_after w sid idx b)
                  (processChunk b idx sid (clock w) rnd)
                  (List.length (temps w))),
     after_receive w sid idx b).
Proof.
  intros Hs Hne Hb (Hw & Hm & _). unfold start.
  change (q_method (upload sid idx total fname fsize b)) with "POST".
  rewrite bool_decide_false by discriminate.
  rewrite bool_decide_true by reflexivity. cbn [negb].
  now rewrite (handler_receive_exec rnd sid idx total fname fsize b w Hw Hs Hne Hb Hm).
Qed.

Lemma resume_exec sid idx total fname fsize m cr k w :
  safe_id sid -> session_ok w sid -> temp_present w k ->
  resume (Pending sid idx total fname fsize m cr k) w
  = if completes idx total m then
      (Completed sid idx total
         (aggregateChunkResults
            (sort_by_index (stored_results (after_result w sid idx cr) sid (seqZ 0 total)))
            fsize fname (clock w)),
       after_aggregate w sid idx total cr k)
    else
      (Partial sid idx total (size m) (r_prediction cr) (r_confidence cr)
               (r_processingTime cr),
       released k (after_result w sid idx cr)).
Proof.
  intros Hs (Hw & _ & Hr) Htmp. unfold resume, catch.
  rewrite (handler_finish_exec sid idx total fname fsize m cr k w Hw Hs Hr Htmp).
  destruct (completes idx total m); reflexivity.
Qed.

(** Temporary files across the segments of other requests. *)
Lemma temp_present_after_receive w sid idx b k :
  temp_present w k -> temp_present (after_receive w sid idx b) k.
Proof.
  intros [b0 H]. exists b0. unfold after_receive. cbn [temps].
  rewrite lookup_app_l; [exact H|]. now apply lookup_lt_Some in H.
Qed.

Lemma temp_present_mine w sid idx b :
  temp_present (after_receive w sid idx b) (List.length (temps w)).
Proof. exists b. apply temp_present_new. Qed.

Lemma temp_present_after_result w sid idx cr k :
  temp_present w k -> temp_present (after_result w sid idx cr) k.
Proof. intros H. exact H. Qed.

Lemma temp_present_released w k k' :
  k <> k' -> temp_present w k -> temp_present (released k' w) k.
Proof.
  intros Hne [b H]. exists b. unfold released, set_temps. cbn [temps].
  now rewrite list_lookup_insert_ne by congruence.
Qed.

Lemma temp_present_after_aggregate w sid idx total cr k k' :
  k <> k' -> temp_present w k -> temp_present (after_aggregate w sid idx total cr k') k.
Proof.
  intros Hne [b H]. exists b. unfold after_aggregate. cbn [temps].
  now rewrite list_lookup_insert_ne by congruence.
Qed.

Lemma completes_last idx total m : completes idx total m = true -> idx = total - 1.
Proof. unfold completes. intros [H _]%andb_prop. now apply Z.eqb_eq. Qed.

(** The sequential handler is the two segments run back to back. *)
Lemma handler_start_resume rnd req w :
  handler rnd req w
  = match start rnd req w with
    | (inl r, w') => (r, w')
    | (inr p, w') => resume p w'
    end.
Proof.
  unfold handler, start, resume, catch, bind.
  repeat case_bool_decide; try reflexivity.
  cbn [negb]. destruct (handler_receive rnd req w) as [[[r|p]|e] w']; reflexivity.
Qed.

End TwoRequests.

Lemma fold_left_step e events s :
  fold_left step (e :: events) s = fold_left step events (step s e).
Proof. reflexivity. Qed.

Ltac session_side :=
  repeat match goal with
         | |- session_ok (released _ _) _ => apply session_ok_released
         | |- session_ok (after_aggregate _ _ _ _ _ _) _ => apply session_ok_after_aggregate
         | |- session_ok (after_result _ _ _ _) _ => apply session_ok_after_result
         | |- session_ok (after_receive _ _ _ _) _ => apply session_ok_after_receive
         | |- _ => assumption
         end.

Ltac temp_distinct :=
  cbn [temps after_receive after_result set_files released set_temps after_aggregate];
  rewrite ?length_insert, ?length_app; cbn [List.length]; lia.

Ltac temp_side :=
  repeat match goal with
         | |- temp_present (after_receive ?w _ _ _) (List.length (temps ?w)) =>
             apply temp_present_mine
         | |- temp_present (after_receive _ _ _ _) _ => apply temp_present_after_receive
         | |- temp_present (after_result _ _ _ _) _ => apply temp_present_after_result
         | |- temp_present (released _ _) _ =>
             apply temp_present_released; [temp_distinct|]
         | |- temp_present (after_aggregate _ _ _ _ _ _) _ =>
             apply temp_present_after_aggregate; [temp_distinct|]
         end.

Ltac run_event :=
  rewrite fold_left_step;
  cbn [step s_world s_inflight s_responses];
  repeat first
    [ rewrite lookup_insert_eq
    | rewrite lookup_insert_ne by discriminate
    | rewrite lookup_delete_ne by discriminate ];
  first
    [ rewrite start_exec by first [assumption | session_side]
    | rewrite resume_exec by first [assumption | progress temp_side | session_side];
      match goal with
      | |- context [completes ?i ?n ?m] =>
          let E := fresh "Hcompl" in destruct (completes i n m) eqn:E
      end ].

Ltac run_events := unfold run; repeat run_event; cbn [fold_left s_responses].

(** C2 (amended). Two requests that carry two different chunks of the
    same session, under the same declared chunk count, are in flight
    together, in any interleaving of their segments. Both get a success
    response; a response carries an aggregate only if its request carries
    chunk [n-1], and then the response of the other request reports
    partial progress: at most one aggregate is created. *)
Theorem at_most_one_aggregate_for_distinct_chunks
    (sid : string) (n i j : Z) (fname : string) (fsize : Z)
    (b1 b2 : list byte) (rnd1 rnd2 : Q) (w : world) (schedule : list event) :
  safe_id sid -> sid <> "" -> session_ok w sid ->
  acceptable b1 -> acceptable b2 -> i <> j ->
  interleave (request_events 1 rnd1 (upload sid i n fname fsize b1))
             (request_events 2 rnd2 (upload sid j n fname fsize b2)) schedule ->
  exists r1 r2,
    s_responses (run schedule w) !! 1%nat = Some r1
    /\ s_responses (run schedule w) !! 2%nat = Some r2
    /\ (is_partial r1 || is_completed r1 = true)
    /\ (is_partial r2 || is_completed r2 = true)
    /\ (is_completed r1 = true -> i = n - 1 /\ is_partial r2 = true)
    /\ (is_completed r2 = true -> j = n - 1 /\ is_partial r1 = true).
Proof.
  intros Hs Hne Hok Hb1 Hb2 Hij Hsched. unfold request_events in Hsched.
  repeat match goal with
         | H : interleave _ _ _ |- _ => inversion H; clear H; subst
         end;
    run_events;
    repeat first
      [ rewrite lookup_insert_eq
      | rewrite lookup_insert_ne by discriminate ];
    repeat match goal with
           | H : completes _ _ _ = true |- _ => apply completes_last in H
           end;
    try lia;
    (do 2 eexists; repeat split; try reflexivity; intros; try discriminate; try lia).
Qed.

Lemma session_ok_initial_world sid : session_ok initial_world sid.
Proof.
  split; [apply ready_initial_world|]. split.
  - intros f Hf. unfold initial_world in Hf. cbn [files] in Hf.
    now rewrite lookup_empty in Hf.
  - intros i f Hf. unfold initial_world in Hf. cbn [files] in Hf.
    now rewrite lookup_empty in Hf.
Qed.

Lemma at_most_one_aggregate_for_distinct_chunks_witness :
  let schedule :=
    [Start 1 0 (upload "s" 1 2 "a.mp4" 10 (bytes_of "bbb"));
     Start 2 0 (upload "s" 0 2 "a.mp4" 10 (bytes_of "aaa"));
     Resume 1; Resume 2] in
  exists r1 r2,
    s_responses (run schedule initial_world) !! 1%nat = Some r1
    /\ s_responses (run schedule initial_world) !! 2%nat = Some r2
    /\ (is_partial r1 || is_completed r1 = true)
    /\ (is_partial r2 || is_completed r2 = true)
    /\ (is_completed r1 = true -> 1 = 2 - 1 /\ is_partial r2 = true)
    /\ (is_completed r2 = true -> 0 = 2 - 1 /\ is_partial r1 = true).
Proof.
  apply (at_most_one_aggregate_for_distinct_chunks "s" 2 1 0 "a.mp4" 10
           (bytes_of "bbb") (bytes_of "aaa") 0 0 initial_world).
  - reflexivity.
  - discriminate.
  - apply session_ok_initial_world.
  - vm_compute. split; [reflexivity | discriminate].
  - vm_compute. split; [reflexivity | discriminate].
  - lia.
  - unfold request_events.
    apply interleave_left, interleave_right, interleave_left, interleave_right,
      interleave_nil.
Defined.

(** C2 as stated fails, in both readings of "the final missing chunk".
    Chunk 0 of a two-chunk session is stored and two requests carry the
    missing chunk 1: each of them gets an aggregate. Chunk 0 of a
    three-chunk session is stored and the requests for the chunks 2 and 1
    start in that order before either resumes: neither gets an aggregate,
    although all three chunks are stored afterwards. *)
Lemma final_chunk_race_two_aggregates_or_none :
  (let w0 := (handler 0 (upload "s" 0 2 "a.mp4" 10 (bytes_of "aaa")) initial_world).2 in
   let req := upload "s" 1 2 "a.mp4" 10 (bytes_of "bbb") in
   let s := run [Start 1 0 req; Start 2 0 req; Resume 1; Resume 2] w0 in
   is_completed <$> s_responses s !! 1%nat = Some true
   /\ is_completed <$> s_responses s !! 2%nat = Some true)
  /\
  (let w0 := (handler 0 (upload "s" 0 3 "a.mp4" 10 (bytes_of "aaa")) initial_world).2 in
   let s := run [Start 1 0 (upload "s" 2 3 "a.mp4" 10 (bytes_of "ccc"));
                 Start 2 0 (upload "s" 1 3 "a.mp4" 10 (bytes_of "bbb"));
                 Resume 1; Resume 2] w0 in
   is_partial <$> s_responses s !! 1%nat = Some true
   /\ is_partial <$> s_responses s !! 2%nat = Some true
   /\ receivedChunks (s_world s) "s" = 3%nat).
Proof. vm_compute. repeat split; reflexivity. Qed.

(** ** C3: uploading a chunk again *)

Section Reupload.

Lemma received_dom w sid : received w sid = dom (metadata_of w sid).
Proof.
  unfold received, metadata_of.
  destruct (files w !! metadata_path sid) as [[]|]; try reflexivity;
    now rewrite dom_empty_L.
Qed.

(** The verdict of the analysis is a function of the bytes alone. *)
Lemma verdict_of_processChunk b idx sid now rnd idx' sid' now' rnd' :
  verdict_of (processChunk b idx sid now rnd)
  = verdict_of (processChunk b idx' sid' now' rnd').
Proof. reflexivity. Qed.

Lemma reupload_once rnd sid idx n fname fsize b w :
  safe_id sid -> sid <> "" -> session_ok w sid -> acceptable b ->
  idx ∈ received w sid ->
  let w' := (handler rnd (upload sid idx n fname fsize b) w).2 in
  receivedChunks w' sid = receivedChunks w sid
  /\ analyzed w' = analyzed w ++ [(sid, idx)]
  /\ stored_result w' sid idx = Some (processChunk b idx sid (clock w) rnd)
  /\ clock w' = clock w
  /\ session_ok w' sid /\ idx ∈ received w' sid.
Proof.
  intros Hs Hne Hok Hb Hidx. pose proof Hok as (Hw & Hm & Hr).
  rewrite (handler_exec rnd sid idx n fname fsize b w Hw Hs Hne Hb Hm Hr).
  match goal with
  | |- context [(?x).2] =>
      replace (x.2) with (if completes idx n (metadata_after w sid idx b)
                          then after_completion rnd w sid idx n b
                          else after_upload rnd w sid idx b)
        by (now destruct (completes idx n (metadata_after w sid idx b)))
  end.
  assert (forall w', files w' = files (after_upload rnd w sid idx b) ->
                     received w' sid = received w sid) as Hrec.
  { intros w' Hf. rewrite !received_dom.
    replace (metadata_of w' sid) with (metadata_of (after_upload rnd w sid idx b) sid)
      by (unfold metadata_of; now rewrite Hf).
    rewrite metadata_of_after_upload by exact Hs. unfold metadata_after.
    rewrite dom_insert_L. rewrite received_dom in Hidx. set_solver. }
  assert (forall w', files w' = files (after_upload rnd w sid idx b) ->
                     stored_result w' sid idx
                     = Some (processChunk b idx sid (clock w) rnd)) as Hres.
  { intros w' Hf. unfold stored_result. rewrite Hf, files_after_upload by exact Hs.
    now rewrite decide_True. }
  assert (session_ok (after_upload rnd w sid idx b) sid) as Hok'.
  { now apply session_ok_after_upload. }
  assert (exists w', (if completes idx n (metadata_after w sid idx b)
                      then after_completion rnd w sid idx n b
                      else after_upload rnd w sid idx b) = w'
                     /\ files w' = files (after_upload rnd w sid idx b)
                     /\ dirs w' = dirs (after_upload rnd w sid idx b)
                     /\ clock w' = clock w
                     /\ analyzed w' = analyzed w ++ [(sid, idx)])
    as (w' & Hw' & Hf & Hd & Hc & Ha).
  { destruct (completes idx n (metadata_after w sid idx b)); eexists;
      (split; [reflexivity|]); repeat split. }
  rewrite Hw'.
  unfold receivedChunks. rewrite (Hrec w' Hf).
  split; [reflexivity|]. split; [exact Ha|]. split; [now apply Hres|].
  split; [exact Hc|]. split; [|exact Hidx].
  now apply (session_ok_same_files (after_upload rnd w sid idx b)).
Qed.

End Reupload.

(** C3 (amended). A chunk that the session has received is uploaded again,
    any number of times. The count of received chunks does not change.
    The analysis runs again on every upload (nothing is cached); with the
    same bytes it computes the same verdict (prediction, confidence,
    models, size, frames, hash) as any earlier analysis of these bytes, and
    that result replaces the stored one. *)
Theorem reupload_keeps_count_and_analyses_again
    (sid : string) (idx n : Z) (fname : string) (fsize : Z) (b : list byte)
    (rnds : list Q) (w : world) :
  safe_id sid -> sid <> "" -> session_ok w sid -> acceptable b ->
  idx ∈ received w sid ->
  let w' := (serve (reuploads (upload sid idx n fname fsize b) rnds) w).2 in
  receivedChunks w' sid = receivedChunks w sid
  /\ analyzed w' = analyzed w ++ List.repeat (sid, idx) (List.length rnds)
  /\ (rnds <> [] ->
      exists r, stored_result w' sid idx = Some r
                /\ forall now0 rnd0,
                     verdict_of r = verdict_of (processChunk b idx sid now0 rnd0)).
Proof.
  intros Hs Hne Hok Hb Hidx. revert w Hok Hidx.
  induction rnds as [|rnd rnds IH]; intros w Hok Hidx.
  - cbn. rewrite app_nil_r. repeat split. intros H. now contradiction H.
  - cbn [reuploads map serve].
    pose proof (reupload_once rnd sid idx n fname fsize b w Hs Hne Hok Hb Hidx)
      as (Hcount & Hlog & Hres & Hclock & Hok' & Hidx').
    destruct (handler rnd (upload sid idx n fname fsize b) w) as [r w1].
    cbn [snd] in *.
    specialize (IH w1 Hok' Hidx'). unfold reuploads in IH.
    destruct (serve (map _ rnds) w1) as [rs w2] eqn:E. cbn [snd] in *.
    destruct IH as (IHcount & IHlog & IHres).
    split; [congruence|]. split.
    + rewrite IHlog, Hlog, <- app_assoc. reflexivity.
    + intros _. destruct rnds as [|rnd' rnds].
      * cbn in E. injection E as <- <-.
        eexists. split; [exact Hres|]. intros. apply verdict_of_processChunk.
      * apply IHres. discriminate.
Qed.

Lemma reupload_keeps_count_and_analyses_again_witness :
  let b := bytes_of "hello" in
  let w := after_upload 0 initial_world "s" 0 b in
  let w' := (serve (reuploads (upload "s" 0 2 "a.mp4" 10 b) [1 # 4; 1 # 2]%Q) w).2 in
  receivedChunks w' "s" = receivedChunks w "s"
  /\ analyzed w' = analyzed w ++ List.repeat ("s", 0) 2
  /\ ([1 # 4; 1 # 2]%Q <> [] ->
      exists r, stored_result w' "s" 0 = Some r
                /\ forall now0 rnd0,
                     verdict_of r = verdict_of (processChunk b 0 "s" now0 rnd0)).
Proof.
  intros b w.
  apply (reupload_keeps_count_and_analyses_again "s" 0 2 "a.mp4" 10 b
           [1 # 4; 1 # 2]%Q w).
  - reflexivity.
  - discriminate.
  - apply session_ok_after_upload; [reflexivity | apply session_ok_initial_world].
  - vm_compute. split; [reflexivity | discriminate].
  - unfold w. rewrite received_dom, metadata_of_after_upload by reflexivity.
    unfold metadata_after. rewrite dom_insert_L. set_solver.
Defined.

(** C3 as stated fails: the second upload of the same bytes runs the
    analysis a second time, and its response is not the first one (the
    processing time is drawn again); only the count stays. *)
Lemma reupload_runs_analysis_again :
  let req := upload "s" 0 2 "a.mp4" 10 (bytes_of "hello") in
  let first := handler 0 req initial_world in
  let second := handler (1 # 4) req first.2 in
  analyzed first.2 = [("s", 0)]
  /\ analyzed second.2 = [("s", 0); ("s", 0)]
  /\ first.1 = Partial "s" 0 2 1 real (3540 # 10000) (1 # 2)
  /\ second.1 = Partial "s" 0 2 1 real (3540 # 10000) (6 # 8).
Proof. vm_compute. repeat split; reflexivity. Qed.

(** ** C4: the aggregate confidence is the size-weighted average *)

Section Aggregation.

Lemma accumulate_fold l T a b :
  fold_left (accumulate T) l (a, b)
  = (fold_left fadd (map (fun chunk => fmul (lit (r_confidence chunk))
                                            (spec_weight T chunk)) l) a,
     fold_left fadd (map (spec_weight T) l) b).
Proof.
  revert a b. induction l as [|chunk l IH]; intros a b; [reflexivity|].
  cbn [fold_left map accumulate]. now rewrite IH.
Qed.

Lemma aggregate_confidence l T fname now :
  let a := aggregateChunkResults l T fname now in
  let c := spec_finalConfidence l T in
  a_raw_confidence a = JSON_number c
  /\ a_confidence a = JSON_number (round4 c)
  /\ a_prediction a = if fgt c (lit (1 # 2)) then fake else real.
Proof.
  cbv zeta. unfold aggregateChunkResults. rewrite accumulate_fold.
  cbn [a_raw_confidence a_confidence a_prediction].
  repeat split.
Qed.

(** With a declared file size of zero every weight is a division by zero,
    and everything computed from it is an infinity or [NaN]. *)
Lemma weight_not_finite chunk : not_finite (spec_weight 0 chunk) = true.
Proof.
  unfold spec_weight, fdiv. change (Number 0) with (S754_zero false).
  now destruct (Number (r_chunkSize chunk)).
Qed.

Lemma fmul_not_finite x y : not_finite y = true -> not_finite (fmul x y) = true.
Proof. destruct y; try discriminate; intros _; destruct x; try reflexivity;
       unfold fmul, SFmul; now destruct (xorb _ _). Qed.

Lemma fadd_not_finite x y : not_finite y = true -> not_finite (fadd x y) = true.
Proof.
  destruct y as [| sy | |]; try discriminate; intros _;
    destruct x as [sx | sx | |]; try reflexivity; now destruct sx, sy.
Qed.

Lemma fsum_not_finite xs a :
  Forall (fun x => not_finite x = true) xs -> not_finite a = true ->
  not_finite (fold_left fadd xs a) = true.
Proof.
  intros Hxs. revert a. induction Hxs as [|x xs Hx _ IH]; intros a Ha; [exact Ha|].
  cbn [fold_left]. apply IH. now apply fadd_not_finite.
Qed.

Lemma fsum_not_finite_cons xs :
  Forall (fun x => not_finite x = true) xs -> xs <> [] ->
  not_finite (fsum xs) = true.
Proof.
  intros Hxs Hne. destruct Hxs as [|x xs Hx Hxs]; [contradiction|].
  unfold fsum. cbn [fold_left]. apply fsum_not_finite; [exact Hxs|].
  now apply fadd_not_finite.
Qed.

Lemma fdiv_not_finite x y :
  not_finite x = true -> not_finite y = true -> fdiv x y = S754_nan.
Proof. destruct x, y; try discriminate; reflexivity. Qed.

Lemma spec_finalConfidence_undefined l : spec_finalConfidence l 0 = S754_nan.
Proof.
  unfold spec_finalConfidence. destruct l as [|chunk l]; [reflexivity|].
  apply fdiv_not_finite; apply fsum_not_finite_cons; try discriminate;
    apply Forall_forall; intros x Hx; apply list_elem_of_In, in_map_iff in Hx;
    destruct Hx as (c & <- & _); [apply fmul_not_finite|]; apply weight_not_finite.
Qed.

End Aggregation.

(** C4. The aggregate confidence is the sum over the chunks of confidence
    times weight, [weight = size / file size], divided by the sum of the
    weights, computed in double precision in the order of the chunks; the
    reported confidence is that value rounded to four decimals and the
    prediction is [fake] exactly where the value exceeds 0.5. For two
    chunks of 1 MiB and 3 MiB with confidences 0.2 and 0.8 the aggregate
    confidence is 0.65 and the prediction is [fake]; the unrounded value
    is the double next to it, 0.6500000000000001. Where the declared file
    size is zero, the value is not a number, the reported confidence is
    [null] and the prediction is [real]. *)
Theorem aggregate_confidence_weighted_by_size :
  (forall l T fname now,
     let a := aggregateChunkResults l T fname now in
     let c := spec_finalConfidence l T in
     a_raw_confidence a = JSON_number c
     /\ a_confidence a = JSON_number (round4 c)
     /\ a_prediction a = if fgt c (lit (1 # 2)) then fake else real)
  /\ (let a := aggregateChunkResults
                 [example_chunk 0 (1 * MiB) (2 # 10); example_chunk 1 (3 * MiB) (8 # 10)]
                 (4 * MiB) "video.mp4" 0 in
      a_confidence a = JSON_number (lit (65 # 100))
      /\ a_prediction a = fake
      /\ a_raw_confidence a = JSON_number (lit (6500000000000001 # 10000000000000000))
      /\ a_raw_confidence a <> JSON_number (lit (65 # 100))
      /\ exists reported raw,
           a_confidence a = Some reported /\ a_raw_confidence a = Some raw
           /\ (Qabs (reported - (65 # 100)) < 1 # 10000000000000000)%Q
           /\ (Qabs (raw - (65 # 100)) < 2 # 10000000000000000)%Q)
  /\ (forall l fname now,
        let a := aggregateChunkResults l 0 fname now in
        a_raw_confidence a = None /\ a_confidence a = None /\ a_prediction a = real).
Proof.
  split; [|split].
  - intros l T fname now. apply aggregate_confidence.
  - split; [vm_compute; reflexivity|]. split; [vm_compute; reflexivity|].
    split; [vm_compute; reflexivity|]. split; [vm_compute; discriminate|].
    do 2 eexists. split; [vm_compute; reflexivity|]. split; [vm_compute; reflexivity|].
    split; vm_compute; reflexivity.
  - intros l fname now. cbv zeta.
    destruct (aggregate_confidence l 0 fname now) as (-> & -> & ->).
    rewrite spec_finalConfidence_undefined. repeat split.
Qed.

(** ** C5: what is rejected before anything is stored *)

Section Validation.

Lemma handler_without_chunk rnd req w :
  q_method req = "POST" -> q_chunk req = None ->
  handler rnd req w = (NoChunkUploaded, w).
Proof.
  intros Hm Hc. unfold handler, catch. rewrite Hm.
  rewrite bool_decide_false by discriminate.
  rewrite bool_decide_true by reflexivity. cbn [negb].
  unfold handler_receive. rewrite Hc. cbn [form_parse].
  unfold bind, ret, generateSessionId, Date_now, bind, ret.
  destruct (q_sessionId req) as [s|]; [case_bool_decide|]; reflexivity.
Qed.

Lemma upload_chunk_without_chunk req w :
  UploadChunk.q_method req = "POST" -> UploadChunk.q_chunk req = None ->
  UploadChunk.handler req w = (UploadChunk.MissingFields, w).
Proof.
  intros Hm Hc. unfold UploadChunk.handler. rewrite Hm.
  rewrite bool_decide_false by discriminate.
  rewrite bool_decide_true by reflexivity. cbn [negb].
  unfold UploadChunk.handler_body. now rewrite Hc.
Qed.

Lemma upload_chunk_without_id req b w :
  UploadChunk.q_method req = "POST" ->
  UploadChunk.q_chunk req = Some b ->
  0 < Z.of_nat (List.length b) <= UploadChunk.MAX_CHUNK ->
  UploadChunk.truthy (UploadChunk.q_uploadId req) = None ->
  UploadChunk.handler req w
  = (UploadChunk.MissingFields, set_temps (temps w ++ [Some b]) w).
Proof.
  intros Hm Hc Hp Hid. unfold UploadChunk.handler. rewrite Hm.
  rewrite bool_decide_false by discriminate.
  rewrite bool_decide_true by reflexivity. cbn [negb].
  unfold UploadChunk.handler_body. rewrite Hc.
  rewrite (bind_ok _ _ _ _ _ (form_parse_acceptable _ b w Hp)).
  now rewrite Hid.
Qed.

Lemma upload_chunk_too_large req b w :
  UploadChunk.q_method req = "POST" ->
  UploadChunk.q_chunk req = Some b ->
  UploadChunk.MAX_CHUNK < Z.of_nat (List.length b) ->
  UploadChunk.handler req w = (UploadChunk.Failed FileTooLarge, w).
Proof.
  intros Hm Hc Hlen. unfold UploadChunk.handler. rewrite Hm.
  rewrite bool_decide_false by discriminate.
  rewrite bool_decide_true by reflexivity. cbn [negb].
  unfold UploadChunk.handler_body. rewrite Hc.
  assert (form_parse UploadChunk.MAX_CHUNK (Some b) w = (Throw FileTooLarge, w)) as Hparse.
  { unfold form_parse.
    destruct (Z.eqb_spec (Z.of_nat (List.length b)) 0) as [E|_].
    - unfold UploadChunk.MAX_CHUNK in Hlen. lia.
    - destruct (Z.gtb_spec (Z.of_nat (List.length b)) UploadChunk.MAX_CHUNK);
        [reflexivity | lia]. }
  now rewrite (bind_throw _ _ _ _ _ Hparse).
Qed.

Lemma handler_stores_any_index rnd sid idx n fname fsize b w :
  safe_id sid -> sid <> "" -> session_ok w sid -> acceptable b ->
  exists r w',
    handler rnd (upload sid idx n fname fsize b) w = (r, w')
    /\ is_partial r || is_completed r = true
    /\ files w' !! chunk_path sid idx = Some (ChunkFile b)
    /\ metadata_of w' sid !! idx
       = Some (ChunkMeta (Z.of_nat (List.length b)) (md5_hex b) (clock w))
    /\ idx ∈ received w' sid
    /\ stored_result w' sid idx = Some (processChunk b idx sid (clock w) rnd).
Proof.
  intros Hs Hne Hok Hb. pose proof Hok as (Hw & Hm & Hr).
  rewrite (handler_exec rnd sid idx n fname fsize b w Hw Hs Hne Hb Hm Hr).
  assert (forall w', files w' = files (after_upload rnd w sid idx b) ->
            files w' !! chunk_path sid idx = Some (ChunkFile b)
            /\ metadata_of w' sid !! idx
               = Some (ChunkMeta (Z.of_nat (List.length b)) (md5_hex b) (clock w))
            /\ idx ∈ received w' sid
            /\ stored_result w' sid idx = Some (processChunk b idx sid (clock w) rnd))
    as Hfiles.
  { intros w' Hf.
    assert (metadata_of w' sid = metadata_after w sid idx b) as Hmeta.
    { replace (metadata_of w' sid) with (metadata_of (after_upload rnd w sid idx b) sid)
        by (unfold metadata_of; now rewrite Hf).
      now apply metadata_of_after_upload. }
    split; [|split; [|split]].
    - rewrite Hf, files_after_upload by exact Hs.
      rewrite decide_False by (now apply chunk_path_not_result).
      rewrite decide_False by (now apply chunk_path_not_metadata).
      now rewrite decide_True.
    - rewrite Hmeta. apply lookup_insert_eq.
    - rewrite received_dom, Hmeta. unfold metadata_after.
      rewrite dom_insert_L. set_solver.
    - unfold stored_result. rewrite Hf, files_after_upload by exact Hs.
      now rewrite decide_True. }
  destruct (completes idx n (metadata_after w sid idx b)); do 2 eexists;
    (split; [reflexivity|]); (split; [reflexivity|]); now apply Hfiles.
Qed.

Lemma doubled_length n l :
  Z.of_nat (List.length (doubled n l)) = 2 ^ Z.of_nat n * Z.of_nat (List.length l).
Proof.
  revert l. induction n as [|n IH]; intros l.
  - cbn [doubled]. change (Z.of_nat 0) with 0. lia.
  - cbn [doubled]. rewrite IH, length_app, Nat2Z.inj_succ, Z.pow_succ_r by lia. lia.
Qed.

End Validation.

(** C5 (amended). The chunk index is not validated against
    [0, totalChunks): with any index the upload succeeds, and the bytes of
    the chunk, its metadata entry and its analysis result are stored. What
    is rejected: a request without a chunk payload gets the 400 response
    of either handler and nothing at all is written; a request to
    [upload-chunk.js] with a chunk but no upload id gets the 400 response
    and no chunk or metadata is stored, but the temporary file that the
    form parser wrote for it stays; [upload-chunk.js] rejects a payload
    larger than 5 MiB with its 500 response and leaves nothing behind. *)
Theorem rejected_requests_store_nothing :
  (forall rnd req w,
     q_method req = "POST" -> q_chunk req = None ->
     handler rnd req w = (NoChunkUploaded, w))
  /\ (forall req w,
        UploadChunk.q_method req = "POST" -> UploadChunk.q_chunk req = None ->
        UploadChunk.handler req w = (UploadChunk.MissingFields, w))
  /\ (forall req b w,
        UploadChunk.q_method req = "POST" ->
        UploadChunk.q_chunk req = Some b ->
        0 < Z.of_nat (List.length b) <= UploadChunk.MAX_CHUNK ->
        UploadChunk.truthy (UploadChunk.q_uploadId req) = None ->
        exists w',
          UploadChunk.handler req w = (UploadChunk.MissingFields, w')
          /\ files w' = files w /\ dirs w' = dirs w
          /\ temps w' = temps w ++ [Some b])
  /\ (forall req b w,
        UploadChunk.q_method req = "POST" ->
        UploadChunk.q_chunk req = Some b ->
        UploadChunk.MAX_CHUNK < Z.of_nat (List.length b) ->
        UploadChunk.handler req w = (UploadChunk.Failed FileTooLarge, w))
  /\ (forall rnd sid idx n fname fsize b w,
        safe_id sid -> sid <> "" -> session_ok w sid -> acceptable b ->
        exists r w',
          handler rnd (upload sid idx n fname fsize b) w = (r, w')
          /\ is_partial r || is_completed r = true
          /\ files w' !! chunk_path sid idx = Some (ChunkFile b)
          /\ metadata_of w' sid !! idx
             = Some (ChunkMeta (Z.of_nat (List.length b)) (md5_hex b) (clock w))
          /\ idx ∈ received w' sid
          /\ stored_result w' sid idx = Some (processChunk b idx sid (clock w) rnd)).
Proof.
  split; [exact handler_without_chunk|].
  split; [exact upload_chunk_without_chunk|].
  split.
  { intros req b w Hm Hc Hp Hid. eexists.
    split; [exact (upload_chunk_without_id req b w Hm Hc Hp Hid)|]. repeat split. }
  split; [exact upload_chunk_too_large|].
  exact handler_stores_any_index.
Qed.

Lemma rejected_requests_store_nothing_witness :
  handler 0 (Request "POST" (Some 7) (Some 2) (Some "a.mp4") (Some 10) (Some "s") None)
          initial_world
  = (NoChunkUploaded, initial_world).
Proof.
  apply (proj1 rejected_requests_store_nothing).
  - reflexivity.
  - reflexivity.
Defined.

(** A payload of 8 MiB sent to [upload-chunk.js] is rejected and leaves no
    trace. *)
Example upload_chunk_rejects_8MiB :
  let req := UploadChunk.Request "POST" (Some 0) (Some 1) (Some "up") (Some "a.mp4")
                                 (Some (8 * MiB)) (Some (doubled 23 [x00])) in
  UploadChunk.handler req UploadChunk.initial_world
  = (UploadChunk.Failed FileTooLarge, UploadChunk.initial_world).
Proof.
  intros req.
  apply (upload_chunk_too_large req (doubled 23 [x00])).
  - reflexivity.
  - reflexivity.
  - rewrite doubled_length. vm_compute. reflexivity.
Qed.

(** C5 as stated fails: chunk index 5 of a two-chunk session is out of
    range, and so is index -1; both uploads succeed, the chunks are
    stored and counted. *)
Lemma out_of_range_index_is_stored :
  let first := handler 0 (upload "s" 5 2 "a.mp4" 10 (bytes_of "hello")) initial_world in
  let second := handler 0 (upload "s" (-1) 2 "a.mp4" 10 (bytes_of "hello")) first.2 in
  is_partial first.1 = true
  /\ files first.2 !! chunk_path "s" 5 = Some (ChunkFile (bytes_of "hello"))
  /\ is_Some (stored_result first.2 "s" 5)
  /\ receivedChunks first.2 "s" = 1%nat
  /\ is_partial second.1 = true
  /\ files second.2 !! chunk_path "s" (-1) = Some (ChunkFile (bytes_of "hello"))
  /\ is_Some (stored_result second.2 "s" (-1))
  /\ receivedChunks second.2 "s" = 2%nat.
Proof. vm_compute. repeat split; first [reflexivity | eexists; reflexivity]. Qed.

(** ** C6: a session keeps no declared size or chunk count *)





(** ** C9: sessions and the files they share *)

Section Frame.

(** Between sessions whose ids hold no path separator, an upload to one
    leaves the files of the other alone. *)
Lemma upload_leaves_other_sessions
    (rnd : Q) (sid sid' : string) (idx n : Z) (fname : string) (fsize : Z)
    (b : list byte) (w : world) :
  safe_id sid -> sid <> "" -> safe_id sid' -> sid <> sid' ->
  session_ok w sid -> acceptable b ->
  let w' := (handler rnd (upload sid idx n fname fsize b) w).2 in
  files w' !! metadata_path sid' = files w !! metadata_path sid'
  /\ (forall i, files w' !! result_path sid' i = files w !! result_path sid' i)
  /\ (forall i, files w' !! chunk_path sid' i = files w !! chunk_path sid' i)
  /\ received w' sid' = received w sid'
  /\ (forall l, stored_results w' sid' l = stored_results w sid' l).
Proof.
  intros Hs Hne Hs' Hdiff Hok Hb. pose proof Hok as (Hw & Hm & Hr).
  rewrite (handler_exec rnd sid idx n fname fsize b w Hw Hs Hne Hb Hm Hr).
  match goal with
  | |- context [(?x).2] =>
      replace (x.2) with (if completes idx n (metadata_after w sid idx b)
                          then after_completion rnd w sid idx n b
                          else after_upload rnd w sid idx b)
        by (now destruct (completes idx n (metadata_after w sid idx b)))
  end.
  assert (files (if completes idx n (metadata_after w sid idx b)
                 then after_completion rnd w sid idx n b
                 else after_upload rnd w sid idx b)
          = files (after_upload rnd w sid idx b)) as Hf
    by (now destruct (completes idx n (metadata_after w sid idx b))).
  set (w' := if completes idx n _ then _ else _) in *. clearbody w'. cbv zeta.
  assert (files w' !! metadata_path sid' = files w !! metadata_path sid') as Hmeta.
  { rewrite Hf, files_after_upload by exact Hs.
    rewrite decide_False
      by (intros E; symmetry in E; now apply result_path_not_metadata in E).
    rewrite decide_False
      by (intros E; apply metadata_path_inj in E; [congruence | assumption..]).
    rewrite decide_False
      by (intros E; symmetry in E; now apply chunk_path_not_metadata in E).
    reflexivity. }
  assert (forall i, files w' !! result_path sid' i = files w !! result_path sid' i)
    as Hres.
  { intros i. rewrite Hf, files_after_upload by exact Hs.
    rewrite decide_False
      by (intros E; apply result_path_inj in E as [E _]; [congruence | assumption..]).
    rewrite decide_False by (now apply result_path_not_metadata).
    rewrite decide_False
      by (intros E; symmetry in E; now apply chunk_path_not_result in E).
    reflexivity. }
  split; [exact Hmeta|]. split; [exact Hres|]. split; [|split].
  - intros i. rewrite Hf, files_after_upload by exact Hs.
    rewrite decide_False by (now apply chunk_path_not_result).
    rewrite decide_False by (now apply chunk_path_not_metadata).
    rewrite decide_False
      by (intros E; apply chunk_path_inj in E as [E _]; [congruence | assumption..]).
    reflexivity.
  - unfold received. now rewrite Hmeta.
  - intros l. unfold stored_results.
    assert (forall i, stored_result w' sid' i = stored_result w sid' i) as Hsame
      by (intros i; unfold stored_result; now rewrite Hres).
    induction l as [|i l IH]; [reflexivity|].
    cbn [omap list_omap]. now rewrite Hsame, IH.
Qed.

End Frame.

(** C9, at the input where the code breaks it. The session ids ["b"] and
    ["./b"] differ, but [path.join] normalises their file names to the same
    paths. Session ["b"] has received chunk 0 of 2; the upload of chunk 1 to
    session ["./b"] raises the count of session ["b"] to 2, stores a result
    under session ["b"], and returns an aggregate that includes the chunk
    uploaded to session ["b"]. *)
Theorem session_ids_with_dot_segments_share_files :
  let w1 := (handler 0 (upload "b" 0 2 "a.mp4" 10 (bytes_of "aaa")) initial_world).2 in
  let second := handler 0 (upload "./b" 1 2 "x.mp4" 10 (bytes_of "bbb")) w1 in
  "./b" <> "b"
  /\ metadata_path "./b" = metadata_path "b"
  /\ receivedChunks w1 "b" = 1%nat
  /\ receivedChunks second.2 "b" = 2%nat
  /\ stored_result w1 "b" 1 = None
  /\ (r_sessionId <$> stored_result second.2 "b" 1) = Some "./b"
  /\ (breakdown_indices <$> aggregate_of second.1) = Some [0; 1].
Proof. vm_compute. repeat split; try reflexivity. discriminate. Qed.

(** ** C7: time, clean-up and expiry *)

Section Time.

Lemma purge_chunks_exec sid indices w :
  ready w -> safe_id sid ->
  for_each indices
    (fun i => unlink_if_exists (chunk_path sid i) ;;
              unlink_if_exists (result_path sid i)) w
  = (Ok tt, set_files (purge_chunks sid indices (files w)) w).
Proof.
  intros Hw Hs. revert w Hw. induction indices as [|i rest IH]; intros w Hw.
  - cbn. unfold ret, set_files. now destruct w.
  - cbn [for_each purge_chunks fold_left].
    pose proof (flat_chunk_path w sid i Hw Hs) as Hcp.
    assert (bind (unlink_if_exists (chunk_path sid i))
                 (fun _ => unlink_if_exists (result_path sid i)) w
            = (Ok tt, set_files (delete (result_path sid i)
                                   (delete (chunk_path sid i) (files w))) w)) as Hstep.
    { rewrite (bind_ok _ _ _ _ _ (unlink_if_exists_flat w _ Hcp)).
      rewrite unlink_if_exists_flat by (now apply flat_result_path).
      reflexivity. }
    rewrite (bind_ok _ _ _ _ _ Hstep). rewrite IH by exact Hw. reflexivity.
Qed.

Lemma cleanup_exec sid n w :
  ready w -> safe_id sid ->
  cleanup sid n w = (Ok tt, set_files (purged sid n (files w)) w).
Proof.
  intros Hw Hs. unfold cleanup, try_.
  rewrite (bind_ok _ _ _ _ _ (purge_chunks_exec sid (seqZ 0 n) w Hw Hs)).
  rewrite unlink_if_exists_flat by (now apply flat_metadata_path).
  reflexivity.
Qed.



Lemma purge_chunks_cons sid i rest fs :
  purge_chunks sid (i :: rest) fs
  = purge_chunks sid rest (delete (result_path sid i) (delete (chunk_path sid i) fs)).
Proof. reflexivity. Qed.

Lemma purged_by_cons t ts fs :
  purged_by (t :: ts) fs = purged_by ts (purged (t_sessionId t) (t_totalChunks t) fs).
Proof. reflexivity. Qed.

(** Purging only removes files. *)
Lemma purge_chunks_None sid indices fs p :
  fs !! p = None -> purge_chunks sid indices fs !! p = None.
Proof.
  revert fs. induction indices as [|i rest IH]; intros fs Hp; [exact Hp|].
  cbn [purge_chunks fold_left]. apply IH.
  rewrite !lookup_delete. repeat case_decide; congruence.
Qed.



Lemma purge_chunks_removes sid indices fs i :
  i ∈ indices ->
  purge_chunks sid indices fs !! chunk_path sid i = None
  /\ purge_chunks sid indices fs !! result_path sid i = None.
Proof.
  revert fs. induction indices as [|j rest IH]; intros fs Hi.
  - now apply not_elem_of_nil in Hi.
  - cbn [purge_chunks fold_left]. apply elem_of_cons in Hi as [->|Hi].
    + split; apply purge_chunks_None; rewrite !lookup_delete;
        repeat case_decide; congruence.
    + now apply IH.
Qed.

Lemma purge_chunks_other sid indices fs p :
  (forall i, p <> chunk_path sid i) -> (forall i, p <> result_path sid i) ->
  purge_chunks sid indices fs !! p = fs !! p.
Proof.
  intros Hc Hr. revert fs. induction indices as [|j rest IH]; intros fs; [reflexivity|].
  rewrite purge_chunks_cons, IH.
  rewrite lookup_delete_ne by (intros E; now apply (Hr j)).
  now rewrite lookup_delete_ne by (intros E; now apply (Hc j)).
Qed.

Lemma purged_other sid n fs p :
  (forall i, p <> chunk_path sid i) -> (forall i, p <> result_path sid i) ->
  p <> metadata_path sid ->
  purged sid n fs !! p = fs !! p.
Proof.
  intros Hc Hr Hm. unfold purged. rewrite lookup_delete_ne by congruence.
  now apply purge_chunks_other.
Qed.

Lemma purged_removes sid n fs :
  purged sid n fs !! metadata_path sid = None
  /\ forall i, 0 <= i < n ->
       purged sid n fs !! chunk_path sid i = None
       /\ purged sid n fs !! result_path sid i = None.
Proof.
  unfold purged. split; [apply lookup_delete_eq|]. intros i Hi.
  assert (i ∈ seqZ 0 n) as Hin by (apply elem_of_seqZ; lia).
  destruct (purge_chunks_removes sid (seqZ 0 n) fs i Hin) as [Hc Hr].
  rewrite !lookup_delete. split; case_decide; congruence.
Qed.

(** The files of a session without a due timer outlive the timers of the
    other sessions. *)
Lemma purged_by_other_sessions ts fs sid p :
  safe_id sid ->
  Forall (fun t => safe_id (t_sessionId t) /\ t_sessionId t <> sid) ts ->
  p = metadata_path sid \/ (exists i, p = result_path sid i)
    \/ (exists i, p = chunk_path sid i) ->
  purged_by ts fs !! p = fs !! p.
Proof.
  intros Hs Hts Hp. revert fs. induction Hts as [|t ts [Ht Hne] Hts IH]; intros fs;
    [reflexivity|].
  rewrite purged_by_cons, IH. apply purged_other.
  - intros i ->. destruct Hp as [E | [[j E] | [j E]]].
    + now apply chunk_path_not_metadata in E.
    + now apply chunk_path_not_result in E.
    + apply chunk_path_inj in E as [E _]; [congruence | assumption..].
  - intros i ->. destruct Hp as [E | [[j E] | [j E]]].
    + now apply result_path_not_metadata in E.
    + apply result_path_inj in E as [E _]; [congruence | assumption..].
    + symmetry in E. now apply chunk_path_not_result in E.
  - intros ->. destruct Hp as [E | [[j E] | [j E]]].
    + apply metadata_path_inj in E; [congruence | assumption..].
    + symmetry in E. now apply result_path_not_metadata in E.
    + symmetry in E. now apply chunk_path_not_metadata in E.
Qed.


Lemma elem_of_enqueue t ts : t ∈ enqueue t ts.
Proof.
  induction ts as [|t' ts IH]; cbn; [left|].
  destruct (t_due t' <=? t_due t); [now right | left].
Qed.

End Time.

Section Expiry.




End Expiry.




(** ** C8: generated session ids *)

Section SessionIds.

Lemma hexdigit_no_slash z : Ascii.eqb (MD5.hexdigit z) Path.slash = false.
Proof.
  unfold MD5.hexdigit.
  destruct (nth_in_or_default (Z.to_nat z) (list_ascii_of_string "0123456789abcdef")
              "0"%char) as [Hin | ->]; [|reflexivity].
  assert (List.Forall (fun c => Ascii.eqb c Path.slash = false)
                      (list_ascii_of_string "0123456789abcdef")) as Hall
    by (repeat constructor).
  rewrite List.Forall_forall in Hall. now apply Hall.
Qed.

Lemma hex_no_slash bs : Path.no_slash (MD5.hex bs) = true.
Proof.
  induction bs as [|b bs IH]; [reflexivity|].
  cbn [MD5.hex Path.no_slash]. now rewrite !hexdigit_no_slash, IH.
Qed.

Lemma md5_hex_safe data : safe_id (md5_hex data).
Proof. apply hex_no_slash. Qed.

Lemma md5_hex_nonempty data : md5_hex data <> "".
Proof. unfold md5_hex, MD5.digest. cbn [MD5.le_bytes app MD5.hex]. discriminate. Qed.

Lemma handler_anonymous rnd idx n fname fsize b w :
  handler rnd (anonymous_upload idx n fname fsize b) w
  = handler rnd (upload (generated_id (or_else (Some fname) "video.mp4") fsize n (clock w))
                        idx n fname fsize b) w.
Proof.
  unfold handler, anonymous_upload, upload. cbn [q_method].
  rewrite bool_decide_false by discriminate.
  rewrite bool_decide_true by reflexivity. cbn [negb].
  unfold handler_receive. cbn [q_chunk q_sessionId q_chunkIndex q_totalChunks
    q_filename q_fileSize default].
  rewrite (bool_decide_false (generated_id _ _ _ _ = "")) by apply md5_hex_nonempty.
  unfold catch, bind, generateSessionId, Date_now, ret, bind, form_parse, throw.
  destruct (Z.of_nat (List.length b) =? 0); [reflexivity|].
  destruct (Z.of_nat (List.length b) >? MAX_FILE_SIZE); reflexivity.
Qed.

Lemma anonymous_upload_session rnd idx n fname fsize b w :
  session_ok w (generated_id (or_else (Some fname) "video.mp4") fsize n (clock w)) ->
  acceptable b ->
  exists r w',
    handler rnd (anonymous_upload idx n fname fsize b) w = (r, w')
    /\ session_of r
       = Some (generated_id (or_else (Some fname) "video.mp4") fsize n (clock w)).
Proof.
  intros Hok Hb. pose proof Hok as (Hw & Hm & Hr). rewrite handler_anonymous.
  set (sid := generated_id _ _ _ _) in *.
  assert (safe_id sid) as Hs by apply md5_hex_safe.
  assert (sid <> "") as Hne by apply md5_hex_nonempty.
  rewrite (handler_exec rnd sid idx n fname fsize b w Hw Hs Hne Hb Hm Hr).
  destruct (completes _ _ _); do 2 eexists; split; reflexivity.
Qed.

End SessionIds.

(** C8 (amended). Where a request omits the session id, the id is the MD5
    of [filename-fileSize-totalChunks-now], with [now] the time of the call
    in milliseconds: it is determined by the file name, the file size, the
    chunk count and the time. Two calls that omit the session id, supply
    the same file name, file size and chunk count and are served at the
    same millisecond obtain the same session id. *)
Theorem generated_session_id_depends_on_time :
  (forall rnd idx n fname fsize b w,
     session_ok w (generated_id (or_else (Some fname) "video.mp4") fsize n (clock w)) ->
     acceptable b ->
     exists r w',
       handler rnd (anonymous_upload idx n fname fsize b) w = (r, w')
       /\ session_of r
          = Some (generated_id (or_else (Some fname) "video.mp4") fsize n (clock w)))
  /\ (forall rnd1 rnd2 idx1 idx2 n fname fsize b1 b2 w1 w2,
        clock w1 = clock w2 ->
        session_ok w1 (generated_id (or_else (Some fname) "video.mp4") fsize n (clock w1)) ->
        session_ok w2 (generated_id (or_else (Some fname) "video.mp4") fsize n (clock w2)) ->
        acceptable b1 -> acceptable b2 ->
        exists sid,
          session_of (handler rnd1 (anonymous_upload idx1 n fname fsize b1) w1).1 = Some sid
          /\ session_of (handler rnd2 (anonymous_upload idx2 n fname fsize b2) w2).1
             = Some sid).
Proof.
  split.
  - intros. now apply anonymous_upload_session.
  - intros rnd1 rnd2 idx1 idx2 n fname fsize b1 b2 w1 w2 Hclock Hok1 Hok2 Hb1 Hb2.
    destruct (anonymous_upload_session rnd1 idx1 n fname fsize b1 w1 Hok1 Hb1)
      as (r1 & w1' & -> & Hs1).
    destruct (anonymous_upload_session rnd2 idx2 n fname fsize b2 w2 Hok2 Hb2)
      as (r2 & w2' & -> & Hs2).
    eexists. split; [exact Hs1|]. cbn [fst]. now rewrite Hs2, Hclock.
Qed.

Lemma generated_session_id_depends_on_time_witness :
  exists r w',
    handler 0 (anonymous_upload 0 2 "a.mp4" 10 (bytes_of "aaa")) initial_world = (r, w')
    /\ session_of r
       = Some (generated_id (or_else (Some "a.mp4") "video.mp4") 10 2 (clock initial_world)).
Proof.
  apply (proj1 generated_session_id_depends_on_time 0%Q 0 2 "a.mp4" 10 (bytes_of "aaa")
           initial_world).
  - apply session_ok_initial_world.
  - vm_compute. split; [reflexivity | discriminate].
Defined.

(** C8 as stated fails: the same request, without session id, served at
    the times 0 and 1 gets two different session ids, the MD5 digests of
    [a.mp4-10-2-0] and of [a.mp4-10-2-1]. *)
Lemma same_fields_later_call_other_session_id :
  let req := anonymous_upload 0 2 "a.mp4" 10 (bytes_of "aaa") in
  clock (advance 1 initial_world) = 1
  /\ session_of (handler 0 req initial_world).1
     = Some "f3801235c82b02f32a06f420f47aced4"
  /\ session_of (handler 0 req (advance 1 initial_world)).1
     = Some "d063d1a6089ea54ae2cf0ff79846905c".
Proof. vm_compute. repeat split; reflexivity. Qed.

(** ** C10: the range of the confidences *)

Section Ranges.

Lemma clamp_range lo hi x : (lo <= hi)%Q -> (lo <= clamp lo hi x)%Q /\ (clamp lo hi x <= hi)%Q.
Proof.
  intros Hlohi. unfold clamp.
  destruct (Qle_bool hi x) eqn:E1.
  - destruct (Qle_bool hi lo) eqn:E2.
    + split; [apply Qle_refl | exact Hlohi].
    + split; [exact Hlohi | apply Qle_refl].
  - destruct (Qle_bool x lo) eqn:E2.
    + split; [apply Qle_refl | exact Hlohi].
    + assert (~ hi <= x)%Q as H1 by (rewrite <- Qle_bool_iff, E1; discriminate).
      assert (~ x <= lo)%Q as H2 by (rewrite <- Qle_bool_iff, E2; discriminate).
      split; lra.
Qed.

Lemma round4_range c : in_range c -> in_range (Q_of (Math_round (c * 10000)) / 10000).
Proof.
  intros [Hlo Hhi]. unfold Math_round, Q_of.
  assert (1000 <= Qfloor (c * 10000 + (1 # 2)) <= 9000) as [H1 H2].
  { split.
    - change 1000 with (Qfloor (inject_Z 1000)). apply Qfloor_resp_le.
      unfold inject_Z. lra.
    - change 9000 with (Qfloor (9000 + (1 # 2))). apply Qfloor_resp_le. lra. }
  split.
  - apply Qle_shift_div_l; [reflexivity|]. rewrite Zle_Qle in H1.
    unfold inject_Z in *. lra.
  - apply Qle_shift_div_r; [reflexivity|]. rewrite Zle_Qle in H2.
    unfold inject_Z in *. lra.
Qed.

(** The confidence of every analysed chunk lies between 0.1 and 0.9. *)
Lemma processChunk_analysed b idx sid now rnd : analysed (processChunk b idx sid now rnd).
Proof.
  split.
  - unfold processChunk. cbn [r_confidence]. apply round4_range.
    apply clamp_range. lra.
  - unfold processChunk. cbn [r_chunkSize]. lia.
Qed.

End Ranges.

(** C10, at the input where the code breaks it. A one-chunk upload omits
    the file size, which then defaults to 0. The chunk's own confidence is
    in range (0.9), but every weight is a division by zero and the
    aggregate confidence is not a number: the response carries no value
    between 0.1 and 0.9, and the prediction falls back to [real] although
    the only chunk is [fake]. *)
Theorem aggregate_confidence_undefined_without_file_size :
  let r := (handler 0 (upload_without_size "s" 0 1 "a.mp4" (bytes_of "aaa"))
                    initial_world).1 in
  (map b_confidence <$> (a_chunk_breakdown <$> aggregate_of r)) = Some [(9000 # 10000)%Q]
  /\ (map b_prediction <$> (a_chunk_breakdown <$> aggregate_of r)) = Some [fake]
  /\ (a_raw_confidence <$> aggregate_of r) = Some None
  /\ (a_confidence <$> aggregate_of r) = Some None
  /\ (a_prediction <$> aggregate_of r) = Some real.
Proof. vm_compute. repeat split; reflexivity. Qed.

(** * Further properties of the code *)

(** ** [processChunk] *)

Section Analysis.

Lemma Qfloor_half (z : Z) : Qfloor (inject_Z z + (1 # 2)) = z.
Proof.
  unfold Qfloor, Qplus, inject_Z. cbn.
  change (Z.pos (1 * 2)) with 2.
  replace (z * 2 + 1 * 1) with (1 + z * 2) by lia.
  rewrite Z.div_add by lia. reflexivity.
Qed.

Lemma Math_round_thousandth (c : Q) (k : Z) :
  (c == k # 1000)%Q -> Math_round (c * 10000) = 10 * k.
Proof.
  intros Hc. unfold Math_round.
  rewrite (Qfloor_comp _ (inject_Z (10 * k) + (1 # 2))).
  - apply Qfloor_half.
  - rewrite Hc. unfold Qeq, Qplus, Qmult, inject_Z. cbn. lia.
Qed.

Lemma clamp_thousandth (m : Z) :
  exists k, 100 <= k <= 900
            /\ (clamp (1 # 10) (9 # 10) (Q_of m / 1000) == k # 1000)%Q.
Proof.
  assert (Q_of m / 1000 == m # 1000)%Q as Hm.
  { unfold Q_of, Qeq, Qdiv, Qmult, Qinv, inject_Z. cbn. lia. }
  unfold clamp.
  destruct (Qle_bool (9 # 10) (Q_of m / 1000)) eqn:E1.
  - exists 900. split; [lia|]. cbn. reflexivity.
  - destruct (Qle_bool (Q_of m / 1000) (1 # 10)) eqn:E2.
    + exists 100. split; [lia | reflexivity].
    + exists m. split; [|exact Hm].
      assert (~ 9 # 10 <= Q_of m / 1000)%Q as H1
        by (rewrite <- Qle_bool_iff, E1; discriminate).
      assert (~ Q_of m / 1000 <= 1 # 10)%Q as H2
        by (rewrite <- Qle_bool_iff, E2; discriminate).
      rewrite Hm in H1, H2. unfold Qle in H1, H2. cbn in H1, H2. lia.
Qed.

End Analysis.

(** X1. The confidence that [processChunk] reports is a whole number of
    thousandths between 0.1 and 0.9 (the rounding to four decimals changes
    nothing), and the prediction is [fake] exactly where the reported
    confidence exceeds 0.5. *)
Theorem processChunk_confidence_and_prediction
    (b : list byte) (idx : Z) (sid : string) (now : Z) (rnd : Q) :
  let r := processChunk b idx sid now rnd in
  exists k, 100 <= k <= 900
            /\ (r_confidence r == k # 1000)%Q
            /\ (r_prediction r = fake <-> 500 < k).
Proof.
  cbv zeta. unfold processChunk. cbn [r_confidence r_prediction].
  set (m := Z.rem _ 1000).
  destruct (clamp_thousandth m) as (k & Hk & Hc).
  exists k. split; [exact Hk|]. split.
  - rewrite (Math_round_thousandth _ k Hc).
    unfold Q_of, Qeq, Qdiv, Qmult, Qinv, inject_Z. cbn. lia.
  - unfold Qgtb. destruct (Qle_bool _ (1 # 2)) eqn:E; cbn [negb].
    + apply Qle_bool_iff in E. rewrite Hc in E. unfold Qle in E. cbn in E.
      split; [discriminate | lia].
    + assert (~ clamp (1 # 10) (9 # 10) (Q_of m / 1000) <= 1 # 2)%Q as H
        by (rewrite <- Qle_bool_iff, E; discriminate).
      rewrite Hc in H. unfold Qle in H. cbn in H. split; [lia | reflexivity].
Qed.

Section AnalysisShape.

Lemma md5_hex_length data : String.length (md5_hex data) = 32%nat.
Proof. unfold md5_hex, MD5.digest. cbn [MD5.le_bytes app MD5.hex]. reflexivity. Qed.

Lemma substring_8_length (s : string) :
  (8 <= String.length s)%nat -> String.length (substring 0 8 s) = 8%nat.
Proof.
  intros H. do 8 (destruct s as [|? s]; [cbn in H; lia|]). now destruct s.
Qed.

End AnalysisShape.

(** X2. [processChunk] lists between one and three distinct models, the
    baseline [BG-Model-N] first; [CM-Model-N] is listed exactly for chunks
    smaller than 2 MiB. The result carries the index and session it was
    called with, the size of the buffer, one estimated frame per 50 KiB and
    the first eight hex digits of the MD5 of the buffer. *)
Theorem processChunk_shape
    (b : list byte) (idx : Z) (sid : string) (now : Z) (rnd : Q) :
  let r := processChunk b idx sid now rnd in
  NoDup (r_modelsUsed r)
  /\ head (r_modelsUsed r) = Some "BG-Model-N"
  /\ r_modelsUsed r ⊆ ["BG-Model-N"; "CM-Model-N"; "TM-Model-N"]
  /\ ("CM-Model-N" ∈ r_modelsUsed r <-> Z.of_nat (List.length b) < 2 * MiB)
  /\ r_chunkIndex r = idx /\ r_sessionId r = sid
  /\ r_chunkSize r = Z.of_nat (List.length b)
  /\ 51200 * r_estimatedFrames r <= r_chunkSize r < 51200 * (r_estimatedFrames r + 1)
  /\ String.length (r_hash r) = 8%nat
  /\ r_hash r = substring 0 8 (md5_hex b).
Proof.
  cbv zeta. unfold processChunk.
  cbn [r_modelsUsed r_chunkIndex r_sessionId r_chunkSize r_estimatedFrames r_hash].
  set (n := Z.of_nat (List.length b)). set (h := parseInt16 _).
  assert ((n <? 2 * 1024 * 1024) = true <-> n < 2 * MiB) as Hcm
    by (unfold MiB; rewrite Z.ltb_lt; lia).
  split; [|split; [|split; [|split]]].
  - destruct (n <? 2 * 1024 * 1024), (Z.rem h 3 =? 0); cbn;
      repeat (apply NoDup_cons; split; [set_solver|]); apply NoDup_nil_2.
  - reflexivity.
  - destruct (n <? 2 * 1024 * 1024), (Z.rem h 3 =? 0); cbn; set_solver.
  - rewrite <- Hcm. destruct (n <? 2 * 1024 * 1024), (Z.rem h 3 =? 0); cbn;
      split; intros H; try reflexivity; try discriminate; set_solver.
  - split; [reflexivity|]. split; [reflexivity|]. split; [reflexivity|].
    split; [|split; [|reflexivity]].
    + change (1024 * 50) with 51200.
      pose proof (Z.mul_div_le n 51200). pose proof (Z.mul_succ_div_gt n 51200). lia.
    + apply substring_8_length. rewrite md5_hex_length. lia.
Qed.

(** ** [aggregateChunkResults] *)

Section AggregateShape.

Lemma elem_of_uniq_go (xs acc : list string) (x : string) :
  x ∈ fold_left (fun acc x => if bool_decide (x ∈ acc) then acc else acc ++ [x]) xs acc
  <-> x ∈ acc \/ x ∈ xs.
Proof.
  revert acc. induction xs as [|y xs IH]; intros acc; cbn [fold_left].
  - set_solver.
  - rewrite IH. case_bool_decide; set_solver.
Qed.

Lemma NoDup_uniq_go (xs acc : list string) :
  NoDup acc ->
  NoDup (fold_left (fun acc x => if bool_decide (x ∈ acc) then acc else acc ++ [x]) xs acc).
Proof.
  revert acc. induction xs as [|y xs IH]; intros acc Hacc; cbn [fold_left];
    [exact Hacc|].
  apply IH. case_bool_decide; [exact Hacc|].
  apply NoDup_app. split; [exact Hacc|]. split; [|apply NoDup_singleton].
  intros x Hx Hy. apply list_elem_of_singleton in Hy. now subst.
Qed.

Lemma elem_of_uniq xs x : x ∈ uniq xs <-> x ∈ xs.
Proof. unfold uniq. rewrite elem_of_uniq_go. set_solver. Qed.

Lemma NoDup_uniq xs : NoDup (uniq xs).
Proof. apply NoDup_uniq_go, NoDup_nil_2. Qed.

Lemma aggregate_fields l T fname now :
  let a := aggregateChunkResults l T fname now in
  a_total_chunks a = Z.of_nat (List.length l)
  /\ a_chunks_fake a
     = Z.of_nat (List.length
         (List.filter (fun r => bool_decide (r_prediction r = fake)) l))
  /\ a_chunks_real a = a_total_chunks a - a_chunks_fake a
  /\ a_models_used a = uniq (flat_map r_modelsUsed l)
  /\ a_consistency_score a
     = jdiv (Some (Q_of (Z.max (a_chunks_fake a) (a_chunks_real a))))
            (Some (Q_of (a_total_chunks a)))
  /\ a_chunk_consensus a
     = (if a_chunks_fake a >? a_chunks_real a then fake_majority else real_majority).
Proof.
  cbv zeta. unfold aggregateChunkResults. destruct (fold_left _ _ _).
  repeat split.
Qed.

End AggregateShape.


(** X4. The models of the aggregate are the union of the models of the
    chunks, each listed once: a model is listed exactly where some chunk
    lists it, whatever the order of the chunks. *)
Theorem aggregate_models_are_the_union
    (l : list chunkResult) (T : Z) (fname : string) (now : Z) :
  let a := aggregateChunkResults l T fname now in
  NoDup (a_models_used a)
  /\ (forall m, m ∈ a_models_used a <-> exists chunk, chunk ∈ l /\ m ∈ r_modelsUsed chunk)
  /\ (forall l' T' fname' now',
        l' ≡ₚ l ->
        a_models_used (aggregateChunkResults l' T' fname' now') ≡ₚ a_models_used a).
Proof.
  cbv zeta.
  assert (forall l0 T0 f0 n0 m,
            m ∈ a_models_used (aggregateChunkResults l0 T0 f0 n0)
            <-> exists chunk, chunk ∈ l0 /\ m ∈ r_modelsUsed chunk) as Hmem.
  { intros l0 T0 f0 n0 m.
    destruct (aggregate_fields l0 T0 f0 n0) as (_ & _ & _ & -> & _).
    rewrite elem_of_uniq, !list_elem_of_In, in_flat_map.
    split; intros (chunk & H1 & H2); exists chunk;
      rewrite ?list_elem_of_In in *; auto. }
  assert (forall l0 T0 f0 n0, NoDup (a_models_used (aggregateChunkResults l0 T0 f0 n0)))
    as Hnd.
  { intros l0 T0 f0 n0.
    destruct (aggregate_fields l0 T0 f0 n0) as (_ & _ & _ & -> & _). apply NoDup_uniq. }
  split; [apply Hnd|]. split; [apply Hmem|].
  intros l' T' fname' now' Hperm. apply NoDup_Permutation; [apply Hnd | apply Hnd|].
  intros m. rewrite !Hmem. split; intros (chunk & H1 & H2); exists chunk;
    (split; [|exact H2]); [now rewrite <- Hperm | now rewrite Hperm].
Qed.

(** ** What the handler touches *)

Section Footprint.

Context (P : string -> Prop) (n : nat).

Lemma touches_refl w : touches P n w w.
Proof. unfold touches. repeat split; auto. Qed.

Lemma touches_trans w1 w2 w3 :
  touches P n w1 w2 -> touches P n w2 w3 -> touches P n w1 w3.
Proof.
  intros (Hd & Hc & Hk & Hf & Ht & Hl & Hp) (Hd' & Hc' & Hk' & Hf' & Ht' & Hl' & Hp').
  unfold touches. split; [congruence|]. split; [congruence|]. split; [auto|].
  split; [|split; [auto|split; [lia|]]].
  - intros p Hnp. rewrite Hf' by exact Hnp. now apply Hf.
  - intros k Hk0. rewrite Hp' by exact Hk0. now apply Hp.
Qed.

Lemma io_spec_ret {A} (Q : A -> Prop) a : Q a -> io_spec P n Q (ret a).
Proof. intros Ha w _. split; [apply touches_refl | exact Ha]. Qed.

Lemma io_spec_throw {A} (Q : A -> Prop) e : io_spec P n Q (throw e).
Proof. intros w _. split; [apply touches_refl | exact I]. Qed.

Lemma io_spec_bind {A B} (Q : A -> Prop) (R : B -> Prop) (c : io A) (k : A -> io B) :
  io_spec P n Q c -> (forall a, Q a -> io_spec P n R (k a)) -> io_spec P n R (bind c k).
Proof.
  intros Hc Hk w Hn. unfold bind. specialize (Hc w Hn).
  destruct (c w) as [[a|e] w1]; cbn [fst snd] in *.
  - destruct Hc as [Ht Ha].
    assert (n <= List.length (temps w1))%nat as Hn1.
    { destruct Ht as (_ & _ & _ & _ & _ & Hl & _). lia. }
    specialize (Hk a Ha w1 Hn1).
    destruct (k a w1) as [o w2]; cbn [fst snd] in *.
    destruct Hk as [Ht' Ho]. split; [now apply (touches_trans w w1 w2) | exact Ho].
  - exact Hc.
Qed.

Lemma io_spec_existsSync p : io_spec P n (fun _ => True) (existsSync p).
Proof. intros w _. split; [apply touches_refl | exact I]. Qed.

Lemma io_spec_readFileSync p : io_spec P n (fun _ => True) (readFileSync p).
Proof.
  intros w _. unfold readFileSync. destruct (file_at w p);
    (split; [apply touches_refl | exact I]).
Qed.

Lemma io_spec_Date_now : io_spec P n (fun _ => True) Date_now.
Proof. intros w _. split; [apply touches_refl | exact I]. Qed.

Lemma io_spec_log_analysis sid idx : io_spec P n (fun _ => True) (log_analysis sid idx).
Proof.
  intros w _. split; [|exact I]. unfold touches.
  cbn [snd log_analysis dirs clock files timers temps].
  repeat split; auto.
Qed.

Lemma elem_of_enqueue_old t t' ts : t' ∈ ts -> t' ∈ enqueue t ts.
Proof.
  induction ts as [|t0 ts IH]; cbn; intros H.
  - now apply not_elem_of_nil in H.
  - destruct (t_due t0 <=? t_due t).
    + apply elem_of_cons in H as [->|H]; [left | right; now apply IH].
    + now right.
Qed.

Lemma io_spec_setTimeout sid total delay :
  io_spec P n (fun _ => True) (setTimeout sid total delay).
Proof.
  intros w _. split; [|exact I]. unfold touches, setTimeout.
  cbn [snd dirs clock files timers temps].
  repeat split; auto. intros t Ht. now apply elem_of_enqueue_old.
Qed.

Lemma io_spec_writeFileSync p f :
  P p -> io_spec P n (fun _ => True) (writeFileSync p f).
Proof.
  intros Hp w _. unfold writeFileSync.
  destruct (is_dir w p); [split; [apply touches_refl | exact I]|].
  destruct (Path.trailing p); [split; [apply touches_refl | exact I]|].
  case_bool_decide; [|split; [apply touches_refl | exact I]].
  split; [|exact I]. unfold touches, set_files. cbn [snd dirs clock files timers temps].
  split; [reflexivity|]. split; [reflexivity|]. split; [|split; [|repeat split; auto]].
  - intros q Hq. destruct (decide (p = q)) as [->|Hne].
    + rewrite lookup_insert_eq. eauto.
    + now rewrite lookup_insert_ne.
  - intros q Hq. apply lookup_insert_ne. intros ->. now apply Hq.
Qed.

(** The temporary file of a request has rank [n] or more. *)
Lemma io_spec_readFileSync_tmp k : io_spec P n (fun _ => True) (readFileSync_tmp k).
Proof.
  intros w _. unfold readFileSync_tmp. destruct (temps w !! k) as [[b|]|];
    (split; [apply touches_refl | exact I]).
Qed.

Lemma io_spec_unlinkSync_tmp k :
  (n <= k)%nat -> io_spec P n (fun _ => True) (unlinkSync_tmp k).
Proof.
  intros Hk w _. unfold unlinkSync_tmp. destruct (temps w !! k) as [[b|]|];
    try (split; [apply touches_refl | exact I]).
  split; [|exact I]. unfold touches, set_temps. cbn [snd dirs clock files timers temps].
  repeat split; auto.
  - now rewrite length_insert.
  - intros k' Hk'. apply list_lookup_insert_ne. lia.
Qed.

Lemma io_spec_form_parse m c :
  io_spec P n (fun chunkFile => forall k, chunkFile = Some k -> (n <= k)%nat)
          (form_parse m c).
Proof.
  intros w Hn. unfold form_parse. destruct c as [b|].
  - destruct (_ =? 0); [split; [apply touches_refl | exact I]|].
    destruct (_ >? _); [split; [apply touches_refl | exact I]|].
    cbn [fst snd]. split; [|now intros k [= <-]].
    unfold touches, set_temps. cbn [dirs clock files timers temps].
    repeat split; auto.
    + rewrite length_app. lia.
    + intros k Hk. apply lookup_app_l. lia.
  - split; [apply touches_refl | discriminate].
Qed.

Lemma io_spec_storeChunkMetadata sid idx b :
  P (metadata_path sid) -> io_spec P n (fun _ => True) (storeChunkMetadata sid idx b).
Proof.
  intros Hp. unfold storeChunkMetadata.
  eapply io_spec_bind; [apply io_spec_existsSync|]. intros present _.
  eapply io_spec_bind with (Q := fun _ => True).
  - destruct present; [|now apply io_spec_ret].
    eapply io_spec_bind; [apply io_spec_readFileSync|]. intros f _.
    destruct f; (now apply io_spec_ret) || apply io_spec_throw.
  - intros m _. eapply io_spec_bind; [apply io_spec_Date_now|]. intros now _.
    eapply io_spec_bind; [now apply io_spec_writeFileSync|]. intros _ _.
    now apply io_spec_ret.
Qed.

Lemma io_spec_load_results sid indices :
  io_spec P n (fun _ => True) (load_results sid indices).
Proof.
  induction indices as [|i rest IH]; cbn [load_results]; [now apply io_spec_ret|].
  eapply io_spec_bind; [apply io_spec_existsSync|]. intros present _.
  destruct present; [|exact IH].
  eapply io_spec_bind; [apply io_spec_readFileSync|]. intros f _.
  destruct f; try apply io_spec_throw.
  eapply io_spec_bind; [exact IH|]. intros rs _. now apply io_spec_ret.
Qed.

End Footprint.

Section HandlerFootprint.

Lemma io_spec_handler_finish n p :
  (n <= p_filepath p)%nat ->
  io_spec (upload_paths (p_sessionId p) (p_chunkIndex p)) n (fun _ => True)
          (handler_finish p).
Proof.
  intros Hk. unfold handler_finish.
  eapply io_spec_bind.
  { apply io_spec_writeFileSync. right. right. reflexivity. }
  intros _ _. eapply io_spec_bind; [now apply io_spec_unlinkSync_tmp|].
  intros _ _. destruct (_ && _).
  - eapply io_spec_bind; [apply io_spec_load_results|]. intros rs _.
    eapply io_spec_bind; [apply io_spec_Date_now|]. intros now _.
    eapply io_spec_bind; [apply io_spec_setTimeout|]. intros _ _.
    now apply io_spec_ret.
  - now apply io_spec_ret.
Qed.

(** The first segment, once the request is parsed and the session id is
    known. *)
Lemma io_spec_store_chunk n rnd req sid chunkFile :
  (forall k, chunkFile = Some k -> (n <= k)%nat) ->
  io_spec (upload_paths sid (default 0 (q_chunkIndex req))) n
    (fun first => match first with
                  | inl _ => True
                  | inr p => p_sessionId p = sid
                             /\ p_chunkIndex p = default 0 (q_chunkIndex req)
                             /\ (n <= p_filepath p)%nat
                  end)
    (match chunkFile with
     | None => ret (inl NoChunkUploaded)
     | Some filepath =>
         let* chunkBuffer := readFileSync_tmp filepath in
         writeFileSync (chunk_path sid (default 0 (q_chunkIndex req)))
                       (ChunkFile chunkBuffer) ;;
         let* metadata := storeChunkMetadata sid (default 0 (q_chunkIndex req))
                                             chunkBuffer in
         let* now := Date_now in
         log_analysis sid (default 0 (q_chunkIndex req)) ;;
         ret (inr (Pending sid (default 0 (q_chunkIndex req))
                           (default 1 (q_totalChunks req))
                           (or_else (q_filename req) "video.mp4")
                           (default 0 (q_fileSize req)) metadata
                           (processChunk chunkBuffer (default 0 (q_chunkIndex req))
                                         sid now rnd)
                           filepath))
     end).
Proof.
  intros Hk. destruct chunkFile as [k|]; [|now apply io_spec_ret].
  eapply io_spec_bind; [apply io_spec_readFileSync_tmp|]. intros b _.
  eapply io_spec_bind.
  { apply io_spec_writeFileSync. left. reflexivity. }
  intros _ _. eapply io_spec_bind.
  { apply io_spec_storeChunkMetadata. right. left. reflexivity. }
  intros m _. eapply io_spec_bind; [apply io_spec_Date_now|]. intros now _.
  eapply io_spec_bind; [apply io_spec_log_analysis|]. intros _ _.
  apply io_spec_ret. repeat split. now apply Hk.
Qed.

Lemma session_id_exec req w :
  (match q_sessionId req with
   | Some s =>
       if bool_decide (s = "")
       then generateSessionId (or_else (q_filename req) "video.mp4")
                              (default 0 (q_fileSize req)) (default 1 (q_totalChunks req))
       else ret s
   | None =>
       generateSessionId (or_else (q_filename req) "video.mp4")
                         (default 0 (q_fileSize req)) (default 1 (q_totalChunks req))
   end) w
  = (Ok (effective_session req w), w).
Proof.
  unfold effective_session. destruct (q_sessionId req) as [s|];
    [case_bool_decide|]; reflexivity.
Qed.

Lemma handler_touches rnd req w :
  touches (upload_paths (effective_session req w) (default 0 (q_chunkIndex req)))
          (List.length (temps w)) w (handler rnd req w).2.
Proof.
  unfold handler. repeat case_bool_decide; cbn [negb]; try apply touches_refl.
  assert (forall c w0, (catch c w0).2 = (c w0).2) as Hcatch.
  { intros c w0. unfold catch. now destruct (c w0) as [[]]. }
  rewrite Hcatch.
  set (n := List.length (temps w)). set (sid := effective_session req w).
  set (P := upload_paths sid (default 0 (q_chunkIndex req))).
  pose proof (io_spec_form_parse P n MAX_FILE_SIZE (q_chunk req) w (Nat.le_refl _))
    as [Hparse Hfile].
  unfold handler_receive. unfold bind at 1. unfold bind at 1.
  destruct (form_parse MAX_FILE_SIZE (q_chunk req) w) as [[chunkFile|e] w0] eqn:E;
    cbn [fst snd] in *; [|exact Hparse].
  apply (touches_trans P n w w0); [exact Hparse|].
  assert (n <= List.length (temps w0))%nat as Hn0.
  { destruct Hparse as (_ & _ & _ & _ & _ & Hl & _). exact Hl. }
  assert (effective_session req w0 = sid) as Hsid.
  { unfold sid, effective_session. destruct Hparse as (_ & -> & _). reflexivity. }
  unfold bind at 1. rewrite session_id_exec, Hsid.
  pose proof (io_spec_store_chunk n rnd req sid chunkFile Hfile) as Hfirst.
  match goal with
  | |- touches _ _ _ (match ?c w0 with _ => _ end).2 =>
      assert (Hb : io_spec P n (fun _ => True)
                     (bind c (fun first => match first with
                                           | inl r => ret r
                                           | inr p => handler_finish p
                                           end)))
  end.
  { eapply io_spec_bind; [exact Hfirst|]. intros [r|p] Hq.
    - now apply io_spec_ret.
    - destruct Hq as (Hs' & Hi' & Hk). unfold P. rewrite <- Hs', <- Hi'.
      now apply io_spec_handler_finish. }
  exact (proj1 (Hb w0 Hn0)).
Qed.

End HandlerFootprint.

(** X7. Whatever the request and the state, the handler writes at most
    three paths: the chunk file, the metadata file and the result file of
    its own session and chunk index. It creates no directory, deletes none
    of the files it names, cancels no timer and leaves every other path as
    it was; of the temporary files of the form parser it touches none that
    was there before the request (its own it removes itself, or leaves
    behind where it fails). *)
Theorem handler_writes_only_its_three_files (rnd : Q) (req : request) (w : world) :
  let w' := (handler rnd req w).2 in
  let sid := effective_session req w in
  let idx := default 0 (q_chunkIndex req) in
  dirs w' = dirs w
  /\ (forall p, is_Some (files w !! p) -> is_Some (files w' !! p))
  /\ (forall p, p <> chunk_path sid idx -> p <> metadata_path sid ->
                p <> result_path sid idx -> files w' !! p = files w !! p)
  /\ (forall t, t ∈ timers w -> t ∈ timers w')
  /\ (forall k, (k < List.length (temps w))%nat -> temps w' !! k = temps w !! k).
Proof.
  cbv zeta. destruct (handler_touches rnd req w) as (Hd & _ & Hk & Hf & Ht & _ & Hp).
  split; [exact Hd|]. split; [exact Hk|]. split; [|split; [exact Ht | exact Hp]].
  intros p H1 H2 H3. apply Hf. unfold upload_paths. tauto.
Qed.

(** ** What the responses report *)

Section Responses.

Lemma stored_results_length w sid l :
  (List.length (stored_results w sid l) <= List.length l)%nat.
Proof.
  unfold stored_results. induction l as [|i l IH]; cbn [omap list_omap List.length];
    [lia|].
  destruct (stored_result w sid i); cbn [List.length]; lia.
Qed.

Lemma stored_results_elem w sid l i r :
  i ∈ l -> stored_result w sid i = Some r -> r ∈ stored_results w sid l.
Proof.
  intros Hi Hr. unfold stored_results. apply list_elem_of_omap. eauto.
Qed.

Lemma aggregate_total_chunks l T fname now :
  a_total_chunks (aggregateChunkResults l T fname now) = Z.of_nat (List.length l).
Proof. unfold aggregateChunkResults. now destruct (fold_left _ _ _). Qed.

End Responses.

(** X8. A partial-progress response echoes the session, the chunk index
    and the declared chunk count of its request; the [receivedChunks] it
    reports is the number of chunks the session then holds, at least one,
    and its chunk result is the one just stored for that chunk. *)
Theorem partial_response_reports_the_stored_state
    (rnd : Q) (sid : string) (idx n : Z) (fname : string) (fsize : Z)
    (b : list byte) (w : world) :
  safe_id sid -> sid <> "" -> session_ok w sid -> acceptable b ->
  match handler rnd (upload sid idx n fname fsize b) w with
  | (Partial sid' idx' n' k prediction confidence processingTime, w') =>
      sid' = sid /\ idx' = idx /\ n' = n
      /\ k = receivedChunks w' sid /\ (1 <= k)%nat
      /\ (idx <> n - 1 \/ Z.of_nat k <> n)
      /\ exists r, stored_result w' sid idx = Some r
                   /\ r_prediction r = prediction /\ r_confidence r = confidence
                   /\ r_processingTime r = processingTime
  | _ => True
  end.
Proof.
  intros Hs Hne Hok Hb. pose proof Hok as (Hw & Hm & Hr).
  rewrite (handler_exec rnd sid idx n fname fsize b w Hw Hs Hne Hb Hm Hr).
  destruct (completes idx n (metadata_after w sid idx b)) eqn:Hcompl; [exact I|].
  assert (receivedChunks (after_upload rnd w sid idx b) sid
          = size (metadata_after w sid idx b)) as Hcount.
  { unfold receivedChunks. rewrite received_dom, metadata_of_after_upload by exact Hs.
    apply size_dom. }
  split; [reflexivity|]. split; [reflexivity|]. split; [reflexivity|].
  split; [now rewrite Hcount|]. split; [|split].
  - unfold metadata_after. rewrite <- size_dom, dom_insert_L.
    assert (size ({[idx]} : gset Z) <= size ({[idx]} ∪ dom (metadata_of w sid)))%nat
      by (apply subseteq_size; set_solver).
    rewrite size_singleton in *. lia.
  - unfold completes in Hcompl. apply andb_false_iff in Hcompl as [H|H].
    + left. now apply Z.eqb_neq.
    + right. now apply Z.eqb_neq.
  - eexists. split; [|repeat split].
    unfold stored_result. rewrite files_after_upload by exact Hs.
    now rewrite decide_True.
Qed.

Lemma partial_response_reports_the_stored_state_witness :
  match handler 0 (upload "s" 0 2 "a.mp4" 10 (bytes_of "aaa")) initial_world with
  | (Partial sid' idx' n' k prediction confidence processingTime, w') =>
      sid' = "s" /\ idx' = 0 /\ n' = 2
      /\ k = receivedChunks w' "s" /\ (1 <= k)%nat
      /\ (0 <> 2 - 1 \/ Z.of_nat k <> 2)
      /\ exists r, stored_result w' "s" 0 = Some r
                   /\ r_prediction r = prediction /\ r_confidence r = confidence
                   /\ r_processingTime r = processingTime
  | _ => True
  end.
Proof.
  apply (partial_response_reports_the_stored_state 0 "s" 0 2 "a.mp4" 10
           (bytes_of "aaa") initial_world).
  - reflexivity.
  - discriminate.
  - apply session_ok_initial_world.
  - vm_compute. split; [reflexivity | discriminate].
Defined.

(** X9. A completed response is only given to the request that carries
    chunk index [n - 1] while the session holds [n] chunks. Its chunk
    breakdown is sorted ascending by chunk index, covers between one and
    [n] chunks (the results found among the indices [0 .. n-1], the chunk
    just uploaded among them), and the aggregate reports the file name and
    file size of this request; the clean-up of the session is scheduled
    five minutes ahead. *)
Theorem completed_response_shape
    (rnd : Q) (sid : string) (idx n : Z) (fname : string) (fsize : Z)
    (b : list byte) (w : world) :
  safe_id sid -> sid <> "" -> session_ok w sid -> acceptable b ->
  match handler rnd (upload sid idx n fname fsize b) w with
  | (Completed sid' idx' n' a, w') =>
      sid' = sid /\ idx' = idx /\ n' = n
      /\ idx = n - 1 /\ Z.of_nat (receivedChunks w' sid) = n
      /\ Sorted Z.le (breakdown_indices a)
      /\ idx ∈ breakdown_indices a
      /\ 1 <= a_total_chunks a <= n
      /\ a_total_chunks a = Z.of_nat (List.length (a_chunk_breakdown a))
      /\ a_filename a = or_else (Some fname) "video.mp4" /\ a_file_size a = fsize
      /\ Timer (clock w + FIVE_MINUTES) sid n ∈ timers w'
  | _ => True
  end.
Proof.
  intros Hs Hne Hok Hb. pose proof Hok as (Hw & Hm & Hr).
  rewrite (handler_exec rnd sid idx n fname fsize b w Hw Hs Hne Hb Hm Hr).
  destruct (completes idx n (metadata_after w sid idx b)) eqn:Hcompl; [|exact I].
  unfold completes in Hcompl. apply andb_prop in Hcompl as [Hlast Hall].
  apply Z.eqb_eq in Hlast. apply Z.eqb_eq in Hall.
  set (w1 := after_upload rnd w sid idx b).
  set (rs := stored_results w1 sid (seqZ 0 n)).
  set (cr := processChunk b idx sid (clock w) rnd).
  assert (receivedChunks (after_completion rnd w sid idx n b) sid
          = size (metadata_after w sid idx b)) as Hcount.
  { unfold receivedChunks, received, after_completion. cbn [files].
    fold (received (after_upload rnd w sid idx b) sid).
    rewrite received_dom, metadata_of_after_upload by exact Hs. apply size_dom. }
  assert (0 < n) as Hn.
  { rewrite <- Hall. unfold metadata_after.
    assert (size (<[idx:=ChunkMeta (Z.of_nat (List.length b)) (md5_hex b) (clock w)]>
                    (metadata_of w sid)) <> 0%nat); [|lia].
    intros H0. apply map_size_empty_iff in H0.
    now apply insert_non_empty in H0. }
  assert (cr ∈ rs) as Hin.
  { apply (stored_results_elem w1 sid (seqZ 0 n) idx).
    - apply elem_of_seqZ. lia.
    - unfold stored_result, w1. rewrite files_after_upload by exact Hs.
      now rewrite decide_True. }
  assert (breakdown_indices
            (aggregateChunkResults (sort_by_index rs) fsize
               (or_else (Some fname) "video.mp4") (clock w))
          = map r_chunkIndex (sort_by_index rs)) as Hbreak
    by apply breakdown_indices_aggregate.
  split; [reflexivity|]. split; [reflexivity|]. split; [reflexivity|].
  split; [exact Hlast|]. split; [now rewrite Hcount|].
  split; [rewrite Hbreak; apply sort_by_index_sorted|].
  split.
  { rewrite Hbreak. apply list_elem_of_fmap. exists cr. split; [reflexivity|].
    now rewrite sort_by_index_perm. }
  rewrite aggregate_total_chunks, sort_by_index_length.
  split.
  { split.
    - destruct rs as [|r0 rs0]; [now apply not_elem_of_nil in Hin | cbn; lia].
    - pose proof (stored_results_length w1 sid (seqZ 0 n)) as Hlen.
      rewrite length_seqZ in Hlen. fold rs in Hlen. lia. }
  split.
  { unfold aggregateChunkResults. destruct (fold_left _ _ _).
    cbn [a_chunk_breakdown]. now rewrite length_map, sort_by_index_length. }
  split; [unfold aggregateChunkResults; now destruct (fold_left _ _ _)|].
  split; [unfold aggregateChunkResults; now destruct (fold_left _ _ _)|].
  unfold after_completion. cbn [timers]. apply elem_of_enqueue.
Qed.

Lemma completed_response_shape_witness :
  match handler 0 (upload "s" 0 1 "a.mp4" 10 (bytes_of "aaa")) initial_world with
  | (Completed sid' idx' n' a, w') =>
      sid' = "s" /\ idx' = 0 /\ n' = 1
      /\ 0 = 1 - 1 /\ Z.of_nat (receivedChunks w' "s") = 1
      /\ Sorted Z.le (breakdown_indices a)
      /\ 0 ∈ breakdown_indices a
      /\ 1 <= a_total_chunks a <= 1
      /\ a_total_chunks a = Z.of_nat (List.length (a_chunk_breakdown a))
      /\ a_filename a = or_else (Some "a.mp4") "video.mp4" /\ a_file_size a = 10
      /\ Timer (clock initial_world + FIVE_MINUTES) "s" 1 ∈ timers w'
  | _ => True
  end.
Proof.
  apply (completed_response_shape 0 "s" 0 1 "a.mp4" 10 (bytes_of "aaa") initial_world).
  - reflexivity.
  - discriminate.
  - apply session_ok_initial_world.
  - vm_compute. split; [reflexivity | discriminate].
Defined.

(** ** [storeChunkMetadata] and [generateSessionId] *)

(** X10. [storeChunkMetadata] records the size and the MD5 of the chunk
    under its index, keeps the entries of all other indices, and returns
    the metadata it has written: reading the metadata file back gives the
    returned map. No other file changes, and the count of entries grows by
    one for a new index and stays for an index already recorded. *)
Theorem storeChunkMetadata_records_the_chunk
    (sid : string) (idx : Z) (b : list byte) (w : world) :
  safe_id sid -> ready w -> metadata_parses w sid ->
  exists m w',
    storeChunkMetadata sid idx b w = (Ok m, w')
    /\ metadata_of w' sid = m
    /\ m !! idx = Some (ChunkMeta (Z.of_nat (List.length b)) (md5_hex b) (clock w))
    /\ (forall j, j <> idx -> m !! j = metadata_of w sid !! j)
    /\ (forall p, p <> metadata_path sid -> files w' !! p = files w !! p)
    /\ size m = (if decide (idx ∈ received w sid)
                 then receivedChunks w sid else S (receivedChunks w sid)).
Proof.
  intros Hs Hw Hm.
  rewrite (storeChunkMetadata_exec w sid idx b (flat_metadata_path w sid Hw Hs) Hm).
  do 2 eexists. split; [reflexivity|]. split; [|split; [|split; [|split]]].
  - unfold metadata_of, set_files. cbn [files]. now rewrite lookup_insert_eq.
  - apply lookup_insert_eq.
  - intros j Hj. now apply lookup_insert_ne.
  - intros p Hp. unfold set_files. cbn [files]. now apply lookup_insert_ne.
  - unfold receivedChunks. rewrite received_dom, size_dom. case_decide as Hin.
    + apply elem_of_dom in Hin. now apply map_size_insert_Some.
    + apply not_elem_of_dom in Hin. now apply map_size_insert_None.
Qed.

Lemma storeChunkMetadata_records_the_chunk_witness :
  exists m w',
    storeChunkMetadata "s" 3 (bytes_of "aaa") initial_world = (Ok m, w')
    /\ metadata_of w' "s" = m
    /\ m !! 3 = Some (ChunkMeta (Z.of_nat (List.length (bytes_of "aaa")))
                                (md5_hex (bytes_of "aaa")) (clock initial_world))
    /\ (forall j, j <> 3 -> m !! j = metadata_of initial_world "s" !! j)
    /\ (forall p, p <> metadata_path "s" -> files w' !! p = files initial_world !! p)
    /\ size m = (if decide (3 ∈ received initial_world "s")
                 then receivedChunks initial_world "s"
                 else S (receivedChunks initial_world "s")).
Proof.
  apply (storeChunkMetadata_records_the_chunk "s" 3 (bytes_of "aaa") initial_world).
  - reflexivity.
  - apply ready_initial_world.
  - apply session_ok_initial_world.
Defined.

Section GeneratedIds.

Lemma hexdigit_is_hex z :
  MD5.hexdigit z ∈ list_ascii_of_string "0123456789abcdef".
Proof.
  unfold MD5.hexdigit.
  destruct (nth_in_or_default (Z.to_nat z) (list_ascii_of_string "0123456789abcdef")
              "0"%char) as [Hin | ->].
  - now apply list_elem_of_In.
  - cbn. left.
Qed.

Lemma hex_chars bs c :
  c ∈ list_ascii_of_string (MD5.hex bs) -> c ∈ list_ascii_of_string "0123456789abcdef".
Proof.
  induction bs as [|b bs IH]; cbn [MD5.hex list_ascii_of_string].
  - intros H. now apply not_elem_of_nil in H.
  - intros [->|[->|H]%elem_of_cons]%elem_of_cons; auto using hexdigit_is_hex.
Qed.

End GeneratedIds.

(** X11. [generateSessionId] never fails and changes nothing. The id is
    the MD5 of [filename-fileSize-totalChunks-now]: 32 lowercase hex
    digits, so it holds no path separator and is not empty. *)
Theorem generateSessionId_makes_a_hex_digest
    (filename : string) (fileSize totalChunks : Z) (w : world) :
  exists id,
    generateSessionId filename fileSize totalChunks w = (Ok id, w)
    /\ id = md5_hex (bytes_of (session_data filename fileSize totalChunks (clock w)))
    /\ String.length id = 32%nat
    /\ (forall c, c ∈ list_ascii_of_string id ->
                  c ∈ list_ascii_of_string "0123456789abcdef")
    /\ safe_id id /\ id <> "".
Proof.
  eexists. split; [reflexivity|]. split; [reflexivity|].
  split; [apply md5_hex_length|]. split; [apply hex_chars|].
  split; [apply md5_hex_safe | apply md5_hex_nonempty].
Qed.

(** ** The clean-up of a session *)

Section Cleanup.

Lemma purge_chunks_keep sid indices fs p :
  (forall i, i ∈ indices -> p <> chunk_path sid i /\ p <> result_path sid i) ->
  purge_chunks sid indices fs !! p = fs !! p.
Proof.
  revert fs. induction indices as [|j rest IH]; intros fs Hp; [reflexivity|].
  rewrite purge_chunks_cons, IH by (intros i Hi; apply Hp; now right).
  destruct (Hp j) as [Hc Hr]; [left|].
  now rewrite !lookup_delete_ne by congruence.
Qed.

Lemma purge_chunks_absent sid indices fs :
  (forall i, i ∈ indices ->
     fs !! chunk_path sid i = None /\ fs !! result_path sid i = None) ->
  purge_chunks sid indices fs = fs.
Proof.
  induction indices as [|j rest IH]; intros Habs; [reflexivity|].
  rewrite purge_chunks_cons. destruct (Habs j) as [Hc Hr]; [left|].
  rewrite (delete_id fs (chunk_path sid j)) by exact Hc.
  rewrite (delete_id fs (result_path sid j)) by exact Hr.
  apply IH. intros i Hi. apply Habs. now right.
Qed.

Lemma purged_idempotent sid n fs : purged sid n (purged sid n fs) = purged sid n fs.
Proof.
  destruct (purged_removes sid n fs) as [Hm Hi].
  unfold purged at 1. rewrite purge_chunks_absent.
  - now apply delete_id.
  - intros i Hin. apply elem_of_seqZ in Hin. apply Hi. lia.
Qed.

End Cleanup.

(** X12. The clean-up of a session never fails. It deletes the metadata
    file of the session and the chunk and result files of the indices
    [0 .. n-1]; chunk and result files of the session under other indices
    stay, and so do the files of every other session, the directories and
    the timers. Running it again changes nothing. *)
Theorem cleanup_removes_the_files_in_range (sid : string) (n : Z) (w : world) :
  safe_id sid -> ready w ->
  exists w',
    cleanup sid n w = (Ok tt, w')
    /\ files w' !! metadata_path sid = None
    /\ (forall i, 0 <= i < n ->
          files w' !! chunk_path sid i = None /\ files w' !! result_path sid i = None)
    /\ (forall i, ~ 0 <= i < n ->
          files w' !! chunk_path sid i = files w !! chunk_path sid i
          /\ files w' !! result_path sid i = files w !! result_path sid i)
    /\ (forall sid' i, safe_id sid' -> sid' <> sid ->
          files w' !! metadata_path sid' = files w !! metadata_path sid'
          /\ files w' !! chunk_path sid' i = files w !! chunk_path sid' i
          /\ files w' !! result_path sid' i = files w !! result_path sid' i)
    /\ dirs w' = dirs w /\ timers w' = timers w
    /\ cleanup sid n w' = (Ok tt, w').
Proof.
  intros Hs Hw. rewrite (cleanup_exec sid n w Hw Hs).
  eexists. split; [reflexivity|].
  destruct (purged_removes sid n (files w)) as [Hm Hi].
  unfold set_files. cbn [files dirs timers].
  split; [exact Hm|]. split; [exact Hi|]. split; [|split; [|split; [|split]]];
    try reflexivity.
  - intros i Hout. unfold purged. split.
    + rewrite lookup_delete_ne by (intros E; symmetry in E; now apply chunk_path_not_metadata in E).
      apply purge_chunks_keep. intros j Hj. apply elem_of_seqZ in Hj. split.
      * intros E. apply chunk_path_inj in E as [_ E]; [lia | assumption..].
      * now apply chunk_path_not_result.
    + rewrite lookup_delete_ne by (intros E; symmetry in E; now apply result_path_not_metadata in E).
      apply purge_chunks_keep. intros j Hj. apply elem_of_seqZ in Hj. split.
      * intros E. symmetry in E. now apply chunk_path_not_result in E.
      * intros E. apply result_path_inj in E as [_ E]; [lia | assumption..].
  - intros sid' i Hs' Hne.
    assert (forall p,
              p = metadata_path sid' \/ (exists j, p = result_path sid' j)
                \/ (exists j, p = chunk_path sid' j) ->
              purged sid n (files w) !! p = files w !! p) as Hkeep.
    { intros p Hp.
      apply (purged_by_other_sessions [Timer 0 sid n] (files w) sid' p Hs'); [|exact Hp].
      constructor; [|constructor]. cbn. split; [exact Hs | congruence]. }
    split; [|split]; apply Hkeep; eauto.
  - rewrite (cleanup_exec sid n (World _ _ _ _ _ _) Hw Hs).
    unfold set_files. cbn [files dirs clock timers analyzed temps].
    now rewrite purged_idempotent.
Qed.

Lemma cleanup_removes_the_files_in_range_witness :
  let w := after_upload 0 initial_world "s" 5 (bytes_of "aaa") in
  exists w',
    cleanup "s" 2 w = (Ok tt, w')
    /\ files w' !! metadata_path "s" = None
    /\ (forall i, 0 <= i < 2 ->
          files w' !! chunk_path "s" i = None /\ files w' !! result_path "s" i = None)
    /\ (forall i, ~ 0 <= i < 2 ->
          files w' !! chunk_path "s" i = files w !! chunk_path "s" i
          /\ files w' !! result_path "s" i = files w !! result_path "s" i)
    /\ (forall sid' i, safe_id sid' -> sid' <> "s" ->
          files w' !! metadata_path sid' = files w !! metadata_path sid'
          /\ files w' !! chunk_path sid' i = files w !! chunk_path sid' i
          /\ files w' !! result_path sid' i = files w !! result_path sid' i)
    /\ dirs w' = dirs w /\ timers w' = timers w
    /\ cleanup "s" 2 w' = (Ok tt, w').
Proof.
  intros w. apply (cleanup_removes_the_files_in_range "s" 2 w).
  - reflexivity.
  - apply ready_initial_world.
Defined.

(** ** Payloads beyond the parser's limit *)

(** X13. [upload-chunked.js] hands [MAX_FILE_SIZE] (100 MiB) to the form
    parser: a request whose chunk is larger gets the 500 response and
    nothing is stored, no analysis runs and no timer is set. *)
Theorem handler_rejects_payload_over_100MiB
    (rnd : Q) (req : request) (b : list byte) (w : world) :
  q_method req = "POST" -> q_chunk req = Some b ->
  MAX_FILE_SIZE < Z.of_nat (List.length b) ->
  handler rnd req w = (Failed FileTooLarge, w).
Proof.
  intros Hm Hc Hlen. unfold handler, catch. rewrite Hm.
  rewrite bool_decide_false by discriminate.
  rewrite bool_decide_true by reflexivity. cbn [negb].
  unfold handler_receive. rewrite Hc.
  assert (form_parse MAX_FILE_SIZE (Some b) w = (Throw FileTooLarge, w)) as Hparse.
  { unfold form_parse.
    destruct (Z.eqb_spec (Z.of_nat (List.length b)) 0) as [E|_].
    - unfold MAX_FILE_SIZE in Hlen. lia.
    - destruct (Z.gtb_spec (Z.of_nat (List.length b)) MAX_FILE_SIZE);
        [reflexivity | lia]. }
  unfold bind at 1. unfold bind at 1. now rewrite Hparse.
Qed.

Lemma handler_rejects_payload_over_100MiB_witness :
  handler 0 (upload "s" 0 1 "a.mp4" (128 * MiB) (doubled 27 [x00])) initial_world
  = (Failed FileTooLarge, initial_world).
Proof.
  apply (handler_rejects_payload_over_100MiB 0 _ (doubled 27 [x00])).
  - reflexivity.
  - reflexivity.
  - rewrite doubled_length. vm_compute. reflexivity.
Defined.

(** ** Uploads to different sessions *)

Section Independence.

Lemma enqueue_perm t ts : enqueue t ts ≡ₚ t :: ts.
Proof.
  induction ts as [|t' ts IH]; [reflexivity|]. simpl.
  destruct (t_due t' <=? t_due t); [|reflexivity].
  rewrite IH. apply Permutation_swap.
Qed.

Lemma handler_world rnd sid idx n fname fsize b w :
  safe_id sid -> sid <> "" -> session_ok w sid -> acceptable b ->
  let w' := (handler rnd (upload sid idx n fname fsize b) w).2 in
  files w' = files (after_upload rnd w sid idx b)
  /\ dirs w' = dirs w /\ clock w' = clock w
  /\ timers w' ≡ₚ
       (if completes idx n (metadata_after w sid idx b)
        then [Timer (clock w + 5 * 60 * 1000) sid n] else []) ++ timers w.
Proof.
  intros Hs Hne (Hw & Hm & Hr) Hb.
  rewrite (handler_exec rnd sid idx n fname fsize b w Hw Hs Hne Hb Hm Hr).
  destruct (completes idx n (metadata_after w sid idx b)); cbn [snd]; cbv zeta.
  - unfold after_completion. cbn [files dirs clock timers].
    repeat split; try reflexivity. apply enqueue_perm.
  - repeat split; reflexivity.
Qed.

Lemma session_ok_other rnd sid sid' idx n fname fsize b w :
  safe_id sid -> sid <> "" -> safe_id sid' -> sid <> sid' ->
  session_ok w sid -> acceptable b -> session_ok w sid' ->
  session_ok (handler rnd (upload sid idx n fname fsize b) w).2 sid'.
Proof.
  intros Hs Hne Hs' Hdiff Hok Hb (Hw' & Hm' & Hr').
  destruct (upload_leaves_other_sessions rnd sid sid' idx n fname fsize b w
              Hs Hne Hs' Hdiff Hok Hb) as (Em & Er & _).
  destruct (handler_world rnd sid idx n fname fsize b w Hs Hne Hok Hb)
    as (_ & Ed & _).
  cbv zeta in *. split; [|split].
  - unfold ready in *. now rewrite Ed.
  - intros f. rewrite Em. apply Hm'.
  - intros i f. rewrite Er. apply Hr'.
Qed.

(** The response to an upload depends on the clock and on the metadata
    and result files of its own session only. *)
Lemma handler_response_local rnd sid idx n fname fsize b w w0 :
  safe_id sid -> sid <> "" -> acceptable b ->
  session_ok w sid -> session_ok w0 sid ->
  clock w0 = clock w ->
  files w0 !! metadata_path sid = files w !! metadata_path sid ->
  (forall i, files w0 !! result_path sid i = files w !! result_path sid i) ->
  (handler rnd (upload sid idx n fname fsize b) w0).1
  = (handler rnd (upload sid idx n fname fsize b) w).1.
Proof.
  intros Hs Hne Hb (Hw & Hm & Hr) (Hw0 & Hm0 & Hr0) Ec Em Er.
  rewrite (handler_exec rnd sid idx n fname fsize b w Hw Hs Hne Hb Hm Hr).
  rewrite (handler_exec rnd sid idx n fname fsize b w0 Hw0 Hs Hne Hb Hm0 Hr0).
  assert (metadata_after w0 sid idx b = metadata_after w sid idx b) as ->.
  { unfold metadata_after, metadata_of. now rewrite Em, Ec. }
  assert (forall l, stored_results (after_upload rnd w0 sid idx b) sid l
                    = stored_results (after_upload rnd w sid idx b) sid l) as ->.
  { intros l. unfold stored_results. induction l as [|i l IH]; [reflexivity|].
    assert (stored_result (after_upload rnd w0 sid idx b) sid i
            = stored_result (after_upload rnd w sid idx b) sid i) as Ei.
    { unfold stored_result.
      rewrite !files_after_upload by exact Hs. rewrite Ec, Er.
      repeat case_decide; reflexivity. }
    cbn [omap list_omap]. now rewrite Ei, IH. }
  rewrite Ec.
  destruct (completes idx n (metadata_after w sid idx b)); reflexivity.
Qed.

End Independence.

(** X14. Two uploads to different sessions (ids without a path
    separator) commute: served in either order, each request gets the same
    response, and the stored files, the directories and the clock are the
    same afterwards; the pending clean-up timers are the same up to their
    order. *)
Theorem uploads_to_different_sessions_commute
    (rnd1 rnd2 : Q) (s1 s2 : string) (i1 i2 n1 n2 : Z) (f1 f2 : string)
    (z1 z2 : Z) (b1 b2 : list byte) (w : world) :
  safe_id s1 -> s1 <> "" -> safe_id s2 -> s2 <> "" -> s1 <> s2 ->
  session_ok w s1 -> session_ok w s2 -> acceptable b1 -> acceptable b2 ->
  let u1 := upload s1 i1 n1 f1 z1 b1 in
  let u2 := upload s2 i2 n2 f2 z2 b2 in
  let first1 := handler rnd1 u1 w in
  let then2 := handler rnd2 u2 first1.2 in
  let first2 := handler rnd2 u2 w in
  let then1 := handler rnd1 u1 first2.2 in
  first1.1 = then1.1 /\ first2.1 = then2.1
  /\ files then2.2 = files then1.2
  /\ dirs then2.2 = dirs then1.2
  /\ clock then2.2 = clock then1.2
  /\ timers then2.2 ≡ₚ timers then1.2.
Proof.
  intros Hs1 Hne1 Hs2 Hne2 Hdiff Hok1 Hok2 Hb1 Hb2. cbv zeta.
  assert (s2 <> s1) as Hdiff' by congruence.
  pose proof (session_ok_other rnd1 s1 s2 i1 n1 f1 z1 b1 w
                Hs1 Hne1 Hs2 Hdiff Hok1 Hb1 Hok2) as Hok12.
  pose proof (session_ok_other rnd2 s2 s1 i2 n2 f2 z2 b2 w
                Hs2 Hne2 Hs1 Hdiff' Hok2 Hb2 Hok1) as Hok21.
  destruct (upload_leaves_other_sessions rnd1 s1 s2 i1 n1 f1 z1 b1 w
              Hs1 Hne1 Hs2 Hdiff Hok1 Hb1) as (Em12 & Er12 & _).
  destruct (upload_leaves_other_sessions rnd2 s2 s1 i2 n2 f2 z2 b2 w
              Hs2 Hne2 Hs1 Hdiff' Hok2 Hb2) as (Em21 & Er21 & _).
  destruct (handler_world rnd1 s1 i1 n1 f1 z1 b1 w Hs1 Hne1 Hok1 Hb1)
    as (Ef1 & Ed1 & Ec1 & Et1).
  destruct (handler_world rnd2 s2 i2 n2 f2 z2 b2 w Hs2 Hne2 Hok2 Hb2)
    as (Ef2 & Ed2 & Ec2 & Et2).
  destruct (handler_world rnd2 s2 i2 n2 f2 z2 b2 _ Hs2 Hne2 Hok12 Hb2)
    as (Ef12 & Ed12 & Ec12 & Et12).
  destruct (handler_world rnd1 s1 i1 n1 f1 z1 b1 _ Hs1 Hne1 Hok21 Hb1)
    as (Ef21 & Ed21 & Ec21 & Et21).
  cbv zeta in *.
  set (w1 := (handler rnd1 (upload s1 i1 n1 f1 z1 b1) w).2) in *.
  set (w2 := (handler rnd2 (upload s2 i2 n2 f2 z2 b2) w).2) in *.
  assert (metadata_after w1 s2 i2 b2 = metadata_after w s2 i2 b2) as Ema12.
  { unfold metadata_after, metadata_of. now rewrite Em12, Ec1. }
  assert (metadata_after w2 s1 i1 b1 = metadata_after w s1 i1 b1) as Ema21.
  { unfold metadata_after, metadata_of. now rewrite Em21, Ec2. }
  split; [|split; [|split; [|split; [|split]]]].
  - symmetry. now apply handler_response_local.
  - symmetry. now apply handler_response_local.
  - rewrite Ef12, Ef21. apply map_eq. intros p.
    rewrite !files_after_upload by assumption.
    rewrite Ef1, Ef2, !files_after_upload by assumption.
    rewrite Ema12, Ema21, Ec1, Ec2.
    pose proof (chunk_path_not_result s1 s2 i1 i2 Hs1 Hs2).
    pose proof (chunk_path_not_result s2 s1 i2 i1 Hs2 Hs1).
    pose proof (chunk_path_not_metadata s1 s2 i1 Hs1 Hs2).
    pose proof (chunk_path_not_metadata s2 s1 i2 Hs2 Hs1).
    pose proof (result_path_not_metadata s1 s2 i1 Hs1 Hs2).
    pose proof (result_path_not_metadata s2 s1 i2 Hs2 Hs1).
    assert (metadata_path s1 <> metadata_path s2)
      by (intros E; now apply metadata_path_inj in E).
    assert (result_path s1 i1 <> result_path s2 i2)
      by (intros E; apply result_path_inj in E as [E _]; [congruence|assumption..]).
    assert (chunk_path s1 i1 <> chunk_path s2 i2)
      by (intros E; apply chunk_path_inj in E as [E _]; [congruence|assumption..]).
    repeat case_decide; subst; congruence.
  - now rewrite Ed12, Ed21, Ed1, Ed2.
  - now rewrite Ec12, Ec21, Ec1, Ec2.
  - rewrite Et12, Et21, Et1, Et2, Ema12, Ema21, Ec1, Ec2.
    rewrite !app_assoc. apply Permutation_app_tail, Permutation_app_comm.
Qed.

Lemma uploads_to_different_sessions_commute_witness :
  let u1 := upload "a" 0 1 "a.mp4" 3 (bytes_of "aaa") in
  let u2 := upload "b" 1 2 "b.mp4" 6 (bytes_of "bbb") in
  let first1 := handler (1 # 2) u1 initial_world in
  let then2 := handler (1 # 4) u2 first1.2 in
  let first2 := handler (1 # 4) u2 initial_world in
  let then1 := handler (1 # 2) u1 first2.2 in
  first1.1 = then1.1 /\ first2.1 = then2.1
  /\ files then2.2 = files then1.2
  /\ dirs then2.2 = dirs then1.2
  /\ clock then2.2 = clock then1.2
  /\ timers then2.2 ≡ₚ timers then1.2.
Proof.
  apply (uploads_to_different_sessions_commute
           (1 # 2) (1 # 4) "a" "b" 0 1 1 2 "a.mp4" "b.mp4" 3 6
           (bytes_of "aaa") (bytes_of "bbb") initial_world).
  - reflexivity.
  - discriminate.
  - reflexivity.
  - discriminate.
  - discriminate.
  - apply session_ok_initial_world.
  - apply session_ok_initial_world.
  - unfold acceptable. vm_compute. split; [reflexivity | discriminate].
  - unfold acceptable. vm_compute. split; [reflexivity | discriminate].
Defined.

(** ** [api/upload-chunk.js] *)

Section UploadChunkPaths.







End UploadChunkPaths.

Section UploadChunkRun.

Lemma upload_dir_of_longer (uid c : string) :
  upload_dir_of uid +:+ "/" +:+ c <> upload_dir_of uid.
Proof.
  intros E. apply (f_equal String.length) in E.
  rewrite !append_length in E. simpl in E. lia.
Qed.






End UploadChunkRun.



Section UploadChunkFootprint.

Context (P : string -> Prop) (n : nat).

Lemma grows_refl w : grows P n w w.
Proof. unfold grows. repeat split; auto. Qed.

Lemma grows_trans w1 w2 w3 : grows P n w1 w2 -> grows P n w2 w3 -> grows P n w1 w3.
Proof.
  intros (Hd & Hc & Ht & He & Hf & Hl & Hp) (Hd' & Hc' & Ht' & He' & Hf' & Hl' & Hp').
  unfold grows. split; [set_solver|]. split; [congruence|]. split; [congruence|].
  split; [auto|]. split; [|split; [lia|]].
  - intros p Hnp. rewrite Hf' by exact Hnp. now apply Hf.
  - intros k Hk. rewrite Hp' by exact Hk. now apply Hp.
Qed.

Lemma io_grows_ret {A} (a : A) : io_grows P n (ret a).
Proof. intros w _. apply grows_refl. Qed.

Lemma io_grows_bind {A B} (c : io A) (k : A -> io B) :
  io_grows P n c -> (forall a, io_grows P n (k a)) -> io_grows P n (bind c k).
Proof.
  intros Hc Hk w Hn. unfold bind. specialize (Hc w Hn).
  destruct (c w) as [[a|e] w1]; cbn [snd] in *; [|exact Hc].
  eapply grows_trans; [exact Hc | apply Hk].
  destruct Hc as (_ & _ & _ & _ & _ & Hl & _). lia.
Qed.

Lemma io_grows_existsSync p : io_grows P n (existsSync p).
Proof. intros w _. apply grows_refl. Qed.

Lemma io_grows_Date_now : io_grows P n Date_now.
Proof. intros w _. apply grows_refl. Qed.

Lemma io_grows_mkdirSync_recursive p : io_grows P n (mkdirSync_recursive p).
Proof.
  intros w _. unfold mkdirSync_recursive.
  destruct (List.find _ _); [apply grows_refl|].
  unfold grows. cbn [snd files dirs clock timers temps].
  split; [set_solver|]. repeat split; auto.
Qed.

Lemma io_grows_writeFileSync p f : P p -> io_grows P n (writeFileSync p f).
Proof.
  intros Hp w _. unfold writeFileSync.
  destruct (is_dir w p); [apply grows_refl|].
  destruct (Path.trailing p); [apply grows_refl|].
  destruct (bool_decide _); [|apply grows_refl].
  unfold grows, set_files. cbn [snd files dirs clock timers temps].
  split; [reflexivity|]. split; [reflexivity|]. split; [reflexivity|].
  split; [|split; [|split; auto]].
  - intros q Hq. destruct (decide (q = p)) as [->|Hne].
    + rewrite lookup_insert_eq. eauto.
    + now rewrite lookup_insert_ne by congruence.
  - intros q Hq. apply lookup_insert_ne. intros ->. now apply Hq.
Qed.

Lemma io_grows_readFileSync_tmp k : io_grows P n (readFileSync_tmp k).
Proof.
  intros w _. unfold readFileSync_tmp.
  destruct (temps w !! k) as [[b|]|]; apply grows_refl.
Qed.

Lemma io_grows_unlinkSync_tmp k : (n <= k)%nat -> io_grows P n (unlinkSync_tmp k).
Proof.
  intros Hk w _. unfold unlinkSync_tmp.
  destruct (temps w !! k) as [[b|]|]; try apply grows_refl.
  unfold grows, set_temps. cbn [snd files dirs clock timers temps].
  repeat split; auto.
  - now rewrite length_insert.
  - intros k' Hk'. apply list_lookup_insert_ne. lia.
Qed.

End UploadChunkFootprint.

Lemma grows_form_parse (P : string -> Prop) maxSize chunk w :
  grows P (List.length (temps w)) w (form_parse maxSize chunk w).2
  /\ forall k, (form_parse maxSize chunk w).1 = Ok (Some k) -> k = List.length (temps w).
Proof.
  unfold form_parse. destruct chunk as [b|].
  - destruct (_ =? 0); [split; [apply grows_refl | discriminate]|].
    destruct (_ >? _); [split; [apply grows_refl | discriminate]|].
    cbn [fst snd]. split; [|now intros k [= <-]].
    unfold grows, set_temps. cbn [dirs clock files timers temps].
    repeat split; auto.
    + rewrite length_app. lia.
    + intros k Hk. apply lookup_app_l. lia.
  - split; [apply grows_refl | discriminate].
Qed.


(** X16. Whatever the request, [upload-chunk.js] removes no directory
    and none of the files it names, and sets no timer: directories and
    files that exist stay, the only files whose content can change are the
    chunk file and the metadata file of the request, the clock and the
    pending timers are untouched, and of the temporary files of the form
    parser none that was there before the request is touched (its own it
    removes itself, or leaves behind where it answers 400 or fails). *)
Theorem upload_chunk_writes_only_its_two_files
    (req : UploadChunk.request) (w : world) :
  let w' := (UploadChunk.handler req w).2 in
  dirs w ⊆ dirs w' /\ clock w' = clock w /\ timers w' = timers w
  /\ (forall p, is_Some (files w !! p) -> is_Some (files w' !! p))
  /\ (forall p, ~ upload_chunk_paths req p -> files w' !! p = files w !! p)
  /\ (forall k, (k < List.length (temps w))%nat -> temps w' !! k = temps w !! k).
Proof.
  cbv zeta.
  assert (grows (upload_chunk_paths req) (List.length (temps w)) w
                (UploadChunk.handler req w).2) as (H1 & H2 & H3 & H4 & H5 & _ & H7);
    [|repeat split; assumption].
  unfold UploadChunk.handler.
  destruct (bool_decide (UploadChunk.q_method req = "OPTIONS")); [apply grows_refl|].
  destruct (negb _); [apply grows_refl|].
  set (n := List.length (temps w)). set (P := upload_chunk_paths req).
  assert (grows P n w (UploadChunk.handler_body req w).2) as Hbody.
  { unfold UploadChunk.handler_body. unfold bind at 1.
    destruct (grows_form_parse P UploadChunk.MAX_CHUNK (UploadChunk.q_chunk req) w)
      as [Hparse Hk].
    destruct (form_parse UploadChunk.MAX_CHUNK (UploadChunk.q_chunk req) w)
      as [[chunk|e] w0]; cbn [fst snd] in *; [|exact Hparse].
    apply (grows_trans P n w w0); [exact Hparse|].
    assert (n <= List.length (temps w0))%nat as Hn0.
    { destruct Hparse as (_ & _ & _ & _ & _ & Hl & _). exact Hl. }
    clear Hparse.
    destruct chunk as [k|]; [|apply grows_refl].
    assert (k = n) as -> by (now apply Hk).
    unfold P, upload_chunk_paths, UploadChunk.truthy.
    destruct (UploadChunk.q_uploadId req) as [uid|]; [|apply grows_refl].
    destruct (bool_decide (uid = "")); [apply grows_refl|].
    cbn [default from_option id]. cbv zeta.
    revert w0 Hn0. apply io_grows_bind; [apply io_grows_existsSync|]. intros present.
    apply io_grows_bind.
    { destruct present; [apply io_grows_ret | apply io_grows_mkdirSync_recursive]. }
    intros _. apply io_grows_bind; [apply io_grows_readFileSync_tmp|]. intros b.
    apply io_grows_bind.
    { apply io_grows_writeFileSync. now left. }
    intros _. apply io_grows_bind; [now apply io_grows_unlinkSync_tmp|].
    intros _. apply io_grows_bind; [apply io_grows_Date_now|]. intros now.
    apply io_grows_bind; [|intros _; apply io_grows_ret].
    apply io_grows_writeFileSync. now right. }
  destruct (UploadChunk.handler_body req w) as [[r|e] w']; exact Hbody.
Qed.

(** ** The zero-padded chunk names *)

Section PaddedNames.

Lemma padded_chunk_name_next (i : Z) :
  0 <= i < 9999 ->
  String.compare (padded_chunk_name i) (padded_chunk_name (i + 1)) = Lt.
Proof.
  intros Hi.
  assert (forallb (fun i => match String.compare (padded_chunk_name i)
                                                 (padded_chunk_name (i + 1)) with
                            | Lt => true
                            | _ => false
                            end) (seqZ 0 9999) = true) as Hall
    by (vm_compute; reflexivity).
  rewrite forallb_forall in Hall. specialize (Hall i).
  destruct (String.compare _ _); try reflexivity; exfalso;
    (assert (false = true) as E; [|discriminate E]);
    apply Hall, list_elem_of_In, elem_of_seqZ; lia.
Qed.

Lemma padded_chunk_name_lt (n : nat) : forall i,
  0 <= i -> i + Z.of_nat n + 1 <= 9999 ->
  String.compare (padded_chunk_name i) (padded_chunk_name (i + Z.of_nat n + 1)) = Lt.
Proof.
  induction n as [|n IH]; intros i Hi Hj.
  - replace (i + Z.of_nat 0 + 1) with (i + 1) by lia.
    apply padded_chunk_name_next. lia.
  - apply OrderedTypeEx.String_as_OT.cmp_lt.
    apply OrderedTypeEx.String_as_OT.lt_trans with (padded_chunk_name (i + Z.of_nat n + 1)).
    + apply OrderedTypeEx.String_as_OT.cmp_lt. apply IH; lia.
    + apply OrderedTypeEx.String_as_OT.cmp_lt.
      replace (i + Z.of_nat (S n) + 1) with ((i + Z.of_nat n + 1) + 1) by lia.
      apply padded_chunk_name_next. lia.
Qed.

End PaddedNames.

(** X17. For chunk indices from 0 to 9999 the zero-padded chunk names
    are ordered, as strings, like the indices, so a listing sorted by
    name is in chunk order; the name of chunk 10000 already sorts before
    that of chunk 9999. *)
Theorem padded_chunk_names_sort_like_indices (i j : Z) :
  0 <= i <= 9999 -> 0 <= j <= 9999 ->
  String.compare (padded_chunk_name i) (padded_chunk_name j) = Z.compare i j
  /\ String.compare (padded_chunk_name 10000) (padded_chunk_name 9999) = Lt.
Proof.
  intros Hi Hj. split; [|vm_compute; reflexivity].
  destruct (Z.compare_spec i j) as [-> | Hlt | Hgt].
  - pose proof (String.compare_antisym (padded_chunk_name j) (padded_chunk_name j)) as A.
    destruct (String.compare (padded_chunk_name j) (padded_chunk_name j));
      [reflexivity | |]; simpl in A; discriminate A.
  - replace j with (i + Z.of_nat (Z.to_nat (j - i - 1)) + 1) by lia.
    apply padded_chunk_name_lt; lia.
  - rewrite String.compare_antisym.
    replace i with (j + Z.of_nat (Z.to_nat (i - j - 1)) + 1) at 1 by lia.
    rewrite padded_chunk_name_lt by lia. reflexivity.
Qed.

Lemma padded_chunk_names_sort_like_indices_witness :
  String.compare (padded_chunk_name 9) (padded_chunk_name 10) = Z.compare 9 10
  /\ String.compare (padded_chunk_name 10000) (padded_chunk_name 9999) = Lt.
Proof.
  apply (padded_chunk_names_sort_like_indices 9 10); lia.
Defined.

(** ** The temporary file of a request *)

(** X18. An upload that is answered with partial progress or with the
    final result has removed the temporary file that the form parser
    wrote for it: the request leaves one more temporary-file name behind
    than it found, the name holds no file any more, and the temporary
    files of earlier requests are as they were. *)
Theorem temporary_file_removed_on_success
    (rnd : Q) (sid : string) (idx n : Z) (fname : string) (fsize : Z)
    (b : list byte) (w : world) :
  safe_id sid -> sid <> "" -> ready w -> acceptable b ->
  metadata_parses w sid -> results_parse w sid ->
  let served := handler rnd (upload sid idx n fname fsize b) w in
  is_partial served.1 || is_completed served.1 = true
  /\ temps served.2 = temps w ++ [None].
Proof.
  intros Hs Hne Hw Hb Hm Hr. cbv zeta.
  rewrite (handler_exec rnd sid idx n fname fsize b w Hw Hs Hne Hb Hm Hr).
  assert (temps (after_upload rnd w sid idx b) = temps w ++ [None]) as Htmp.
  { unfold after_upload, released, set_temps, after_result, set_files, after_receive.
    cbn [temps]. rewrite insert_app_r_alt by lia. now rewrite Nat.sub_diag. }
  destruct (completes idx n (metadata_after w sid idx b)); cbn [fst snd];
    (split; [reflexivity | exact Htmp]).
Qed.

Lemma temporary_file_removed_on_success_witness :
  let served := handler 0 (upload "s" 0 2 "a.mp4" 10 (bytes_of "aaa")) initial_world in
  is_partial served.1 || is_completed served.1 = true
  /\ temps served.2 = temps initial_world ++ [None].
Proof.
  apply (temporary_file_removed_on_success
           0 "s" 0 2 "a.mp4" 10 (bytes_of "aaa") initial_world).
  - reflexivity.
  - discriminate.
  - apply ready_initial_world.
  - vm_compute. split; [reflexivity | discriminate].
  - intros f. unfold initial_world. cbn [files]. now rewrite lookup_empty.
  - intros i f. unfold initial_world. cbn [files]. now rewrite lookup_empty.
Defined.
